(** * SurveyParser: the group-survey parser, verified against its design notes

    A shallow embedding of [group_survey_parser.py].  Python values are
    modelled as follows.

    - [str] is [string]; the character repertoire is ASCII, so the case
      mappings below are the ASCII ones (code units from 128 up are caseless
      and are not white space).
    - A spreadsheet cell is a [cell]: the float [nan], a text, or a number.
      Numbers are exact rationals, so [mean], [stdev] and [round] are the
      exact-arithmetic readings of the library functions.
    - A raised exception is an [Err]; the operator at the keyboard is a
      script of answers consumed by [input]. *)

From Stdlib Require Import ZArith QArith Qround Qabs Ascii String List Lia Lqa Bool.
From Stdlib Require OrderedTypeEx Sorted.
From stdpp Require Import base option list strings gmap.

Local Open Scope string_scope.
Local Open Scope list_scope.

(** ** Exceptions *)

Inductive pyerr : Type :=
| KeyError
| IndexError
| ValueError
| TypeError
| AttributeError
| StatisticsError.

(** [KeyError] and [IndexError] are the two subclasses of [LookupError]. *)
Definition is_LookupError (e : pyerr) : bool :=
  match e with
  | KeyError | IndexError => true
  | _ => false
  end.

Inductive result (A : Type) : Type :=
| Ok (a : A)
| Err (e : pyerr).
Arguments Ok {A} a.
Arguments Err {A} e.

#[export] Instance result_ret : MRet result := fun _ a => Ok a.
#[export] Instance result_bind : MBind result := fun _ _ f m =>
  match m with
  | Ok a => f a
  | Err e => Err e
  end.

(** [l[i]] on a Python list. *)
Definition index {A} (l : list A) (i : nat) : result A :=
  match l !! i with
  | Some a => Ok a
  | None => Err IndexError
  end.

(** [[x] = l]: unpacking into a one-element target list. *)
Definition unpack1 {A} (l : list A) : result A :=
  match l with
  | [x] => Ok x
  | _ => Err ValueError
  end.

(** ** Strings *)

(** The methods of [str] that the program calls, on texts of ASCII
    characters.  Case and white space are those of the 128 ASCII
    characters, on which Python does exactly this.  Beyond them Python
    follows Unicode: a case mapping may give several characters and white
    space has more members; the module [Uni] below has that reading, and
    what is stated of the program through the functions of this module is
    stated for texts that are [seven_bit]. *)
Module PyStr.

Definition upper_ascii (c : ascii) : ascii :=
  let n := nat_of_ascii c in
  if (97 <=? n)%nat && (n <=? 122)%nat then ascii_of_nat (n - 32) else c.

Definition lower_ascii (c : ascii) : ascii :=
  let n := nat_of_ascii c in
  if (65 <=? n)%nat && (n <=? 90)%nat then ascii_of_nat (n + 32) else c.

(** [str.isspace] on one ASCII character: TAB, LF, VT, FF, CR, the four
    separators FS, GS, RS, US, and the blank. *)
Definition is_space (c : ascii) : bool :=
  let n := nat_of_ascii c in
  ((9 <=? n)%nat && (n <=? 13)%nat) || ((28 <=? n)%nat && (n <=? 32)%nat).

Fixpoint smap (f : ascii -> ascii) (s : string) : string :=
  match s with
  | EmptyString => EmptyString
  | String c r => String (f c) (smap f r)
  end.

(** [s.lower()] *)
Definition lower (s : string) : string := smap lower_ascii s.

(** [s.capitalize()] on ASCII characters: first character upper case, the
    others lower case. *)
Definition capitalize (s : string) : string :=
  match s with
  | EmptyString => EmptyString
  | String c r => String (upper_ascii c) (lower r)
  end.

(** [s.split(sep)] for a separator of one character: one piece more than
    there are separators, never the empty list. *)
Fixpoint split (sep : ascii) (s : string) : list string :=
  match s with
  | EmptyString => [EmptyString]
  | String c r =>
      if Ascii.eqb c sep then EmptyString :: split sep r
      else match split sep r with
           | [] => [String c EmptyString]
           | w :: ws => String c w :: ws
           end
  end.

(** [sep.join(ws)] *)
Fixpoint join (sep : string) (ws : list string) : string :=
  match ws with
  | [] => EmptyString
  | w :: ws' =>
      match ws' with
      | [] => w
      | _ :: _ => w +:+ sep +:+ join sep ws'
      end
  end.

Fixpoint lstrip (s : string) : string :=
  match s with
  | EmptyString => EmptyString
  | String c r => if is_space c then lstrip r else s
  end.

Fixpoint rstrip (s : string) : string :=
  match s with
  | EmptyString => EmptyString
  | String c r =>
      match rstrip r with
      | EmptyString => if is_space c then EmptyString else String c EmptyString
      | r' => String c r'
      end
  end.

(** [s.strip()], with the white space of ASCII. *)
Definition strip (s : string) : string := lstrip (rstrip s).

Fixpoint is_prefix (p s : string) : bool :=
  match p, s with
  | EmptyString, _ => true
  | String a p', String b s' => Ascii.eqb a b && is_prefix p' s'
  | String _ _, EmptyString => false
  end.

(** [pat in s]; also [Series.str.contains(pat)] on one entry, for the
    patterns of this program, which hold no regular-expression operator. *)
Fixpoint contains (pat s : string) : bool :=
  is_prefix pat s
  || match s with
     | EmptyString => false
     | String _ r => contains pat r
     end.

(** No occurrence of the character [c]. *)
Fixpoint free_of (c : ascii) (s : string) : bool :=
  match s with
  | EmptyString => true
  | String a r => negb (Ascii.eqb a c) && free_of c r
  end.

End PyStr.

(** ** Miscellaneous helpers of the source *)

(** [split_email]: [email.split('@')[0].lower()] *)
Definition split_email (email : string) : result string :=
  student_id ← index (PyStr.split "@" email) 0;
  Ok (PyStr.lower student_id).

(** [fix_name]: strip, then initial capitals on every blank-separated word.
    This is the function on ASCII names; [Uni.fix_name] is the function on
    code points, and [fix_name_codes] relates the two. *)
Definition fix_name (name : string) : string :=
  let name := PyStr.strip name in
  PyStr.join " " (map PyStr.capitalize (PyStr.split " " name)).

(** ** Cells, the rating lexicon and tables *)

Inductive cell : Type :=
| NaN
| Str (s : string)
| Num (q : Q).

(** [a == b]: [nan] equals nothing, itself included. *)
Definition cell_eqb (a b : cell) : bool :=
  match a, b with
  | Str s, Str t => String.eqb s t
  | Num p, Num q => Qeq_bool p q
  | _, _ => false
  end.

(** [a is b or a == b], the test behind [in] on a list and behind the lookup
    of a key in a [dict]; every [nan] is the one object [np.nan]. *)
Definition cell_same (a b : cell) : bool :=
  match a, b with
  | NaN, NaN => true
  | _, _ => cell_eqb a b
  end.

(** [x in l] *)
Definition py_in (x : cell) (l : list cell) : bool := existsb (cell_same x) l.

Definition NA_LIST : list cell :=
  [NaN; Str "NA"; Str "na"; Str "N/A"; Str "n/a"; Str "N/a"; Str "nan"; Str ""].

(** [map_points]: the rating lexicon, a [dict] from raw label to points. *)
Definition lexicon : Type := list (cell * Q).

(** [map_points[k]] *)
Definition lex_get (map_points : lexicon) (k : cell) : result Q :=
  match find (fun e => cell_same k (fst e)) map_points with
  | Some e => Ok (snd e)
  | None => Err KeyError
  end.

(** A [DataFrame]: the column labels and the rows, each as long as the
    header; the index of a row is its position. *)
Record DataFrame : Type := mkDF {
  columns : list string;
  rows : list (list cell)
}.

Fixpoint foldM {A B} (f : B -> A -> result B) (l : list A) (b : B) : result B :=
  match l with
  | [] => Ok b
  | a :: l' => b' ← f b a; foldM f l' b'
  end.

Fixpoint traverse {A B} (f : A -> result B) (l : list A) : result (list B) :=
  match l with
  | [] => Ok []
  | a :: l' => b ← f a; bs ← traverse f l'; Ok (b :: bs)
  end.

Fixpoint col_find (c : string) (cols : list string) : option nat :=
  match cols with
  | [] => None
  | h :: t => if String.eqb c h then Some 0%nat else S <$> col_find c t
  end.

(** The position a column label stands for; [KeyError] when absent. *)
Definition col_pos (c : string) (cols : list string) : result nat :=
  match col_find c cols with
  | Some j => Ok j
  | None => Err KeyError
  end.

Definition at_pos {A} (l : list A) (j : nat) : result A :=
  match l !! j with
  | Some a => Ok a
  | None => Err KeyError
  end.

(** [df.loc[i, c]] *)
Definition loc_get (df : DataFrame) (i : nat) (c : string) : result cell :=
  j ← col_pos c (columns df);
  r ← at_pos (rows df) i;
  at_pos r j.

(** [df.loc[i, c] = v] on a row [i] of the frame. *)
Definition loc_set (df : DataFrame) (i : nat) (c : string) (v : cell)
  : result DataFrame :=
  j ← col_pos c (columns df);
  r ← at_pos (rows df) i;
  Ok (mkDF (columns df) (<[i := <[j := v]> r]> (rows df))).

(** [list(df[c])] *)
Definition col_values (df : DataFrame) (c : string) : result (list cell) :=
  j ← col_pos c (columns df);
  traverse (fun r => at_pos r j) (rows df).

(** [df[cols]]: a new frame with the listed columns. *)
Definition select (df : DataFrame) (cols : list string) : result DataFrame :=
  js ← traverse (fun c => col_pos c (columns df)) cols;
  rs ← traverse (fun r => traverse (at_pos r) js) (rows df);
  Ok (mkDF cols rs).

(** [df[c] = v] for a scalar [v]: the column is overwritten, or appended
    when the label is new. *)
Definition set_col (df : DataFrame) (c : string) (v : cell) : DataFrame :=
  match col_find c (columns df) with
  | Some j => mkDF (columns df) (map (fun r => <[j := v]> r) (rows df))
  | None => mkDF (columns df ++ [c])%list (map (fun r => (r ++ [v])%list) (rows df))
  end.

(** ** [statistics.mean], [statistics.stdev] and [round], exactly *)

Module Stats.

Definition Qsum (l : list Q) : Q := fold_right Qplus 0%Q l.

Definition Qlen (l : list Q) : Q := inject_Z (Z.of_nat (length l)).

(** [mean(data)] *)
Definition mean (data : list Q) : result Q :=
  match data with
  | [] => Err StatisticsError
  | _ :: _ => Ok (Qsum data / Qlen data)%Q
  end.

(** [variance(data)]: the sum of squared deviations from the mean over
    [n - 1]; at least two data points are required. *)
Definition variance (data : list Q) : result Q :=
  if (length data <? 2)%nat then Err StatisticsError
  else
    xbar ← mean data;
    Ok (Qsum (map (fun x => (x - xbar) * (x - xbar)) data)
        / (Qlen data - 1))%Q.

(** A result of the library: a rational, or the non-negative square root
    of a rational. *)
Inductive real : Type :=
| Rat (q : Q)
| Sqrt (v : Q).

(** [stdev(data)] *)
Definition stdev (data : list Q) : result real :=
  v ← variance data; Ok (Sqrt v).

(** The integer nearest to [z], a tie going to the even neighbour. *)
Definition nearest_even (z : Q) : Z :=
  let f := Qfloor z in
  match (z - inject_Z f ?= 1 # 2)%Q with
  | Lt => f
  | Gt => (f + 1)%Z
  | Eq => if Z.even f then f else (f + 1)%Z
  end.

(** The integer nearest to the square root of [x].  (An exact tie would
    need a root with an odd numerator over 200, which no binary float
    holds; it is sent upwards here.) *)
Definition nearest_sqrt (x : Q) : Z :=
  ((Z.sqrt (Qfloor (4 * x)%Q) + 1) / 2)%Z.

(** [round(x, 2)] *)
Definition round2 (x : real) : Q :=
  match x with
  | Rat q => Qred (nearest_even (100 * q)%Q # 100)
  | Sqrt v => Qred (nearest_sqrt (10000 * v)%Q # 100)
  end.

End Stats.

(** The numbers held by a list of cells; arithmetic on a text is a
    [TypeError]. *)
Definition as_number (v : cell) : result Q :=
  match v with
  | Num q => Ok q
  | _ => Err TypeError
  end.

(** The texts held by a list of cells, for [str.join]. *)
Definition as_text (v : cell) : result string :=
  match v with
  | Str s => Ok s
  | _ => Err TypeError
  end.

(** ** Converting and averaging ratings *)

(** One pass of the inner loop body of [convert_ratings]:
    [ratings.loc[i,c] = map_points[ratings.loc[i,c]]]. *)
Definition convert_cell (map_points : lexicon) (ratings : DataFrame)
    (i : nat) (c : string) : result DataFrame :=
  v ← loc_get ratings i c;
  p ← lex_get map_points v;
  loc_set ratings i c (Num p).

(** [convert_ratings]: the copy of the frame, converted cell by cell, row
    after row, and within a row column after column. *)
Definition convert_ratings (map_points : lexicon) (ratings : DataFrame)
  : result DataFrame :=
  foldM (fun df i => foldM (fun df c => convert_cell map_points df i c)
                           (columns ratings) df)
        (seq 0 (length (rows ratings))) ratings.

(** The column sets handed to [average_ratings]: [pe_cols['comments']],
    [pe_cols['rating']] and [pe_cols['all']]. *)
Record PeCols : Type := mkPeCols {
  pe_comments : list string;
  pe_rating : list string;
  pe_all : list string
}.

(** [pd.DataFrame(columns=cols)] followed by [avgs.loc[0, c] = v]: the
    frame gets its first row, missing everywhere but at [c]. *)
Definition first_row (cols : list string) (c : string) (v : cell) : DataFrame :=
  let cols' := if existsb (String.eqb c) cols then cols else (cols ++ [c])%list in
  mkDF cols' [map (fun h => if String.eqb c h then v else NaN) cols'].

(** The comment loop of [average_ratings]. *)
Definition combine_comments (eval_df : DataFrame) (avgs : DataFrame)
    (comment_col : string) : result DataFrame :=
  comments ← col_values eval_df comment_col;
  let comments := filter (fun c => negb (py_in c NA_LIST)) comments in
  texts ← traverse as_text comments;
  Ok (set_col avgs comment_col (Str (PyStr.join " | " texts))).

(** The rating loop of [average_ratings]. *)
Definition average_column (ratings : DataFrame) (avgs : DataFrame)
    (c : string) : result DataFrame :=
  vals ← col_values ratings c;
  data ← traverse as_number vals;
  m ← Stats.mean data;
  let avgs := set_col avgs (c +:+ " (avg)") (Num (Stats.round2 (Stats.Rat m))) in
  n ← loc_get avgs 0 "PE: N";
  if cell_eqb n (Num 1) then Ok (set_col avgs (c +:+ " (std)") NaN)
  else
    s ← Stats.stdev data;
    Ok (set_col avgs (c +:+ " (std)") (Num (Stats.round2 s))).

(** [average_ratings] *)
Definition average_ratings (eval_df : DataFrame) (pe_cols : PeCols)
    (map_points : lexicon) : result DataFrame :=
  let avgs := first_row (pe_all pe_cols) "PE: N"
                (Num (inject_Z (Z.of_nat (length (rows eval_df))))) in
  avgs ← foldM (combine_comments eval_df) (pe_comments pe_cols) avgs;
  sel ← select eval_df (pe_rating pe_cols);
  ratings ← convert_ratings map_points sel;
  foldM (average_column ratings) (pe_rating pe_cols) avgs.

(** [cap_from start s] is the character-level reading of initial capitals:
    a blank is kept and starts a new word, the first letter of a word goes to
    upper case and the others to lower case.  It is the specification against
    which the split/capitalize/join pipeline of [fix_name] is checked. *)
Fixpoint cap_from (start : bool) (s : string) : string :=
  match s with
  | EmptyString => EmptyString
  | String c r =>
      if Ascii.eqb c " " then String " " (cap_from true r)
      else String (if start then PyStr.upper_ascii c else PyStr.lower_ascii c)
                  (cap_from false r)
  end.

(** Two strings of the same length with white space at the same places. *)
Fixpoint same_spaces (s t : string) : Prop :=
  match s, t with
  | EmptyString, EmptyString => True
  | String a s', String b t' =>
      PyStr.is_space a = PyStr.is_space b /\ same_spaces s' t'
  | _, _ => False
  end.

(** A string is stripped when neither end is white space. *)
Definition stripped (t : string) : Prop :=
  PyStr.lstrip t = t /\ PyStr.rstrip t = t.

(** ** Sample data: the scenarios of the design notes *)

Definition demo_lexicon : lexicon :=
  [(Str "Excellent", 5%Q); (Str "Good", 4%Q); (Str "Fair", 3%Q)].

Definition demo_pe_cols : PeCols :=
  mkPeCols ["Comments"] ["Effort"]
           ["PE: N"; "Comments"; "Effort (avg)"; "Effort (std)"].

Definition demo_bucket2 : DataFrame :=
  mkDF ["review_row"; "Peer name"; "Effort"; "Comments"]
       [[Num 0; Str "Jane Doe"; Str "Good"; Str "helpful"];
        [Num 1; Str "Jane Doe"; Str "Excellent"; NaN]].

Definition demo_bucket1 : DataFrame :=
  mkDF ["review_row"; "Peer name"; "Effort"; "Comments"]
       [[Num 0; Str "Jane Doe"; Str "Good"; Str "helpful"]].

(** The frames the program builds are rectangular and label their columns
    without repetition. *)
Definition wf_df (df : DataFrame) : Prop :=
  NoDup (columns df)
  /\ Forall (fun r => length r = length (columns df)) (rows df).

(** [k in map_points] *)
Definition has_entry (map_points : lexicon) (k : cell) : bool :=
  existsb (fun e => cell_same k (fst e)) map_points.

(** The cell-by-cell reading of the conversion, against which the two
    nested loops of [convert_ratings] are checked. *)
Definition convert_value (map_points : lexicon) (v : cell) : result cell :=
  p ← lex_get map_points v; Ok (Num p).

Definition convert_rows (map_points : lexicon) (rs : list (list cell))
  : result (list (list cell)) :=
  traverse (traverse (convert_value map_points)) rs.

Definition demo_ratings : DataFrame :=
  mkDF ["Effort"; "Clarity"]
       [[Str "Good"; Str "Excellent"]; [Str "Fair"; Str "Good"]].

(** As [demo_ratings], with one cell left blank by the respondent. *)
Definition demo_ratings_blank : DataFrame :=
  mkDF ["Effort"; "Clarity"]
       [[Str "Good"; Str "Excellent"]; [NaN; Str "Good"]].

(** The frame [avgs] of [average_ratings]: one row, as long as the header. *)
Definition one_row (df : DataFrame) : Prop :=
  exists r, rows df = [r] /\ length r = length (columns df).

(** ** What rounding to two decimals means *)

(** [r] is a hundredth nearest to [x]. *)
Definition is_round2 (x r : Q) : Prop :=
  exists k : Z, (r == k # 100)%Q /\ (Qabs (r - x) <= 1 # 200)%Q.

(** [r] is a non-negative hundredth nearest to the square root of [v]: the
    root lies within half a hundredth of [r]. *)
Definition is_round2_sqrt (v r : Q) : Prop :=
  exists k : Z,
    (0 <= k)%Z /\ (r == k # 100)%Q
    /\ (v <= (r + (1 # 200)) * (r + (1 # 200)))%Q
    /\ ((r <= 1 # 200)%Q \/ ((r - (1 # 200)) * (r - (1 # 200)) <= v)%Q).

(** The sample variance with Bessel's correction: the squared deviations
    from the arithmetic mean, summed and divided by [n - 1]. *)
Definition bessel_variance (xs : list Q) : Q :=
  let n := Stats.Qlen xs in
  let m := (Stats.Qsum xs / n)%Q in
  (Stats.Qsum (map (fun x => (x - m) * (x - m))%Q xs) / (n - 1))%Q.

(** The conditions under which a bucket reaches [average_ratings]: it is
    not empty, its rating columns are distinct and hold labels of the
    lexicon only, and its comment columns hold texts or blanks. *)
Record bucket_ok (map_points : lexicon) (pe_cols : PeCols)
    (eval_df : DataFrame) : Prop := {
  bucket_rows : rows eval_df <> [];
  bucket_rating_nodup : NoDup (pe_rating pe_cols);
  bucket_rating :
    forall c, c ∈ pe_rating pe_cols ->
      exists vs, col_values eval_df c = Ok vs
                 /\ Forall (fun v => has_entry map_points v = true) vs;
  bucket_comments :
    forall c, c ∈ pe_comments pe_cols ->
      c <> "PE: N"
      /\ exists vs, col_values eval_df c = Ok vs
                    /\ Forall (fun v => py_in v NA_LIST = true
                                        \/ exists s, v = Str s) vs
}.

(** The two cells [average_ratings] writes for a rating column whose
    converted values are [xs]. *)
Definition avg_cell (xs : list Q) : cell :=
  Num (Stats.round2 (Stats.Rat (Stats.Qsum xs / Stats.Qlen xs)%Q)).

Definition std_cell (xs : list Q) : cell :=
  if (length xs =? 1)%nat then NaN
  else Num (Stats.round2 (Stats.Sqrt (bessel_variance xs))).

(** What the reducer owes for a bucket: it returns a row in which, for each
    rating column with converted values [xs], the average is a hundredth
    nearest to the arithmetic mean of [xs], and the deviation is missing for
    one response and otherwise a hundredth nearest to the square root of the
    Bessel-corrected variance of [xs]. *)
Definition reduces_to_mean_std (map_points : lexicon) (pe_cols : PeCols)
    (eval_df : DataFrame) : Prop :=
  exists avgs,
    average_ratings eval_df pe_cols map_points = Ok avgs
    /\ forall c, c ∈ pe_rating pe_cols ->
         exists vs xs,
           col_values eval_df c = Ok vs
           /\ Forall2 (fun v x => lex_get map_points v = Ok x) vs xs
           /\ (exists m, loc_get avgs 0 (c +:+ " (avg)") = Ok (Num m)
                         /\ is_round2 (Stats.Qsum xs / Stats.Qlen xs)%Q m)
           /\ (length (rows eval_df) = 1%nat ->
               loc_get avgs 0 (c +:+ " (std)") = Ok NaN)
           /\ ((2 <= length (rows eval_df))%nat ->
               exists s, loc_get avgs 0 (c +:+ " (std)") = Ok (Num s)
                         /\ is_round2_sqrt (bessel_variance xs) s).

(** As [demo_bucket2], the second respondent having left the rating blank. *)
Definition demo_bucket_blank : DataFrame :=
  mkDF ["review_row"; "Peer name"; "Effort"; "Comments"]
       [[Num 0; Str "Jane Doe"; Str "Good"; Str "helpful"];
        [Num 1; Str "Jane Doe"; NaN; NaN]].

(** ** The same two functions over a store of frames

    In Python a [DataFrame] is an object reached through a reference, and
    [.loc[i, c] = v] and [df[c] = v] change it in place.  Here a store holds
    the frames, a reference is a position in it, and the two functions are
    written once more with every read, allocation and write of the source
    made explicit. *)

Module Heap.

Abbreviation ref := nat.
Abbreviation store := (list DataFrame).
Definition ST (A : Type) : Type := store -> result (A * store).

#[global] Instance ST_ret : MRet ST := fun _ a σ => Ok (a, σ).
#[global] Instance ST_bind : MBind ST := fun _ _ f m σ =>
  match m σ with
  | Ok (a, σ') => f a σ'
  | Err e => Err e
  end.

Definition lift {A} (r : result A) : ST A := fun σ =>
  match r with
  | Ok a => Ok (a, σ)
  | Err e => Err e
  end.

(** A new object. *)
Definition alloc (df : DataFrame) : ST ref := fun σ =>
  Ok (length σ, σ ++ [df]).

Definition read (r : ref) : ST DataFrame := fun σ =>
  match σ !! r with
  | Some df => Ok (df, σ)
  | None => Err KeyError
  end.

Definition write (r : ref) (df : DataFrame) : ST unit := fun σ =>
  if (r <? length σ)%nat then Ok (tt, <[r := df]> σ) else Err KeyError.

Fixpoint for_each {A} (body : A -> ST unit) (l : list A) : ST unit :=
  match l with
  | [] => mret tt
  | a :: l' => _ ← body a; for_each body l'
  end.

(** [df.copy()] *)
Definition copy (r : ref) : ST ref := df ← read r; alloc df.

(** [df[cols]]: a new frame. *)
Definition getitem_cols (r : ref) (cols : list string) : ST ref :=
  df ← read r; sel ← lift (select df cols); alloc sel.

(** [list(df[c])] *)
Definition getitem_col (r : ref) (c : string) : ST (list cell) :=
  df ← read r; lift (col_values df c).

(** [df.loc[i, c]] *)
Definition loc_get_at (r : ref) (i : nat) (c : string) : ST cell :=
  df ← read r; lift (loc_get df i c).

(** [df.loc[i, c] = v], in place. *)
Definition loc_set_at (r : ref) (i : nat) (c : string) (v : cell) : ST unit :=
  df ← read r; df' ← lift (loc_set df i c v); write r df'.

(** [df[c] = v], in place. *)
Definition setitem_col (r : ref) (c : string) (v : cell) : ST unit :=
  df ← read r; write r (set_col df c v).

Definition convert_ratings (map_points : lexicon) (ratings : ref) : ST ref :=
  ratings ← copy ratings;
  df ← read ratings;
  _ ← for_each (fun i =>
         for_each (fun c =>
           v ← loc_get_at ratings i c;
           p ← lift (lex_get map_points v);
           loc_set_at ratings i c (Num p))
         (columns df))
       (seq 0 (length (rows df)));
  mret ratings.

Definition average_ratings (eval_df : ref) (pe_cols : PeCols)
    (map_points : lexicon) : ST ref :=
  df ← read eval_df;
  avgs ← alloc (first_row (pe_all pe_cols) "PE: N"
                  (Num (inject_Z (Z.of_nat (length (rows df))))));
  _ ← for_each (fun comment_col =>
         comments ← getitem_col eval_df comment_col;
         let comments := filter (fun c => negb (py_in c NA_LIST)) comments in
         texts ← lift (traverse as_text comments);
         setitem_col avgs comment_col (Str (PyStr.join " | " texts)))
       (pe_comments pe_cols);
  sel ← getitem_cols eval_df (pe_rating pe_cols);
  ratings ← convert_ratings map_points sel;
  _ ← for_each (fun c =>
         vals ← getitem_col ratings c;
         data ← lift (traverse as_number vals);
         m ← lift (Stats.mean data);
         _ ← setitem_col avgs (c +:+ " (avg)")
               (Num (Stats.round2 (Stats.Rat m)));
         n ← loc_get_at avgs 0 "PE: N";
         if cell_eqb n (Num 1) then setitem_col avgs (c +:+ " (std)") NaN
         else
           s ← lift (Stats.stdev data);
           setitem_col avgs (c +:+ " (std)") (Num (Stats.round2 s)))
       (pe_rating pe_cols);
  mret avgs.

(** The frame a call hands back: the object behind the returned
    reference. *)
Definition returned (res : result (ref * store)) : result DataFrame :=
  match res with
  | Ok (out, σ) =>
      match σ !! out with
      | Some df => Ok df
      | None => Err KeyError
      end
  | Err e => Err e
  end.

End Heap.

(** The temporary objects a successful call of [Heap.average_ratings]
    leaves in the store: the selection of the rating columns and its
    converted copy. *)
Definition temporaries (df : DataFrame) (pe_cols : PeCols)
    (map_points : lexicon) : list DataFrame :=
  match select df (pe_rating pe_cols) with
  | Ok sel =>
      match convert_ratings map_points sel with
      | Ok ratings => [sel; ratings]
      | Err _ => []
      end
  | Err _ => []
  end.

(** ** The survey schema map *)

(** One row of [survey_map]: the respondent role, the category, the label
    after processing and the column of the response sheet.  A missing label
    reads ["nan"], as [str(col)] does in the source. *)
Record SchemaEntry : Type := mkEntry {
  student : string;
  category : string;
  newhead : string;
  survey_column : string
}.

(** The argument [map_col] of [find_columns]. *)
Inductive MapCol : Type :=
| newhead_col
| survey_col.

Definition map_value (map_col : MapCol) (e : SchemaEntry) : string :=
  match map_col with
  | newhead_col => newhead e
  | survey_col => survey_column e
  end.

(** [add_prefix_suffix] *)
Definition add_prefix_suffix (col_list : list string) (add_str p_or_s : string)
  : list string :=
  if String.eqb p_or_s "p" then
    map (fun col => add_str +:+ ": " +:+ col) col_list
  else if String.eqb p_or_s "s" then
    map (fun col => col +:+ " (" +:+ add_str +:+ ")") col_list
  else col_list.

(** [find_columns]; an absent [prefix] or [suffix] is [None].
    [Series.str.contains] searches for a regular expression.  For a pattern
    without operator of regular expressions ([regex_free]), as are all the
    constant patterns of the program, that is the search for the pattern as
    a piece of the text, which [PyStr.contains] is; a role of the schema
    passed as pattern has to be [regex_free] for this reading. *)
Definition find_columns (survey_map : list SchemaEntry)
    (student_pat category_pat : string) (map_col : MapCol)
    (prefix suffix : option string) : list string :=
  let hits :=
    if negb (String.eqb category_pat "any") then
      List.filter (fun e => PyStr.contains student_pat (student e)
                            && PyStr.contains category_pat (category e))
                  survey_map
    else
      List.filter (fun e => PyStr.contains student_pat (student e)) survey_map in
  let cols := map (map_value map_col) hits in
  let cols := List.filter (fun col => negb (String.eqb col "nan")) cols in
  match prefix, suffix with
  | Some p, _ => add_prefix_suffix cols p "p"
  | None, Some s => add_prefix_suffix cols s "s"
  | None, None => cols
  end.

(** [sorted(set(l))] on texts. *)
Fixpoint insert_sorted (s : string) (l : list string) : list string :=
  match l with
  | [] => [s]
  | h :: t =>
      match String.compare s h with
      | Lt => s :: l
      | Eq => l
      | Gt => h :: insert_sorted s t
      end
  end.

(** [unique_peers] *)
Definition unique_peers (survey_map : list SchemaEntry) : list string :=
  fold_right insert_sorted []
    (map student
       (List.filter (fun e => PyStr.contains "peer" (student e)) survey_map)).

(** [first_peer] *)
Definition first_peer (survey_map : list SchemaEntry) : result string :=
  index (unique_peers survey_map) 0.

(** [gen_pe_rating_columns] *)
Definition gen_pe_rating_columns (rating_cols : list string) : list string :=
  flat_map (fun col => [col +:+ " (avg)"; col +:+ " (std)"]) rating_cols.

(** ** The discrepancy calculator *)

(** [a - b] on two cells: a missing operand gives a missing result, a text
    is a [TypeError]. *)
Definition cell_sub (a b : cell) : result cell :=
  match a, b with
  | Num p, Num q => Ok (Num (p - q))
  | NaN, NaN | NaN, Num _ | Num _, NaN => Ok NaN
  | _, _ => Err TypeError
  end.

(** [xs - ys] on two columns of one frame. *)
Definition series_sub (xs ys : list cell) : result (list cell) :=
  traverse (fun xy => cell_sub (fst xy) (snd xy)) (zip xs ys).

(** [df[c] = vs] for a column [vs] of the frame's height: the column is
    overwritten, or appended when the label is new. *)
Definition setitem_series (df : DataFrame) (c : string) (vs : list cell)
  : DataFrame :=
  match col_find c (columns df) with
  | Some j => mkDF (columns df) (zip_with (fun r v => <[j := v]> r) (rows df) vs)
  | None => mkDF (columns df ++ [c]) (zip_with (fun r v => r ++ [v]) (rows df) vs)
  end.

(** The body of the loop of [calc_differences]. *)
Definition diff_step (grade_book : DataFrame) (col : string) : result DataFrame :=
  let diff_col_name := "SE-PE: " +:+ col in
  se ← col_values grade_book ("SE: " +:+ col);
  pe ← col_values grade_book (col +:+ " (avg)");
  d ← series_sub se pe;
  Ok (setitem_series grade_book diff_col_name d).

(** [order] lists [set(se_cols).intersection(pe_cols)] in the order in which
    the set happens to be iterated, which Python leaves open. *)
Definition is_match_cols (survey_map : list SchemaEntry) (order : list string)
  : Prop :=
  NoDup order
  /\ exists firstpeer,
       first_peer survey_map = Ok firstpeer
       /\ forall c, c ∈ order <->
            c ∈ find_columns survey_map "self" "rating" newhead_col None None
            /\ c ∈ find_columns survey_map firstpeer "rating" newhead_col
                   None None.

(** [calc_differences], iterating over the matching columns in [order]. *)
Definition calc_differences (order : list string) (grade_book : DataFrame)
    (survey_map : list SchemaEntry) : result DataFrame :=
  _ ← first_peer survey_map;
  foldM diff_step order grade_book.

(** The difference the design notes ask for: self minus peer average, and
    missing as soon as one operand is missing. *)
Definition is_difference (s p x : cell) : Prop :=
  match s, p with
  | Num a, Num b => x = Num (a - b)
  | _, _ => x = NaN
  end.

Definition number_or_missing (v : cell) : Prop :=
  match v with
  | Str _ => False
  | _ => True
  end.

(** A roster ready for [calc_differences]: rectangular, holding for every
    matching category a self column and a peer-average column of numbers or
    missing markers, and with no difference label falling on a
    peer-average label. *)
Record roster_ok (order : list string) (grade_book : DataFrame) : Prop := {
  roster_rect :
    Forall (fun r => length r = length (columns grade_book)) (rows grade_book);
  roster_labels :
    forall a b, a ∈ order -> b ∈ order ->
      "SE-PE: " +:+ a <> b +:+ " (avg)";
  roster_columns :
    forall c, c ∈ order ->
      exists se pe,
        col_values grade_book ("SE: " +:+ c) = Ok se
        /\ col_values grade_book (c +:+ " (avg)") = Ok pe
        /\ Forall number_or_missing se /\ Forall number_or_missing pe
}.

Definition demo_schema : list SchemaEntry :=
  [mkEntry "general" "time" "Timestamp" "Timestamp";
   mkEntry "self" "email" "Email" "Your university email";
   mkEntry "self" "name" "Name" "Your name";
   mkEntry "self" "section" "Section" "Your section";
   mkEntry "self" "team" "Team" "Your team";
   mkEntry "self" "rating" "Effort" "Rate your own effort";
   mkEntry "peer1" "name" "Peer name" "Name of teammate 1";
   mkEntry "peer1" "rating" "Effort" "Rate the effort of teammate 1";
   mkEntry "peer1" "comments" "Comments" "Comments on teammate 1";
   mkEntry "peer2" "name" "Peer name" "Name of teammate 2";
   mkEntry "peer2" "rating" "Effort" "Rate the effort of teammate 2";
   mkEntry "peer2" "comments" "Comments" "Comments on teammate 2"].

Definition demo_roster_scored : DataFrame :=
  mkDF ["Name"; "SIS Login ID"; "SE: Effort"; "Effort (avg)"]
       [[Str "Jane Doe"; Str "jdoe"; Num 5; Num (9 # 2)];
        [Str "Ravi Patel"; Str "rpatel"; Num 4; NaN];
        [Str "Ana Lima"; Str "alima"; NaN; Num 3]].

(** What the calculator owes: a roster in which every category of the
    intersection has its difference column. *)
Definition differences_written (order : list string) (grade_book : DataFrame)
    (survey_map : list SchemaEntry) : Prop :=
  exists gb',
    calc_differences order grade_book survey_map = Ok gb'
    /\ forall firstpeer c,
         first_peer survey_map = Ok firstpeer ->
         c ∈ find_columns survey_map "self" "rating" newhead_col None None ->
         c ∈ find_columns survey_map firstpeer "rating" newhead_col None None ->
         exists se pe d,
           col_values grade_book ("SE: " +:+ c) = Ok se
           /\ col_values grade_book (c +:+ " (avg)") = Ok pe
           /\ col_values gb' ("SE-PE: " +:+ c) = Ok d
           /\ Forall3 is_difference se pe d.

(** ** The operator's console *)

(** [input] and [print] work on a console: the lines the operator is going
    to type, and the prompts and messages written so far. *)
Record console : Type := mkConsole {
  pending : list string;
  shown : list string
}.

(** How a call that may prompt ends: it returns, it raises, or it waits at
    a prompt that no typed line answers. *)
Inductive outcome (A : Type) : Type :=
| Returned (a : A) (k : console)
| Raised (e : pyerr) (k : console)
| Blocked (k : console).
Arguments Returned {A} a k.
Arguments Raised {A} e k.
Arguments Blocked {A} k.

Definition IO (A : Type) : Type := console -> outcome A.

#[export] Instance IO_ret : MRet IO := fun _ a k => Returned a k.
#[export] Instance IO_bind : MBind IO := fun _ _ f m k =>
  match m k with
  | Returned a k' => f a k'
  | Raised e k' => Raised e k'
  | Blocked k' => Blocked k'
  end.

(** A step that does not touch the console. *)
Definition io_of {A} (r : result A) : IO A := fun k =>
  match r with
  | Ok a => Returned a k
  | Err e => Raised e k
  end.

(** [for a in l: b = body(b, a)] with prompts allowed in the body. *)
Fixpoint for_io {A B} (body : B -> A -> IO B) (l : list A) (b : B) : IO B :=
  match l with
  | [] => mret b
  | a :: l' => b' ← body b a; for_io body l' b'
  end.

(** The character [chr(34)] and the line break, as texts. *)
Definition dquote : string := String (ascii_of_nat 34) EmptyString.
Definition newline : string := String (ascii_of_nat 10) EmptyString.

(** ** [find_student] *)

Definition input_str_start : string := "Who is this student? ".
Definition input_str_end : string :=
  newline +:+ "Enter their name as listed in Canvas (First Last). "
  +:+ "To skip this student or ignore this result,"
  +:+ " enter " +:+ dquote +:+ "NA" +:+ dquote +:+ ". > ".
Definition error_str : string := "Student not found in gradebook: ".

(** What [find_student] receives as [eval_row]: the peer path passes one
    row of the response sheet ([survey_results.loc[label]], a Series); the
    self path passes the rows selected by a boolean mask
    ([survey_results.loc[mask]], a DataFrame). *)
Inductive EvalRow : Type :=
| RowOf (labels : list string) (values : list cell)
| FrameOf (df : DataFrame).

(** What [eval_row[label]] is: a cell of the row, or a column of the
    frame. *)
Inductive pyobj : Type :=
| Scalar (v : cell)
| Column (vs : list cell).

(** [eval_row[label]] *)
Definition getitem (eval_row : EvalRow) (label : string) : result pyobj :=
  match eval_row with
  | RowOf labels values =>
      j ← col_pos label labels; v ← at_pos values j; Ok (Scalar v)
  | FrameOf df => vs ← col_values df label; Ok (Column vs)
  end.

(** [x in NA_LIST]: the list is searched with [==], whose result on a
    column is a column of truth values, and the truth value of a column is
    a [ValueError]. *)
Definition obj_in_NA_LIST (x : pyobj) : result bool :=
  match x with
  | Scalar v => Ok (py_in v NA_LIST)
  | Column _ => Err ValueError
  end.

(** [split_email(x)]: only a text has [.split]. *)
Definition obj_split_email (x : pyobj) : result string :=
  match x with
  | Scalar (Str s) => split_email s
  | _ => Err AttributeError
  end.

(** The operand [x] of [text + x] and the items of [', '.join(...)]: a cell
    that is not a text is a [TypeError].  A column is given the same answer
    here; the program never gets that far with one, see
    [find_student_on_frame]. *)
Definition obj_text (x : pyobj) : result string :=
  match x with
  | Scalar (Str s) => Ok s
  | _ => Err TypeError
  end.

(** [eval_row[find_columns(survey_map, who, category=cat,
    map_col='survey_column')[0]]] *)
Definition identifying (survey_map : list SchemaEntry) (eval_row : EvalRow)
    (who cat : string) : result pyobj :=
  label ← index (find_columns survey_map who cat survey_col None None) 0;
  getitem eval_row label.

(** [(name in list(grade_book['Name'])) or (name in NA_LIST)] *)
Definition accepted (grade_book : DataFrame) (name : string) : result bool :=
  names ← col_values grade_book "Name";
  Ok (py_in (Str name) names || py_in (Str name) NA_LIST).

(** The [while True] loop: prompt, read a line, leave the loop when the
    line is accepted, else print the complaint and prompt again. *)
Fixpoint ask (prompt : string) (accept : string -> result bool)
    (answers : list string) (out : list string) : outcome string :=
  match answers with
  | [] => Blocked (mkConsole [] (out ++ [prompt]))
  | name :: rest =>
      match accept name with
      | Err e => Raised e (mkConsole rest (out ++ [prompt]))
      | Ok true => Returned name (mkConsole rest (out ++ [prompt]))
      | Ok false => ask prompt accept rest (out ++ [prompt; error_str +:+ name])
      end
  end.

(** The loop on the console as it stands. *)
Definition ask_until (prompt : string) (accept : string -> result bool)
  : IO string :=
  fun k => ask prompt accept (pending k) (shown k).

(** The loop over [unique_peers(survey_map)] that collects [peer_names]. *)
Definition collect_peer_names (survey_map : list SchemaEntry)
    (eval_row : EvalRow) : result (list pyobj) :=
  foldM (fun (peer_names : list pyobj) peer =>
           peer_name ← identifying survey_map eval_row peer "name";
           na ← obj_in_NA_LIST peer_name;
           Ok (if (na : bool) then peer_names else peer_names ++ [peer_name]))
        (unique_peers survey_map) [].

(** The prompt of the self-evaluation loop. *)
Definition self_prompt (r_email r_name r_section r_team : pyobj)
  : result string :=
  reviewer_id ← obj_split_email r_email;
  name ← obj_text r_name;
  section ← obj_text r_section;
  team ← obj_text r_team;
  Ok (input_str_start
      +:+ dquote +:+ reviewer_id +:+ dquote +:+ ", " +:+ dquote +:+ name
      +:+ dquote +:+ " in Section " +:+ section
      +:+ ", Team " +:+ team
      +:+ input_str_end).

(** The prompt of the peer-evaluation loop. *)
Definition peer_prompt (student : string) (r_name r_section r_team : pyobj)
    (peer_names : list pyobj) : result string :=
  section ← obj_text r_section;
  team ← obj_text r_team;
  name ← obj_text r_name;
  others ← traverse obj_text peer_names;
  Ok (input_str_start
      +:+ dquote +:+ student +:+ dquote
      +:+ dquote +:+ " in Section " +:+ section
      +:+ ", Team " +:+ team
      +:+ newline +:+ "Other team members evaluated by this person: "
      +:+ name +:+ ", " +:+ PyStr.join ", " others
      +:+ input_str_end).

(** [find_student] *)
Definition find_student (grade_book : DataFrame)
    (survey_map : list SchemaEntry) (eval_row : EvalRow) (student : string)
  : IO string :=
  r_section ← io_of (identifying survey_map eval_row "self" "section");
  r_team ← io_of (identifying survey_map eval_row "self" "team");
  r_email ← io_of (identifying survey_map eval_row "self" "email");
  r_name ← io_of (identifying survey_map eval_row "self" "name");
  peer_names ← io_of (collect_peer_names survey_map eval_row);
  if String.eqb student "self" then
    prompt ← io_of (self_prompt r_email r_name r_section r_team);
    ask_until prompt (accepted grade_book)
  else
    prompt ← io_of (peer_prompt student r_name r_section r_team peer_names);
    ask_until prompt (accepted grade_book).

(** ** Frame operations of the two processing functions *)

Definition GB_SID : string := "SIS Login ID".

(** [add_empty_cols] *)
Definition add_empty_cols (dataframe : DataFrame) (cols : list string)
  : DataFrame :=
  fold_left (fun df col => set_col df col (Str "")) cols dataframe.

(** [df.columns = labels] *)
Definition rename_columns (df : DataFrame) (labels : list string)
  : result DataFrame :=
  if Nat.eqb (length labels) (length (columns df))
  then Ok (mkDF labels (rows df))
  else Err ValueError.

(** [series == v], cell by cell. *)
Definition eq_mask (vs : list cell) (v : cell) : list bool :=
  map (fun x => cell_eqb x v) vs.

(** [df.loc[mask]]: the rows at which the mask holds. *)
Definition rows_where (df : DataFrame) (mask : list bool) : list (list cell) :=
  map fst (List.filter snd (zip (rows df) mask)).

(** One row receives the values [v] at the positions [js]. *)
Definition set_at (js : list nat) (v : list cell) (r : list cell) : list cell :=
  fold_left (fun r jx => <[fst jx := snd jx]> r) (zip js v) r.

(** The masked rows receive the value rows in turn. *)
Fixpoint write_rows (js : list nat) (rs : list (list cell)) (mask : list bool)
    (values : list (list cell)) : list (list cell) :=
  match rs, mask with
  | r :: rs', true :: mask' =>
      match values with
      | v :: vs => set_at js v r :: write_rows js rs' mask' vs
      | [] => r :: rs'
      end
  | r :: rs', false :: mask' => r :: write_rows js rs' mask' values
  | _, _ => rs
  end.

(** [df.loc[mask, cols] = values] for a two-dimensional array of values:
    as many value rows as masked rows, or one value row for all of them;
    any other shape is a [ValueError]. *)
Definition loc_set_mask (df : DataFrame) (mask : list bool)
    (cols : list string) (values : list (list cell)) : result DataFrame :=
  js ← traverse (fun c => col_pos c (columns df)) cols;
  let n := length (List.filter id mask) in
  if negb (forallb (fun v => Nat.eqb (length v) (length cols)) values)
  then Err ValueError
  else if Nat.eqb (length values) n
  then Ok (mkDF (columns df) (write_rows js (rows df) mask values))
  else match values with
       | [v] => Ok (mkDF (columns df)
                         (write_rows js (rows df) mask (replicate n v)))
       | _ => Err ValueError
       end.

(** [df.loc[:, cols] = src] for a frame [src] that has the columns
    [cols] and the height of [df]. *)
Definition loc_set_cols (df : DataFrame) (cols : list string)
    (src : DataFrame) : result DataFrame :=
  foldM (fun d c =>
           vs ← col_values src c;
           j ← col_pos c (columns d);
           Ok (mkDF (columns d) (zip_with (fun r v => <[j := v]> r) (rows d) vs)))
        cols df.

(** [df.loc[:, cols] = df[cols].replace('', np.nan)] *)
Definition replace_blank (df : DataFrame) (cols : list string)
  : result DataFrame :=
  sel ← select df cols;
  let cleared :=
    mkDF (columns sel)
         (map (map (fun v => if cell_eqb v (Str "") then NaN else v))
              (rows sel)) in
  loc_set_cols df cols cleared.

(** ** [process_self_evals] *)

(** [fix_name(name)] on a cell: only a text has [.strip]. *)
Definition cell_fix_name (name : cell) : result string :=
  match name with
  | Str s => Ok (fix_name s)
  | _ => Err AttributeError
  end.

(** [grade_book.loc[grade_book[key_col] == key, evals_self.columns] =
    evals_self.loc[evals_self[col_email] == email].values], the statement
    the loop uses once with the login id and once with the name. *)
Definition merge_self (grade_book evals_self : DataFrame)
    (col_email : string) (email : cell) (key_col : string) (key : cell)
  : result DataFrame :=
  keys ← col_values grade_book key_col;
  emails ← col_values evals_self col_email;
  loc_set_mask grade_book (eq_mask keys key) (columns evals_self)
               (rows_where evals_self (eq_mask emails email)).

(** [survey_results.loc[survey_results[find_columns(survey_map, 'self',
    'email', map_col='survey_column')[0]] == email].copy()] *)
Definition self_eval_row (survey_results : DataFrame)
    (survey_map : list SchemaEntry) (email : cell) : result EvalRow :=
  label ← index (find_columns survey_map "self" "email" survey_col None None) 0;
  vs ← col_values survey_results label;
  Ok (FrameOf (mkDF (columns survey_results)
                    (rows_where survey_results (eq_mask vs email)))).

(** The name the [else] branch settles on: the response's ['SE: Name'],
    normalised, and the operator's answer when the normalised name is not a
    roster name. *)
Definition self_name (grade_book survey_results : DataFrame)
    (survey_map : list SchemaEntry) (evals_self : DataFrame)
    (col_email : string) (email : cell) : IO string :=
  emails ← io_of (col_values evals_self col_email);
  se_names ← io_of (col_values evals_self "SE: Name");
  student_name ← io_of (unpack1 (map fst (List.filter snd
                                   (zip se_names (eq_mask emails email)))));
  student_name ← io_of (cell_fix_name student_name);
  names ← io_of (col_values grade_book "Name");
  if negb (py_in (Str student_name) names) then
    eval_row ← io_of (self_eval_row survey_results survey_map email);
    find_student grade_book survey_map eval_row "self"
  else mret student_name.

(** The body of the loop over [list_emails]. *)
Definition self_step (survey_results : DataFrame)
    (survey_map : list SchemaEntry) (evals_self : DataFrame)
    (col_email : string) (grade_book : DataFrame) (email : cell)
  : IO DataFrame :=
  student_id ← io_of (obj_split_email (Scalar email));
  sids ← io_of (col_values grade_book GB_SID);
  if py_in (Str student_id) sids then
    io_of (merge_self grade_book evals_self col_email email
                      GB_SID (Str student_id))
  else
    student_name ← self_name grade_book survey_results survey_map evals_self
                             col_email email;
    if negb (py_in (Str student_name) NA_LIST) then
      io_of (merge_self grade_book evals_self col_email email
                        "Name" (Str student_name))
    else mret grade_book.

(** What the function has in hand when the loop starts. *)
Record SelfSetup : Type := mkSelfSetup {
  ss_grade_book : DataFrame;
  ss_evals_self : DataFrame;
  ss_rating_cols : list string;
  ss_col_email : string;
  ss_list_emails : list cell
}.

(** The statements of [process_self_evals] before the loop. *)
Definition self_setup (grade_book survey_results : DataFrame)
    (survey_map : list SchemaEntry) (map_points : lexicon)
  : result SelfSetup :=
  let cols_self :=
    find_columns survey_map "self" "any" survey_col None None
    ++ find_columns survey_map "general" "any" survey_col None None in
  evals_self ← select survey_results cols_self;
  evals_self ← rename_columns evals_self
    (find_columns survey_map "self" "any" newhead_col (Some "SE") None
     ++ find_columns survey_map "general" "any" newhead_col None None);
  let grade_book := add_empty_cols grade_book (columns evals_self) in
  let rating_cols :=
    find_columns survey_map "self" "rating" newhead_col (Some "SE") None in
  sel ← select evals_self rating_cols;
  converted ← convert_ratings map_points sel;
  evals_self ← loc_set_cols evals_self rating_cols converted;
  col_email ← unpack1
    (find_columns survey_map "self" "email" newhead_col (Some "SE") None);
  list_emails ← col_values evals_self col_email;
  Ok (mkSelfSetup grade_book evals_self rating_cols col_email list_emails).

(** [process_self_evals] *)
Definition process_self_evals (grade_book survey_results : DataFrame)
    (survey_map : list SchemaEntry) (map_points : lexicon) : IO DataFrame :=
  s ← io_of (self_setup grade_book survey_results survey_map map_points);
  grade_book ← for_io (self_step survey_results survey_map (ss_evals_self s)
                                 (ss_col_email s))
                      (ss_list_emails s) (ss_grade_book s);
  let check_cols :=
    ss_rating_cols s
    ++ find_columns survey_map "self" "score" newhead_col (Some "SE") None in
  io_of (replace_blank grade_book check_cols).

(** ** [process_peer_evals] *)

(** [evals_peer_compiled]: a [dict] from roster name to the frame of the
    evaluations received, in insertion order. *)
Definition buckets : Type := list (cell * DataFrame).

(** [d[k]] *)
Definition dict_get (d : buckets) (k : cell) : result DataFrame :=
  match find (fun e => cell_same k (fst e)) d with
  | Some e => Ok (snd e)
  | None => Err KeyError
  end.

(** [d[k] = v]: an existing key keeps its place, a new one goes last. *)
Fixpoint dict_set (d : buckets) (k : cell) (v : DataFrame) : buckets :=
  match d with
  | [] => [(k, v)]
  | e :: d' =>
      if cell_same k (fst e) then (fst e, v) :: d'
      else e :: dict_set d' k v
  end.

(** The body of the loop over [all_peers]: the columns of one peer slot,
    with the index of the response in front, go under [evals_peer]. *)
Definition stack_peer (survey_results : DataFrame)
    (survey_map : list SchemaEntry) (evals_peer : DataFrame) (peer : string)
  : result DataFrame :=
  let cols :=
    map survey_column
        (List.filter (fun e => String.eqb (student e) peer) survey_map) in
  peer_evals ← select survey_results cols;
  let stacked :=
    imap (fun i r => Num (inject_Z (Z.of_nat i)) :: r) (rows peer_evals) in
  if Nat.eqb (S (length cols)) (length (columns evals_peer))
  then Ok (mkDF (columns evals_peer) (rows evals_peer ++ stacked))
  else Err ValueError.

(** [survey_results.loc[label].copy()] for the label held by a
    ['review_row'] cell. *)
Definition peer_eval_row (survey_results : DataFrame) (label : cell)
  : result EvalRow :=
  match label with
  | Num q =>
      if (Qden q =? 1)%positive && (0 <=? Qnum q)%Z then
        r ← at_pos (rows survey_results) (Z.to_nat (Qnum q));
        Ok (RowOf (columns survey_results) r)
      else Err KeyError
  | _ => Err KeyError
  end.

(** The name the loop files an evaluation under: the cell as it is when it
    is a roster name, else the normalised text when that is one, else the
    operator's answer. *)
Definition peer_name_of (grade_book survey_results : DataFrame)
    (survey_map : list SchemaEntry) (evals_peer : DataFrame)
    (peer_eval : nat) (name : cell) : IO cell :=
  names ← io_of (col_values grade_book "Name");
  if negb (py_in name names) then
    fixed ← io_of (cell_fix_name name);
    if negb (py_in (Str fixed) names) then
      eval_row ← io_of (label ← loc_get evals_peer peer_eval "review_row";
                        peer_eval_row survey_results label);
      answer ← find_student grade_book survey_map eval_row fixed;
      mret (Str answer)
    else mret (Str fixed)
  else mret name.

(** The body of the loop over [evals_peer.index]. *)
Definition peer_step (grade_book survey_results : DataFrame)
    (survey_map : list SchemaEntry) (evals_peer : DataFrame)
    (col_peername : string) (evals_peer_compiled : buckets) (peer_eval : nat)
  : IO buckets :=
  name ← io_of (loc_get evals_peer peer_eval col_peername);
  if py_in name NA_LIST then mret evals_peer_compiled
  else
    name ← peer_name_of grade_book survey_results survey_map evals_peer
                        peer_eval name;
    if cell_eqb name (Str "NA") then mret evals_peer_compiled
    else
      io_of (bucket ← dict_get evals_peer_compiled name;
             row ← at_pos (rows evals_peer) peer_eval;
             Ok (dict_set evals_peer_compiled name
                          (mkDF (columns bucket) (rows bucket ++ [row])))).

(** The body of the loop over the compiled evaluations. *)
Definition write_averages (pe_cols : PeCols) (map_points : lexicon)
    (grade_book : DataFrame) (entry : cell * DataFrame) : result DataFrame :=
  let eval_df := snd entry in
  match rows eval_df with
  | [] => Ok grade_book
  | _ :: _ =>
      avgs ← average_ratings eval_df pe_cols map_points;
      names ← col_values grade_book "Name";
      loc_set_mask grade_book (eq_mask names (fst entry)) (pe_all pe_cols)
                   (rows avgs)
  end.

(** [pe_cols] as the function builds it: general, comments and the
    average and deviation labels make up [pe_cols['all']]. *)
Definition peer_columns (survey_map : list SchemaEntry) : result PeCols :=
  firstpeer ← first_peer survey_map;
  let comments := find_columns survey_map firstpeer "comments" newhead_col
                               None None in
  let rating := find_columns survey_map firstpeer "rating" newhead_col
                             None None in
  Ok (mkPeCols comments rating
               (["PE: N"] ++ comments ++ gen_pe_rating_columns rating)).

(** What the function has in hand when the loop over the evaluations
    starts. *)
Record PeerSetup : Type := mkPeerSetup {
  ps_grade_book : DataFrame;
  ps_evals_peer : DataFrame;
  ps_pe_cols : PeCols;
  ps_compiled : buckets;
  ps_col_peername : string
}.

(** The statements of [process_peer_evals] before that loop.  [all_peers]
    is [list(set(...))] of the peer slots of the schema, in the order in
    which the set happens to be iterated. *)
Definition peer_setup (all_peers : list string)
    (grade_book survey_results : DataFrame) (survey_map : list SchemaEntry)
  : result PeerSetup :=
  firstpeer ← first_peer survey_map;
  let newcols_peers :=
    map newhead
        (List.filter (fun e => String.eqb (student e) firstpeer) survey_map) in
  evals_peer ← foldM (stack_peer survey_results survey_map) all_peers
                     (mkDF ("review_row" :: newcols_peers) []);
  pe_cols ← peer_columns survey_map;
  let grade_book := add_empty_cols grade_book (pe_all pe_cols) in
  names ← col_values grade_book "Name";
  let evals_peer_compiled :=
    fold_left (fun d student => dict_set d student
                                  (mkDF (columns evals_peer) []))
              names [] in
  firstpeer ← first_peer survey_map;
  col_peername ← unpack1
    (find_columns survey_map firstpeer "name" newhead_col None None);
  Ok (mkPeerSetup grade_book evals_peer pe_cols evals_peer_compiled
                  col_peername).

(** [process_peer_evals] *)
Definition process_peer_evals (all_peers : list string)
    (grade_book survey_results : DataFrame) (survey_map : list SchemaEntry)
    (map_points : lexicon) : IO DataFrame :=
  s ← io_of (peer_setup all_peers grade_book survey_results survey_map);
  compiled ← for_io (peer_step (ps_grade_book s) survey_results survey_map
                               (ps_evals_peer s) (ps_col_peername s))
                    (seq 0 (length (rows (ps_evals_peer s))))
                    (ps_compiled s);
  grade_book ← io_of (foldM (write_averages (ps_pe_cols s) map_points)
                            compiled (ps_grade_book s));
  io_of (replace_blank grade_book (pe_all (ps_pe_cols s))).

(** ** Preparing the inputs *)

(** [s.split(sep)] for a separator of any length: the leftmost matches,
    none overlapping.  [skip] counts the characters of a separator already
    matched that are still to be passed over. *)
Fixpoint split_on (sep : string) (skip : nat) (s : string) : list string :=
  match s with
  | EmptyString => [EmptyString]
  | String c s' =>
      match skip with
      | S k => split_on sep k s'
      | O =>
          if PyStr.is_prefix sep s
          then EmptyString :: split_on sep (String.length sep - 1) s'
          else match split_on sep 0 s' with
               | p :: ps => String c p :: ps
               | [] => [String c EmptyString]
               end
      end
  end.

Definition GB_KEEP_COLS : list string :=
  ["Student"; "ID"; "SIS User ID"; "SIS Login ID"; "Root Account"; "Section"].

(** [grade_book.iloc[1:-1]]: all rows but the first and the last. *)
Definition iloc_inner (rs : list (list cell)) : list (list cell) :=
  removelast (tail rs).

(** One pass of the loop that builds [namelist]: ["Last, First"] becomes
    ["First Last"]. *)
Definition unformatted_name (name : cell) : result cell :=
  match name with
  | Str s =>
      let name_split := split_on ", " 0 s in
      first ← index name_split 1;
      last ← index name_split 0;
      Ok (Str (PyStr.join " " [first; last]))
  | _ => Err AttributeError
  end.

(** [prep_gradebook] *)
Definition prep_gradebook (grade_book : DataFrame) : result DataFrame :=
  grade_book ← select (mkDF (columns grade_book)
                            (iloc_inner (rows grade_book))) GB_KEEP_COLS;
  students ← col_values grade_book "Student";
  namelist ← traverse unformatted_name students;
  Ok (setitem_series grade_book "Name" namelist).

(** [prep_map]: the column labels of the response sheet become the
    ['survey_column'] of the schema rows, one for one. *)
Definition prep_map (survey_results : DataFrame)
    (survey_map : list SchemaEntry) : result (list SchemaEntry) :=
  if Nat.eqb (length (columns survey_results)) (length survey_map)
  then Ok (zip_with (fun e c => mkEntry (student e) (category e) (newhead e) c)
                    survey_map (columns survey_results))
  else Err ValueError.

(** ** Notions used to state what the processing functions do *)

(** A computation that leaves the console alone: it returns or raises
    with the console as it found it, and never waits at a prompt. *)
Definition quiet {A} (m : IO A) : Prop :=
  forall k, (exists a, m k = Returned a k) \/ (exists e, m k = Raised e k).

(** The keys of a [dict], in order. *)
Definition keys (d : buckets) : list cell := map fst d.

(** The lines written between two states of the console when the
    operator's lines [rejected] were turned down before one was taken. *)
Definition dialogue (prompt : string) (rejected : list string) : list string :=
  flat_map (fun a => [prompt; error_str +:+ a]) rejected ++ [prompt].

(** A response sheet for [demo_schema]: Jane reports on one teammate under
    a name the roster does not have, Ravi on two. *)
Definition demo_responses : DataFrame :=
  mkDF ["Timestamp"; "Your university email"; "Your name"; "Your section";
        "Your team"; "Rate your own effort"; "Name of teammate 1";
        "Rate the effort of teammate 1"; "Comments on teammate 1";
        "Name of teammate 2"; "Rate the effort of teammate 2";
        "Comments on teammate 2"]
       [[Str "t1"; Str "jdoe@uni.edu"; Str "jane doe"; Str "A"; Str "T1";
         Str "Good"; Str "Robbie Patel"; Str "Good"; Str "fine"; NaN; NaN; NaN];
        [Str "t2"; Str "ravi@uni.edu"; Str "Ravi Patel"; Str "A"; Str "T1";
         Str "Good"; Str "Jane Doe"; Str "Fair"; Str "late"; Str "jane doe";
         Str "Good"; NaN]].

Definition demo_roster : DataFrame :=
  mkDF ["Name"; "SIS Login ID"]
       [[Str "Jane Doe"; Str "jdoe"]; [Str "Ravi Patel"; Str "rpatel"]].

(** A Canvas export: the header rows and the test student around two
    students. *)
Definition demo_canvas : DataFrame :=
  mkDF ["Student"; "ID"; "SIS User ID"; "SIS Login ID"; "Root Account";
        "Section"; "Quiz 1"]
       [[Str "    Points Possible"; NaN; NaN; NaN; NaN; NaN; Num 10];
        [Str "Doe, Jane"; Num 11; Str "u11"; Str "jdoe"; Str "uni"; Str "A";
         Num 9];
        [Str "Patel, Ravi"; Num 12; Str "u12"; Str "rpatel"; Str "uni";
         Str "A"; Num 7];
        [Str "Student, Test"; Num 13; NaN; NaN; Str "uni"; Str "A"; NaN]].

(** [demo_schema] with a second column filed as the respondent's email. *)
Definition demo_schema_two_emails : list SchemaEntry :=
  demo_schema ++ [mkEntry "self" "email" "Other email" "Another address"].

(** A schema whose only peer slot has no name column. *)
Definition demo_schema_nameless_peer : list SchemaEntry :=
  [mkEntry "self" "email" "Email" "Your university email";
   mkEntry "peer1" "rating" "Effort" "Rate the effort of teammate 1"].

(** A schema without peer slots. *)
Definition demo_schema_self_only : list SchemaEntry :=
  [mkEntry "self" "email" "Email" "Your university email";
   mkEntry "self" "rating" "Effort" "Rate your own effort"].

(** What the prompt loop of [find_student] has done on the console [k] by
    the time it ends in [o]: it has read the operator's lines up to the
    first one that is a roster name or a member of [NA_LIST], and returned
    that line; or it has read them all, turned every one down, and waits at
    its prompt; or the test of a line has raised.  It has written its
    prompt for every line read and a complaint for every line turned
    down. *)
Definition loop_outcome (grade_book : DataFrame) (prompt : string)
    (k : console) (o : outcome string) : Prop :=
  let turned_down a := accepted grade_book a = Ok false in
  match o with
  | Returned name k' =>
      exists rejected,
        pending k = rejected ++ name :: pending k'
        /\ Forall turned_down rejected
        /\ accepted grade_book name = Ok true
        /\ shown k' = shown k ++ dialogue prompt rejected
  | Blocked k' =>
      Forall turned_down (pending k)
      /\ pending k' = []
      /\ shown k' = shown k ++ dialogue prompt (pending k)
  | Raised e k' =>
      exists rejected a,
        pending k = rejected ++ a :: pending k'
        /\ Forall turned_down rejected
        /\ accepted grade_book a = Err e
        /\ shown k' = shown k ++ dialogue prompt rejected
  end.

(** What [process_peer_evals] has in hand for [demo_roster],
    [demo_responses] and [demo_schema] when its loop starts. *)
Definition demo_peer_setup : PeerSetup :=
  let header := ["review_row"; "Peer name"; "Effort"; "Comments"] in
  mkPeerSetup
    (mkDF ["Name"; "SIS Login ID"; "PE: N"; "Comments"; "Effort (avg)";
           "Effort (std)"]
          [[Str "Jane Doe"; Str "jdoe"; Str ""; Str ""; Str ""; Str ""];
           [Str "Ravi Patel"; Str "rpatel"; Str ""; Str ""; Str ""; Str ""]])
    (mkDF header
          [[Num 0; Str "Robbie Patel"; Str "Good"; Str "fine"];
           [Num 1; Str "Jane Doe"; Str "Fair"; Str "late"];
           [Num 0; NaN; NaN; NaN];
           [Num 1; Str "jane doe"; Str "Good"; NaN]])
    demo_pe_cols
    [(Str "Jane Doe", mkDF header []); (Str "Ravi Patel", mkDF header [])]
    "Peer name".

(** Jane's response, as the peer path hands it to [find_student]. *)
Definition demo_row0 : EvalRow :=
  RowOf (columns demo_responses)
        [Str "t1"; Str "jdoe@uni.edu"; Str "jane doe"; Str "A"; Str "T1";
         Str "Good"; Str "Robbie Patel"; Str "Good"; Str "fine"; NaN; NaN; NaN].

(** A roster on which a name carries a capital inside a word, and a
    response under that very name from an address the roster does not
    have. *)
Definition demo_roster_mc : DataFrame :=
  mkDF ["Name"; "SIS Login ID"]
       [[Str "Jane McDonald"; Str "jmcdonald"]; [Str "Ravi Patel"; Str "rpatel"]].

Definition demo_responses_mc : DataFrame :=
  mkDF (columns demo_responses)
       [[Str "t1"; Str "jane.mcdonald@uni.edu"; Str "Jane McDonald"; Str "A";
         Str "T1"; Str "Good"; Str "Ravi Patel"; Str "Good"; Str "fine";
         Str "Jane McDonald"; Str "Fair"; NaN]].

(** The order of [sorted] on texts: character codes, position by
    position, a proper prefix first. *)
Definition str_lt (a b : string) : Prop := String.compare a b = Lt.

(** [', ' in s] *)
Definition has_comma_blank (s : string) : bool := PyStr.contains ", " s.

(** The rows of a frame all have the length of its header. *)
Definition rect (df : DataFrame) : Prop :=
  Forall (fun r => length r = length (columns df)) (rows df).

(** The index of the [i]-th response, as a cell. *)
Definition index_cell (i : nat) : cell := Num (inject_Z (Z.of_nat i)).

(** What [.replace('', np.nan)] does to one cell. *)
Definition blank_to_nan (v : cell) : cell :=
  if cell_eqb v (Str "") then NaN else v.

(** ** Texts beyond ASCII *)

(** Every character of the text is one of the 128 ASCII characters. *)
Fixpoint seven_bit (s : string) : bool :=
  match s with
  | EmptyString => true
  | String c r => (nat_of_ascii c <? 128)%nat && seven_bit r
  end.

(** No operator of regular expressions: none of [. ^ $ * + ? { } [ ] \ | ( )]. *)
Fixpoint regex_free (s : string) : bool :=
  match s with
  | EmptyString => true
  | String c r =>
      negb (existsb (Ascii.eqb c)
                    ["."; "^"; "$"; "*"; "+"; "?"; "{"; "}"; "["; "]";
                     "\"; "|"; "("; ")"]%char)
      && regex_free r
  end.

(** A text as Python has it, a list of code points, and the methods of
    [str] that [fix_name] calls, with the case mappings and the white
    space of Unicode.  The tables below hold the Basic Latin block and
    four further code points: U+00A0 NO-BREAK SPACE, U+00DF LATIN SMALL
    LETTER SHARP S, U+0149 LATIN SMALL LETTER N PRECEDED BY APOSTROPHE and
    U+02BC MODIFIER LETTER APOSTROPHE.  A function of this module answers
    [None] when it meets a code point the tables do not hold. *)
Module Uni.

(** The title-case mapping, which [capitalize] applies to the first
    character. *)
Definition title (c : N) : option (list N) :=
  if (c <? 128)%N
  then Some [if (97 <=? c)%N && (c <=? 122)%N then (c - 32)%N else c]
  else if (c =? 0x149)%N then Some [0x2BC; 0x4E]%N
  else if (c =? 0xDF)%N then Some [0x53; 0x73]%N
  else if (c =? 0x2BC)%N || (c =? 0xA0)%N then Some [c]
  else None.

(** The lower-case mapping, which [capitalize] applies to the other
    characters. *)
Definition lower (c : N) : option (list N) :=
  if (c <? 128)%N
  then Some [if (65 <=? c)%N && (c <=? 90)%N then (c + 32)%N else c]
  else if (c =? 0x149)%N || (c =? 0xDF)%N || (c =? 0x2BC)%N || (c =? 0xA0)%N
  then Some [c]
  else None.

(** [str.isspace] on one character. *)
Definition is_space (c : N) : option bool :=
  if (c <? 128)%N
  then Some (((9 <=? c)%N && (c <=? 13)%N) || ((28 <=? c)%N && (c <=? 32)%N))
  else if (c =? 0xA0)%N then Some true
  else if (c =? 0x149)%N || (c =? 0xDF)%N || (c =? 0x2BC)%N then Some false
  else None.

Fixpoint lower_all (s : list N) : option (list N) :=
  match s with
  | [] => Some []
  | c :: r => a ← lower c; b ← lower_all r; Some (a ++ b)
  end.

(** [s.capitalize()] *)
Definition capitalize (s : list N) : option (list N) :=
  match s with
  | [] => Some []
  | c :: r => a ← title c; b ← lower_all r; Some (a ++ b)
  end.

(** [s.split(sep)] for a separator of one character. *)
Fixpoint split (sep : N) (s : list N) : list (list N) :=
  match s with
  | [] => [[]]
  | c :: r =>
      if (c =? sep)%N then [] :: split sep r
      else match split sep r with
           | [] => [[c]]
           | w :: ws => (c :: w) :: ws
           end
  end.

(** [sep.join(ws)] *)
Fixpoint join (sep : list N) (ws : list (list N)) : list N :=
  match ws with
  | [] => []
  | w :: ws' =>
      match ws' with
      | [] => w
      | _ :: _ => w ++ sep ++ join sep ws'
      end
  end.

Fixpoint lstrip (s : list N) : option (list N) :=
  match s with
  | [] => Some []
  | c :: r => b ← is_space c; if (b : bool) then lstrip r else Some s
  end.

Fixpoint rstrip (s : list N) : option (list N) :=
  match s with
  | [] => Some []
  | c :: r =>
      r' ← rstrip r;
      match r' with
      | [] => b ← is_space c; Some (if (b : bool) then [] else [c])
      | _ :: _ => Some (c :: r')
      end
  end.

(** [s.strip()] *)
Definition strip (s : list N) : option (list N) := r ← rstrip s; lstrip r.

Fixpoint capitalize_all (ws : list (list N)) : option (list (list N)) :=
  match ws with
  | [] => Some []
  | w :: ws' => a ← capitalize w; b ← capitalize_all ws'; Some (a :: b)
  end.

(** [fix_name] *)
Definition fix_name (name : list N) : option (list N) :=
  name ← strip name;
  words ← capitalize_all (split 32 name);
  Some (join [32%N] words).

(** The code points of an ASCII text. *)
Fixpoint codes (s : string) : list N :=
  match s with
  | EmptyString => []
  | String c r => N_of_ascii c :: codes r
  end.

End Uni.

(** ** The statements before the one-element unpackings *)

(** The statements of [process_self_evals] before [[col_email] = ...]:
    they leave the roster with its new columns and the frame
    [evals_self]. *)
Definition self_tables (grade_book survey_results : DataFrame)
    (survey_map : list SchemaEntry) (map_points : lexicon)
  : result (DataFrame * DataFrame) :=
  let cols_self :=
    find_columns survey_map "self" "any" survey_col None None
    ++ find_columns survey_map "general" "any" survey_col None None in
  evals_self ← select survey_results cols_self;
  evals_self ← rename_columns evals_self
    (find_columns survey_map "self" "any" newhead_col (Some "SE") None
     ++ find_columns survey_map "general" "any" newhead_col None None);
  let grade_book := add_empty_cols grade_book (columns evals_self) in
  let rating_cols :=
    find_columns survey_map "self" "rating" newhead_col (Some "SE") None in
  sel ← select evals_self rating_cols;
  converted ← convert_ratings map_points sel;
  evals_self ← loc_set_cols evals_self rating_cols converted;
  Ok (grade_book, evals_self).

(** The statements of [process_peer_evals] before [[col_peername] = ...]:
    they leave the roster with its new columns, the stack [evals_peer],
    the column sets and the empty buckets. *)
Definition peer_tables (all_peers : list string)
    (grade_book survey_results : DataFrame) (survey_map : list SchemaEntry)
  : result (DataFrame * DataFrame * PeCols * buckets) :=
  firstpeer ← first_peer survey_map;
  let newcols_peers :=
    map newhead
        (List.filter (fun e => String.eqb (student e) firstpeer) survey_map) in
  evals_peer ← foldM (stack_peer survey_results survey_map) all_peers
                     (mkDF ("review_row" :: newcols_peers) []);
  pe_cols ← peer_columns survey_map;
  let grade_book := add_empty_cols grade_book (pe_all pe_cols) in
  names ← col_values grade_book "Name";
  let evals_peer_compiled :=
    fold_left (fun d student => dict_set d student
                                  (mkDF (columns evals_peer) []))
              names [] in
  Ok (grade_book, evals_peer, pe_cols, evals_peer_compiled).

(** Where a set-up stopped: at the unpacking, with its [ValueError], when
    the statements before it went through, and else at one of those, with
    its error. *)
Definition stopped_at_unpacking {A} (before : result A) (e : pyerr) : Prop :=
  match before with
  | Ok _ => e = ValueError
  | Err e' => e = e'
  end.

(** [demo_responses] with one more column, which
    [demo_schema_two_emails] files as a second address. *)
Definition demo_responses_two_emails : DataFrame :=
  mkDF (columns demo_responses ++ ["Another address"])
       (map (fun r => r ++ [Str "jane@home.example"]) (rows demo_responses)).

(* ================================================================== *)
(** * Theorems *)
(* ================================================================== *)

(** ** Strings *)

Example split_email_jdoe : split_email "JDoe@school.edu" = Ok "jdoe".
Proof. reflexivity. Qed.

Example fix_name_jane : fix_name "  jANE  mcDonald " = "Jane  Mcdonald".
Proof. reflexivity. Qed.

Section AsciiFacts.

Ltac by_cases c := destruct c as [[] [] [] [] [] [] [] []]; reflexivity.

Lemma upper_ascii_idem c :
  PyStr.upper_ascii (PyStr.upper_ascii c) = PyStr.upper_ascii c.
Proof. by_cases c. Qed.

Lemma lower_ascii_idem c :
  PyStr.lower_ascii (PyStr.lower_ascii c) = PyStr.lower_ascii c.
Proof. by_cases c. Qed.

Lemma upper_ascii_blank c :
  Ascii.eqb (PyStr.upper_ascii c) " " = Ascii.eqb c " ".
Proof. by_cases c. Qed.

Lemma lower_ascii_blank c :
  Ascii.eqb (PyStr.lower_ascii c) " " = Ascii.eqb c " ".
Proof. by_cases c. Qed.

Lemma upper_ascii_space c :
  PyStr.is_space (PyStr.upper_ascii c) = PyStr.is_space c.
Proof. by_cases c. Qed.

Lemma lower_ascii_space c :
  PyStr.is_space (PyStr.lower_ascii c) = PyStr.is_space c.
Proof. by_cases c. Qed.

End AsciiFacts.

Lemma split_nonempty sep s : exists w ws, PyStr.split sep s = w :: ws.
Proof.
  destruct s as [|c r]; simpl; [eauto|].
  destruct (Ascii.eqb c sep); [eauto|].
  destruct (PyStr.split sep r); eauto.
Qed.

Lemma join_cons_char sep a w ws :
  PyStr.join sep (String a w :: ws) = String a (PyStr.join sep (w :: ws)).
Proof. destruct ws; reflexivity. Qed.

(** The pipeline of [fix_name] after the strip is [cap_from]. *)
Lemma capitalize_words_cap_from t :
  PyStr.join " " (map PyStr.capitalize (PyStr.split " " t)) = cap_from true t
  /\ (forall w ws, PyStr.split " " t = w :: ws ->
        PyStr.join " " (PyStr.lower w :: map PyStr.capitalize ws)
        = cap_from false t).
Proof.
  induction t as [|c r [IH1 IH2]].
  - split; [reflexivity|]. intros w ws [= <- <-]. reflexivity.
  - destruct (split_nonempty " " r) as (w & ws & Hr).
    simpl PyStr.split. simpl cap_from.
    destruct (Ascii.eqb c " ") eqn:Hc.
    + rewrite Hr in *. split.
      * rewrite <- IH1. reflexivity.
      * intros w0 ws0 [= <- <-]. rewrite <- IH1. reflexivity.
    + rewrite Hr. split.
      * simpl map. unfold PyStr.capitalize at 1.
        rewrite join_cons_char. f_equal. apply IH2, Hr.
      * intros w0 ws0 [= <- <-]. unfold PyStr.lower at 1. simpl PyStr.smap.
        rewrite join_cons_char. f_equal. apply IH2, Hr.
Qed.

Lemma fix_name_cap_from s : fix_name s = cap_from true (PyStr.strip s).
Proof. unfold fix_name. apply capitalize_words_cap_from. Qed.

Lemma cap_from_idem b t : cap_from b (cap_from b t) = cap_from b t.
Proof.
  revert b. induction t as [|c r IH]; intros b; [reflexivity|].
  simpl. destruct (Ascii.eqb c " ") eqn:Hc.
  - simpl. rewrite IH. reflexivity.
  - destruct b; simpl.
    + rewrite upper_ascii_blank, Hc, upper_ascii_idem, IH. reflexivity.
    + rewrite lower_ascii_blank, Hc, lower_ascii_idem, IH. reflexivity.
Qed.

Lemma cap_from_same_spaces b t : same_spaces t (cap_from b t).
Proof.
  revert b. induction t as [|c r IH]; intros b; [exact I|].
  simpl. destruct (Ascii.eqb c " ") eqn:Hc.
  - apply Ascii.eqb_eq in Hc. subst c. split; [reflexivity | apply IH].
  - split; [|apply IH].
    destruct b; [rewrite upper_ascii_space | rewrite lower_ascii_space];
      reflexivity.
Qed.

Lemma lstrip_idem s : PyStr.lstrip (PyStr.lstrip s) = PyStr.lstrip s.
Proof.
  induction s as [|c r IH]; [reflexivity|].
  simpl. destruct (PyStr.is_space c) eqn:Hc; [exact IH|].
  simpl. rewrite Hc. reflexivity.
Qed.

Lemma rstrip_cons c r :
  PyStr.rstrip (String c r)
  = match PyStr.rstrip r with
    | EmptyString =>
        if PyStr.is_space c then EmptyString else String c EmptyString
    | r' => String c r'
    end.
Proof. reflexivity. Qed.

Lemma rstrip_tail c r :
  PyStr.rstrip (String c r) = String c r -> PyStr.rstrip r = r.
Proof.
  simpl. destruct (PyStr.rstrip r) eqn:Hr.
  - destruct (PyStr.is_space c); [discriminate|]. intros [= <-]. reflexivity.
  - intros [= <-]. reflexivity.
Qed.

Lemma rstrip_lstrip u :
  PyStr.rstrip u = u -> PyStr.rstrip (PyStr.lstrip u) = PyStr.lstrip u.
Proof.
  induction u as [|c r IH]; [reflexivity|]. intros H.
  simpl PyStr.lstrip. destruct (PyStr.is_space c); [|exact H].
  apply IH. eapply rstrip_tail, H.
Qed.

Lemma rstrip_idem s : PyStr.rstrip (PyStr.rstrip s) = PyStr.rstrip s.
Proof.
  induction s as [|c r IH]; [reflexivity|].
  simpl. destruct (PyStr.rstrip r) as [|d r'] eqn:Hr.
  - destruct (PyStr.is_space c) eqn:Hc; [reflexivity|]. simpl. rewrite Hc.
    reflexivity.
  - rewrite rstrip_cons, IH. reflexivity.
Qed.

Lemma strip_stripped s : stripped (PyStr.strip s).
Proof.
  split.
  - apply lstrip_idem.
  - apply rstrip_lstrip, rstrip_idem.
Qed.

Lemma stripped_strip t : stripped t -> PyStr.strip t = t.
Proof. intros [Hl Hr]. unfold PyStr.strip. rewrite Hr. exact Hl. Qed.

Lemma same_spaces_lstrip t u :
  same_spaces t u -> PyStr.lstrip t = t -> PyStr.lstrip u = u.
Proof.
  destruct t as [|a t], u as [|b u]; simpl; try tauto.
  intros [Hab _]. rewrite <- Hab.
  destruct (PyStr.is_space a) eqn:Ha; [|reflexivity].
  intros H. exfalso.
  assert (Hlen : forall s, String.length (PyStr.lstrip s) <= String.length s).
  { induction s as [|c r IH]; simpl; [lia|].
    destruct (PyStr.is_space c); simpl; lia. }
  specialize (Hlen t). rewrite H in Hlen. simpl in Hlen. lia.
Qed.

Lemma same_spaces_rstrip t u :
  same_spaces t u -> PyStr.rstrip t = t -> PyStr.rstrip u = u.
Proof.
  revert u. induction t as [|a t IH]; intros [|b u]; simpl; try tauto.
  intros [Hab Htu]. destruct (PyStr.rstrip t) as [|d r'] eqn:Hr.
  - destruct (PyStr.is_space a) eqn:Ha; [discriminate|].
    intros [= <-]. destruct u; [|contradiction]. simpl.
    rewrite <- Hab. reflexivity.
  - intros [= <-]. rewrite (IH u Htu eq_refl).
    destruct u; [contradiction | reflexivity].
Qed.

Lemma same_spaces_stripped t u : same_spaces t u -> stripped t -> stripped u.
Proof.
  intros H [Hl Hr]. split;
    [eapply same_spaces_lstrip | eapply same_spaces_rstrip]; eassumption.
Qed.

(** On ASCII texts a second pass of the normalisation changes nothing. *)
Lemma fix_name_ascii_twice (s : string) : fix_name (fix_name s) = fix_name s.
Proof.
  rewrite !fix_name_cap_from.
  rewrite (stripped_strip (cap_from true (PyStr.strip s))).
  - apply cap_from_idem.
  - eapply same_spaces_stripped; [apply cap_from_same_spaces | apply strip_stripped].
Qed.

(** The first piece of a split is the text before the first separator. *)
Lemma split_head sep s :
  exists pre ws rest,
    PyStr.split sep s = pre :: ws
    /\ s = pre +:+ rest
    /\ PyStr.free_of sep pre = true
    /\ (rest = "" \/ exists r, rest = String sep r)
    /\ (PyStr.free_of sep s = true -> pre = s).
Proof.
  induction s as [|c s IH].
  - exists "", [], "". simpl. repeat split; auto.
  - destruct IH as (pre & ws & rest & Hs & Hcat & Hfree & Hrest & Hall).
    simpl. destruct (Ascii.eqb c sep) eqn:Hc.
    + apply Ascii.eqb_eq in Hc. subst c.
      exists "", (PyStr.split sep s), (String sep s). simpl.
      repeat split; eauto. discriminate.
    + rewrite Hs. exists (String c pre), ws, rest.
      split; [reflexivity|]. split; [rewrite Hcat at 1; reflexivity|].
      split.
      { change (negb (Ascii.eqb c sep) && PyStr.free_of sep pre = true).
        rewrite Hc. exact Hfree. } split; [exact Hrest|].
      intros H. simpl in H. f_equal. apply Hall, H.
Qed.

(** C9.  [split_email] never fails on a string: it returns, in lower case,
    the text before the first at-sign, which is the whole string when there
    is no at-sign. *)
Theorem split_email_total (email : string) :
  (exists pre rest,
     email = pre +:+ rest
     /\ PyStr.free_of "@" pre = true
     /\ (rest = "" \/ exists r, rest = String "@" r)
     /\ split_email email = Ok (PyStr.lower pre))
  /\ (PyStr.free_of "@" email = true ->
      split_email email = Ok (PyStr.lower email)).
Proof.
  destruct (split_head "@" email)
    as (pre & ws & rest & Hs & Hcat & Hfree & Hrest & Hall).
  assert (Hrun : split_email email = Ok (PyStr.lower pre)).
  { unfold split_email. rewrite Hs. reflexivity. }
  split.
  - exists pre, rest. auto.
  - intros H. rewrite Hrun, (Hall H). reflexivity.
Qed.

Lemma split_email_total_witness :
  PyStr.free_of "@" "JDoe" = true /\ split_email "JDoe" = Ok "jdoe".
Proof.
  split; [reflexivity|].
  apply (proj2 (split_email_total "JDoe")). reflexivity.
Defined.

(** ** The scenarios of the design notes *)

Example scenario_B :
  average_ratings demo_bucket2 demo_pe_cols demo_lexicon
  = Ok (mkDF ["PE: N"; "Comments"; "Effort (avg)"; "Effort (std)"]
             [[Num 2; Str "helpful"; Num (9 # 2); Num (71 # 100)]]).
Proof. vm_compute. reflexivity. Qed.

Example scenario_C :
  average_ratings demo_bucket1 demo_pe_cols demo_lexicon
  = Ok (mkDF ["PE: N"; "Comments"; "Effort (avg)"; "Effort (std)"]
             [[Num 1; Str "helpful"; Num 4; NaN]]).
Proof. vm_compute. reflexivity. Qed.

(** ** The error monad and its loops *)

Lemma bind_Ok {A B} (a : A) (f : A -> result B) : (Ok a ≫= f) = f a.
Proof. reflexivity. Qed.

Lemma bind_Err {A B} (e : pyerr) (f : A -> result B) : (Err e ≫= f) = Err e.
Proof. reflexivity. Qed.

Lemma traverse_Ok {A B} (f : A -> result B) l l' :
  traverse f l = Ok l' <-> Forall2 (fun a b => f a = Ok b) l l'.
Proof.
  revert l'. induction l as [|a l IH]; intros l'; simpl.
  - split; [intros [= <-]; constructor | inversion 1; reflexivity].
  - destruct (f a) as [b|e] eqn:Hfa; simpl.
    + destruct (traverse f l) as [bs|e] eqn:Hl; simpl.
      * split.
        -- intros [= <-]. constructor; [exact Hfa | apply IH; reflexivity].
        -- inversion 1 as [|? b' ? bs' Hb Hbs]; subst.
           apply IH in Hbs. congruence.
      * split; [discriminate|].
        inversion 1 as [|? b' ? bs' Hb Hbs]; subst.
        apply IH in Hbs. discriminate.
    + split; [discriminate|].
      inversion 1 as [|? b' ? bs' Hb Hbs]; subst. congruence.
Qed.

Lemma traverse_total {A B} (f : A -> result B) l :
  Forall (fun a => exists b, f a = Ok b) l -> exists l', traverse f l = Ok l'.
Proof.
  induction 1 as [|a l [b Hb] _ [bs Hbs]]; simpl; [eauto|].
  rewrite Hb, Hbs. simpl. eauto.
Qed.

Lemma traverse_fails {A B} (f : A -> result B) l a e0 :
  a ∈ l -> f a = Err e0 -> exists e, traverse f l = Err e.
Proof.
  intros Hin Hfa. induction Hin as [a l|a b l Hin IH]; simpl.
  - rewrite Hfa. simpl. eauto.
  - destruct (f b); simpl; [|eauto].
    destruct (IH Hfa) as [e ->]. exists e. reflexivity.
Qed.

(** A failing loop fails with an error of one of its steps. *)
Lemma traverse_Err_inv {A B} (f : A -> result B) l e :
  traverse f l = Err e -> exists a, a ∈ l /\ f a = Err e.
Proof.
  induction l as [|a l IH]; simpl; [discriminate|].
  destruct (f a) as [b|e'] eqn:Hfa; simpl.
  - destruct (traverse f l) as [bs|e'] eqn:Hl; simpl; [discriminate|].
    intros [= ->]. destruct (IH eq_refl) as (a' & Hin & Ha').
    exists a'. split; [by right | done].
  - intros [= ->]. exists a. split; [by left | done].
Qed.

Lemma traverse_length {A B} (f : A -> result B) l l' :
  traverse f l = Ok l' -> length l' = length l.
Proof. intros H. apply traverse_Ok in H. symmetry. eapply Forall2_length, H. Qed.

(** ** Column labels and positions *)

Lemma col_find_app_fresh c pre cs :
  c ∉ pre -> col_find c (pre ++ c :: cs) = Some (length pre).
Proof.
  induction pre as [|h pre IH]; intros Hc; simpl.
  - rewrite String.eqb_refl. reflexivity.
  - destruct (String.eqb_spec c h) as [->|_].
    + exfalso. apply Hc. by left.
    + rewrite IH; [reflexivity|]. intros Hin. apply Hc. by right.
Qed.

Lemma col_find_Some c cols j :
  col_find c cols = Some j -> cols !! j = Some c.
Proof.
  revert j. induction cols as [|h cols IH]; intros j; simpl; [discriminate|].
  destruct (String.eqb_spec c h) as [->|_].
  - intros [= <-]. reflexivity.
  - destruct (col_find c cols) as [k|]; simpl; [|discriminate].
    intros [= <-]. simpl. apply IH. reflexivity.
Qed.

Lemma col_find_None c cols : col_find c cols = None <-> c ∉ cols.
Proof.
  induction cols as [|h cols IH]; simpl.
  - split; [intros _; apply not_elem_of_nil | reflexivity].
  - rewrite not_elem_of_cons. destruct (String.eqb_spec c h) as [->|Hne].
    + split; [discriminate | intros [? _]; congruence].
    + destruct (col_find c cols); simpl.
      * split; [discriminate|]. intros [_ H]. apply IH in H. discriminate.
      * split; [|reflexivity]. intros _. split; [exact Hne | by apply IH].
Qed.

Lemma col_find_NoDup cols j c :
  NoDup cols -> cols !! j = Some c -> col_find c cols = Some j.
Proof.
  revert j. induction cols as [|h cols IH]; intros j Hnd Hj; [discriminate|].
  apply NoDup_cons in Hnd as [Hh Hnd]. destruct j as [|k]; simpl in *.
  - injection Hj as ->. rewrite String.eqb_refl. reflexivity.
  - destruct (String.eqb_spec c h) as [->|_].
    + exfalso. apply Hh. eapply list_elem_of_lookup_2, Hj.
    + rewrite (IH k Hnd Hj). reflexivity.
Qed.

(** ** [convert_ratings] is the cell-by-cell conversion *)

Ltac run := cbn [mbind result_bind mret result_ret columns rows].

Lemma convert_cell_step map_points cols rws i pre c cs done v vs :
  cols = pre ++ c :: cs -> NoDup cols -> length done = length pre ->
  rws !! i = Some (done ++ v :: vs) ->
  convert_cell map_points (mkDF cols rws) i c
  = (p ← lex_get map_points v;
     Ok (mkDF cols (<[i := (done ++ [Num p]) ++ vs]> rws))).
Proof.
  intros Hcols Hnd Hlen Hi. unfold convert_cell, loc_get, loc_set, col_pos, at_pos.
  run.
  assert (Hfind : col_find c cols = Some (length pre)).
  { subst cols. apply col_find_app_fresh.
    apply NoDup_app in Hnd as (_ & Hdisj & _). intros Hin.
    apply (Hdisj c Hin). by left. }
  rewrite Hfind, Hi. run.
  rewrite <- Hlen, list_lookup_middle by reflexivity. run.
  destruct (lex_get map_points v) as [p|e]; [|reflexivity]. run.
  do 3 f_equal.
  rewrite <- (Nat.add_0_r (length done)), insert_app_r, <- app_assoc.
  reflexivity.
Qed.

Lemma convert_row_cons map_points v vs :
  traverse (convert_value map_points) (v :: vs)
  = (p ← lex_get map_points v;
     bs ← traverse (convert_value map_points) vs;
     Ok (Num p :: bs)).
Proof.
  cbn [traverse]. unfold convert_value.
  destruct (lex_get map_points v); reflexivity.
Qed.

Lemma convert_inner map_points cols i cs :
  forall pre done todo rws,
    cols = pre ++ cs -> NoDup cols ->
    length done = length pre -> length todo = length cs ->
    rws !! i = Some (done ++ todo) ->
    foldM (fun df c => convert_cell map_points df i c) cs (mkDF cols rws)
    = (todo' ← traverse (convert_value map_points) todo;
       Ok (mkDF cols (<[i := done ++ todo']> rws))).
Proof.
  induction cs as [|c cs IH]; intros pre done todo rws Hcols Hnd Hd Ht Hi.
  - destruct todo; [|discriminate]. simpl.
    rewrite list_insert_id by exact Hi. reflexivity.
  - destruct todo as [|v vs]; [discriminate|]. cbn [foldM].
    rewrite (convert_cell_step map_points cols rws i pre c cs done v vs)
      by assumption.
    rewrite convert_row_cons.
    destruct (lex_get map_points v) as [p|e]; [|reflexivity]. run.
    rewrite (IH (pre ++ [c]) (done ++ [Num p]) vs).
    + destruct (traverse (convert_value map_points) vs) as [bs|e];
        [|reflexivity]. run.
      rewrite list_insert_insert_eq, <- app_assoc. reflexivity.
    + rewrite <- app_assoc. exact Hcols.
    + exact Hnd.
    + rewrite !length_app, Hd. reflexivity.
    + simpl in Ht. lia.
    + apply list_lookup_insert_eq. eapply lookup_lt_Some, Hi.
Qed.

Lemma convert_outer map_points cols todo :
  forall done,
    NoDup cols -> Forall (fun r => length r = length cols) todo ->
    foldM (fun df i => foldM (fun df c => convert_cell map_points df i c) cols df)
          (seq (length done) (length todo)) (mkDF cols (done ++ todo))
    = (todo' ← convert_rows map_points todo; Ok (mkDF cols (done ++ todo'))).
Proof.
  induction todo as [|r todo IH]; intros done Hnd Hwf; [reflexivity|].
  apply Forall_cons in Hwf as [Hr Hwf]. simpl.
  rewrite (convert_inner map_points cols (length done) cols [] [] r)
    by (try done; by apply list_lookup_middle).
  unfold convert_rows. simpl.
  destruct (traverse (convert_value map_points) r) as [r'|e] eqn:Hconv;
    [|reflexivity]. simpl.
  assert (Hins : <[length done := r']> (done ++ r :: todo)
                 = (done ++ [r']) ++ todo).
  { rewrite <- (Nat.add_0_r (length done)), insert_app_r, <- app_assoc.
    reflexivity. }
  rewrite Hins.
  replace (S (length done)) with (length (done ++ [r']))
    by (rewrite length_app; simpl; lia).
  rewrite (IH (done ++ [r']) Hnd Hwf). unfold convert_rows.
  destruct (traverse (traverse (convert_value map_points)) todo) as [rs|e];
    [|reflexivity]. simpl.
  rewrite <- app_assoc. reflexivity.
Qed.

Lemma convert_ratings_rows map_points ratings :
  wf_df ratings ->
  convert_ratings map_points ratings
  = (rs ← convert_rows map_points (rows ratings);
     Ok (mkDF (columns ratings) rs)).
Proof.
  intros [Hnd Hwf]. destruct ratings as [cols rws]. unfold convert_ratings.
  simpl in *. apply (convert_outer map_points cols rws [] Hnd Hwf).
Qed.

Lemma lex_get_entry map_points v :
  has_entry map_points v = true <-> exists p, lex_get map_points v = Ok p.
Proof.
  unfold has_entry, lex_get.
  induction map_points as [|[k q] mp IH]; simpl.
  - split; [discriminate | intros [? [=]]].
  - destruct (cell_same v k); simpl; [split; eauto | exact IH].
Qed.

Lemma lex_get_no_entry map_points v :
  has_entry map_points v = false <-> lex_get map_points v = Err KeyError.
Proof.
  unfold has_entry, lex_get.
  induction map_points as [|[k q] mp IH]; simpl.
  - split; reflexivity.
  - destruct (cell_same v k); simpl; [split; discriminate | exact IH].
Qed.

Lemma lex_get_Err map_points v e :
  lex_get map_points v = Err e -> e = KeyError.
Proof.
  unfold lex_get. destruct (find _ map_points); [discriminate|]. congruence.
Qed.

Lemma convert_value_Ok map_points v w :
  convert_value map_points v = Ok w
  <-> exists p, lex_get map_points v = Ok p /\ w = Num p.
Proof.
  unfold convert_value. destruct (lex_get map_points v) as [p|e]; run.
  - split; [intros [= <-]; eauto | intros (q & [= <-] & ->); reflexivity].
  - split; [discriminate | intros (q & [=] & _)].
Qed.

Lemma convert_rows_total map_points rws :
  Forall (Forall (fun v => has_entry map_points v = true)) rws ->
  exists out, convert_rows map_points rws = Ok out.
Proof.
  intros H. apply traverse_total. eapply Forall_impl; [exact H|].
  intros r Hr. apply traverse_total. eapply Forall_impl; [exact Hr|].
  intros v Hv. apply lex_get_entry in Hv as [p Hp].
  exists (Num p). apply convert_value_Ok. eauto.
Qed.

Lemma convert_rows_fails map_points rws :
  Exists (Exists (fun v => has_entry map_points v = false)) rws ->
  convert_rows map_points rws = Err KeyError.
Proof.
  intros H. apply Exists_exists in H as (r & Hr & H).
  apply Exists_exists in H as (v & Hv & H). apply lex_get_no_entry in H.
  assert (Hv' : convert_value map_points v = Err KeyError)
    by (unfold convert_value; rewrite H; reflexivity).
  destruct (traverse_fails _ r v _ Hv Hv') as [e1 He1].
  destruct (traverse_fails (traverse (convert_value map_points)) rws r _ Hr He1)
    as [e He].
  unfold convert_rows. rewrite He. f_equal.
  apply traverse_Err_inv in He as (r' & _ & He).
  apply traverse_Err_inv in He as (v' & _ & He).
  unfold convert_value in He.
  destruct (lex_get map_points v') as [p|e'] eqn:Hg; [discriminate|].
  injection He as <-. eapply lex_get_Err, Hg.
Qed.

Lemma convert_ratings_rows_shape map_points ratings :
  wf_df ratings ->
  (Exists (Exists (fun v => has_entry map_points v = false)) (rows ratings) ->
   convert_ratings map_points ratings = Err KeyError)
  /\ (Forall (Forall (fun v => has_entry map_points v = true)) (rows ratings) ->
      exists out,
        convert_ratings map_points ratings = Ok out
        /\ columns out = columns ratings
        /\ Forall2 (Forall2 (fun v w => exists p,
                      lex_get map_points v = Ok p /\ w = Num p))
                   (rows ratings) (rows out)).
Proof.
  intros Hwf. rewrite (convert_ratings_rows _ _ Hwf). split.
  - intros H. rewrite (convert_rows_fails _ _ H). reflexivity.
  - intros H. destruct (convert_rows_total _ _ H) as [out Hout].
    rewrite Hout. exists (mkDF (columns ratings) out). run.
    split; [reflexivity|]. split; [reflexivity|].
    apply traverse_Ok in Hout. eapply Forall2_impl; [exact Hout|].
    intros r r' Hr. apply traverse_Ok in Hr.
    eapply Forall2_impl; [exact Hr|].
    intros v w Hv. by apply convert_value_Ok.
Qed.

(** C6.  [convert_ratings] fails with a [LookupError] as soon as one cell
    holds a label without an entry in the lexicon, and otherwise returns a
    numeric table with the columns and the shape of its input, every cell
    being the points of the label it replaces. *)
Theorem convert_ratings_contract (map_points : lexicon) (ratings : DataFrame) :
  wf_df ratings ->
  (Exists (Exists (fun v => has_entry map_points v = false)) (rows ratings) ->
   exists e, convert_ratings map_points ratings = Err e
             /\ is_LookupError e = true)
  /\ (Forall (Forall (fun v => has_entry map_points v = true)) (rows ratings) ->
      exists out,
        convert_ratings map_points ratings = Ok out
        /\ columns out = columns ratings
        /\ length (rows out) = length (rows ratings)
        /\ Forall2 (Forall2 (fun v w => exists p,
                      lex_get map_points v = Ok p /\ w = Num p))
                   (rows ratings) (rows out)).
Proof.
  intros Hwf. destruct (convert_ratings_rows_shape map_points ratings Hwf)
    as [Hfail Hok]. split.
  - intros H. exists KeyError. split; [by apply Hfail | reflexivity].
  - intros H. destruct (Hok H) as (out & Hrun & Hcols & Hrows).
    exists out. split; [exact Hrun|]. split; [exact Hcols|].
    split; [|exact Hrows]. symmetry. eapply Forall2_length, Hrows.
Qed.

Lemma demo_ratings_wf : wf_df demo_ratings.
Proof.
  split; [apply (bool_decide_unpack _); reflexivity | repeat constructor].
Qed.

Lemma convert_ratings_contract_witness :
  wf_df demo_ratings
  /\ exists out,
       convert_ratings demo_lexicon demo_ratings = Ok out
       /\ columns out = columns demo_ratings
       /\ length (rows out) = length (rows demo_ratings)
       /\ Forall2 (Forall2 (fun v w => exists p,
                     lex_get demo_lexicon v = Ok p /\ w = Num p))
                  (rows demo_ratings) (rows out).
Proof.
  split; [exact demo_ratings_wf|].
  apply (proj2 (convert_ratings_contract demo_lexicon demo_ratings
                  demo_ratings_wf)).
  repeat constructor.
Defined.

(** ** Columns of a frame and of a selection *)

Lemma at_pos_Ok {A} (l : list A) j a : at_pos l j = Ok a <-> l !! j = Some a.
Proof.
  unfold at_pos. destruct (l !! j); split; congruence.
Qed.

Lemma col_pos_Ok c cols j : col_pos c cols = Ok j <-> col_find c cols = Some j.
Proof.
  unfold col_pos. destruct (col_find c cols); split; congruence.
Qed.

Lemma col_values_Ok df c vs :
  col_values df c = Ok vs
  <-> exists j, col_find c (columns df) = Some j
                /\ Forall2 (fun r v => r !! j = Some v) (rows df) vs.
Proof.
  unfold col_values, col_pos. destruct (col_find c (columns df)) as [j|]; run.
  - rewrite traverse_Ok. split.
    + intros H. exists j. split; [reflexivity|].
      eapply Forall2_impl; [exact H|]. intros r v. apply at_pos_Ok.
    + intros (j' & [= <-] & H). eapply Forall2_impl; [exact H|].
      intros r v. apply at_pos_Ok.
  - split; [discriminate | intros (j & [=] & _)].
Qed.

Lemma col_values_length df c vs :
  col_values df c = Ok vs -> length vs = length (rows df).
Proof.
  intros H. apply col_values_Ok in H as (j & _ & H).
  symmetry. eapply Forall2_length, H.
Qed.

Lemma select_Ok df cols :
  (forall c, c ∈ cols -> exists vs, col_values df c = Ok vs) ->
  exists sel,
    select df cols = Ok sel
    /\ columns sel = cols
    /\ length (rows sel) = length (rows df)
    /\ Forall (fun r => length r = length cols) (rows sel)
    /\ (forall k c vs, cols !! k = Some c -> col_values df c = Ok vs ->
          Forall2 (fun r v => r !! k = Some v) (rows sel) vs).
Proof.
  intros Hcols. unfold select.
  assert (Hjs : exists js, traverse (fun c => col_pos c (columns df)) cols = Ok js).
  { apply traverse_total, Forall_forall. intros c Hc.
    destruct (Hcols c Hc) as [vs Hvs].
    apply col_values_Ok in Hvs as (j & Hj & _). exists j. by apply col_pos_Ok. }
  destruct Hjs as [js Hjs]. rewrite Hjs. run.
  apply traverse_Ok in Hjs.
  assert (Hrs : exists rs,
             traverse (fun r => traverse (at_pos r) js) (rows df) = Ok rs).
  { apply traverse_total, Forall_forall. intros r Hr.
    apply traverse_total, Forall_forall. intros j Hj.
    apply list_elem_of_lookup in Hj as [k Hk].
    destruct (Forall2_lookup_r _ _ _ _ _ Hjs Hk) as (c & Hc & Hcj).
    apply col_pos_Ok in Hcj.
    destruct (Hcols c (list_elem_of_lookup_2 _ _ _ Hc)) as [vs Hvs].
    apply col_values_Ok in Hvs as (j' & Hj' & Hvs).
    assert (j' = j) as -> by congruence.
    apply list_elem_of_lookup in Hr as [i Hi].
    destruct (Forall2_lookup_l _ _ _ _ _ Hvs Hi) as (v & _ & Hv).
    exists v. by apply at_pos_Ok. }
  destruct Hrs as [rs Hrs]. rewrite Hrs. run.
  exists (mkDF cols rs). run. split; [reflexivity|]. split; [reflexivity|].
  split; [eapply traverse_length, Hrs|].
  apply traverse_Ok in Hrs. split.
  - apply Forall_forall. intros r' Hr'.
    apply list_elem_of_lookup in Hr' as [i Hi].
    destruct (Forall2_lookup_r _ _ _ _ _ Hrs Hi) as (r & _ & Hr).
    apply traverse_length in Hr. rewrite Hr.
    symmetry. eapply Forall2_length, Hjs.
  - intros k c vs Hk Hvs. apply col_values_Ok in Hvs as (j & Hj & Hvs).
    destruct (Forall2_lookup_l _ _ _ _ _ Hjs Hk) as (j' & Hj' & Hcj).
    apply col_pos_Ok in Hcj. assert (j' = j) as -> by congruence.
    apply Forall2_same_length_lookup. split.
    + rewrite <- (Forall2_length _ _ _ Hrs). eapply Forall2_length, Hvs.
    + intros i r' v Hr' Hv.
      destruct (Forall2_lookup_r _ _ _ _ _ Hrs Hr') as (r & Hr & Hrr').
      apply traverse_Ok in Hrr'.
      destruct (Forall2_lookup_l _ _ _ _ _ Hrr' Hj') as (w & Hw & Hjw).
      apply at_pos_Ok in Hjw.
      destruct (Forall2_lookup_l _ _ _ _ _ Hvs Hr) as (v' & Hv' & Hrv).
      congruence.
Qed.

(** ** The one-row frame of averages *)

Lemma col_find_lt c cols j : col_find c cols = Some j -> (j < length cols)%nat.
Proof. intros H. eapply lookup_lt_Some, col_find_Some, H. Qed.

Lemma col_find_snoc c' cols c :
  col_find c' (cols ++ [c])
  = match col_find c' cols with
    | Some j => Some j
    | None => if String.eqb c' c then Some (length cols) else None
    end.
Proof.
  induction cols as [|h cols IH]; simpl.
  - destruct (String.eqb c' c); reflexivity.
  - destruct (String.eqb c' h); [reflexivity|]. rewrite IH.
    destruct (col_find c' cols); [reflexivity|].
    destruct (String.eqb c' c); reflexivity.
Qed.

Lemma one_row_set_col df c v : one_row df -> one_row (set_col df c v).
Proof.
  intros (r & Hr & Hlen). unfold set_col.
  destruct (col_find c (columns df)) as [j|]; rewrite Hr; simpl.
  - exists (<[j := v]> r). split; [reflexivity|]. by rewrite length_insert.
  - exists (r ++ [v]). split; [reflexivity|]. run.
    by rewrite !length_app, Hlen.
Qed.

Lemma loc_get_one_row df c :
  one_row df ->
  loc_get df 0 c
  = match col_find c (columns df) with
    | Some j => match rows df with
                | r :: _ => at_pos r j
                | [] => Err KeyError
                end
    | None => Err KeyError
    end.
Proof.
  intros (r & Hr & _). unfold loc_get, col_pos. rewrite Hr.
  destruct (col_find c (columns df)); reflexivity.
Qed.

Lemma loc_get_set_col_eq df c v :
  one_row df -> loc_get (set_col df c v) 0 c = Ok v.
Proof.
  intros Hone. rewrite loc_get_one_row by by apply one_row_set_col.
  destruct Hone as (r & Hr & Hlen). unfold set_col.
  destruct (col_find c (columns df)) as [j|] eqn:Hj; rewrite Hr; simpl.
  - rewrite Hj. apply at_pos_Ok, list_lookup_insert_eq.
    rewrite Hlen. eapply col_find_lt, Hj.
  - rewrite col_find_snoc, Hj, String.eqb_refl.
    apply at_pos_Ok. rewrite <- Hlen. by apply list_lookup_middle.
Qed.

Lemma loc_get_set_col_ne df c c' v :
  one_row df -> c' <> c ->
  loc_get (set_col df c v) 0 c' = loc_get df 0 c'.
Proof.
  intros Hone Hne. rewrite !loc_get_one_row by auto using one_row_set_col.
  destruct Hone as (r & Hr & Hlen). unfold set_col.
  destruct (col_find c (columns df)) as [j|] eqn:Hj; rewrite Hr; simpl.
  - destruct (col_find c' (columns df)) as [j'|] eqn:Hj'; [|reflexivity].
    unfold at_pos. rewrite list_lookup_insert_ne; [reflexivity|].
    intros ->. apply col_find_Some in Hj, Hj'. congruence.
  - rewrite col_find_snoc.
    destruct (col_find c' (columns df)) as [j'|] eqn:Hj'.
    + unfold at_pos. rewrite lookup_app_l; [reflexivity|].
      rewrite Hlen. eapply col_find_lt, Hj'.
    + destruct (String.eqb_spec c' c); [contradiction | reflexivity].
Qed.

Lemma first_row_one_row cols c v : one_row (first_row cols c v).
Proof.
  unfold first_row. eexists. split; [reflexivity|]. simpl.
  by rewrite length_map.
Qed.

Lemma first_row_get cols c v : loc_get (first_row cols c v) 0 c = Ok v.
Proof.
  rewrite loc_get_one_row by apply first_row_one_row. unfold first_row. simpl.
  set (cols' := if existsb (String.eqb c) cols then cols else cols ++ [c]).
  assert (Hin : c ∈ cols').
  { subst cols'. destruct (existsb (String.eqb c) cols) eqn:Hex.
    - apply existsb_exists in Hex as (h & Hh & Heq).
      apply String.eqb_eq in Heq as <-. by apply list_elem_of_In.
    - apply elem_of_app. right. by left. }
  destruct (col_find c cols') as [j|] eqn:Hj.
  - apply at_pos_Ok. rewrite list_lookup_fmap.
    rewrite (col_find_Some _ _ _ Hj). simpl. by rewrite String.eqb_refl.
  - apply col_find_None in Hj. contradiction.
Qed.

(** ** Labels derived from a rating column *)

Lemma string_length_append s t :
  String.length (s +:+ t) = (String.length s + String.length t)%nat.
Proof.
  induction s as [|a s IH]; [reflexivity|].
  change (S (String.length (s +:+ t)) = S (String.length s + String.length t)).
  by rewrite IH.
Qed.

Lemma append_suffix_inj s1 s2 t1 t2 :
  s1 +:+ t1 = s2 +:+ t2 -> String.length t1 = String.length t2 ->
  s1 = s2 /\ t1 = t2.
Proof.
  revert s2. induction s1 as [|a s1 IH]; intros [|b s2] Heq Hlen.
  - change (t1 = t2) in Heq. auto.
  - exfalso. change (t1 = String b (s2 +:+ t2)) in Heq. subst t1.
    simpl in Hlen. rewrite string_length_append in Hlen. lia.
  - exfalso. change (String a (s1 +:+ t1) = t2) in Heq. subst t2.
    simpl in Hlen. rewrite string_length_append in Hlen. lia.
  - change (String a (s1 +:+ t1) = String b (s2 +:+ t2)) in Heq.
    injection Heq as -> Heq. destruct (IH s2 Heq Hlen) as [-> ->]. auto.
Qed.

Lemma avg_label_inj c1 c2 : c1 +:+ " (avg)" = c2 +:+ " (avg)" -> c1 = c2.
Proof. intros H. by apply append_suffix_inj in H as [-> _]. Qed.

Lemma std_label_inj c1 c2 : c1 +:+ " (std)" = c2 +:+ " (std)" -> c1 = c2.
Proof. intros H. by apply append_suffix_inj in H as [-> _]. Qed.

Lemma avg_label_not_std c1 c2 : c1 +:+ " (avg)" <> c2 +:+ " (std)".
Proof. intros H. by apply append_suffix_inj in H as [_ [=]]. Qed.

Lemma suffixed_label_not_count c t :
  (5 < String.length t)%nat -> c +:+ t <> "PE: N".
Proof.
  intros Hlen H. apply (f_equal String.length) in H.
  rewrite string_length_append in H. simpl in H. lia.
Qed.

(** ** Rounding *)

Section Rounding.
Local Open Scope Q_scope.

Lemma Qmake_scale (k : Z) : (k # 100) == inject_Z k * (1 # 100).
Proof. unfold Qeq, inject_Z. simpl. lia. Qed.

Lemma nearest_even_spec z :
  Qabs (inject_Z (Stats.nearest_even z) - z) <= 1 # 2.
Proof.
  unfold Stats.nearest_even.
  pose proof (Qfloor_le z) as Hlo. pose proof (Qlt_floor z) as Hhi.
  rewrite inject_Z_plus in Hhi. change (inject_Z 1) with 1 in Hhi.
  apply Qabs_Qle_condition.
  destruct (z - inject_Z (Qfloor z) ?= 1 # 2) eqn:Hc.
  - apply Qeq_alt in Hc.
    destruct (Z.even (Qfloor z));
      [|rewrite inject_Z_plus; change (inject_Z 1) with 1]; lra.
  - apply Qlt_alt in Hc. lra.
  - apply Qgt_alt in Hc. rewrite inject_Z_plus.
    change (inject_Z 1) with 1. lra.
Qed.

Lemma nearest_sqrt_spec x :
  0 <= x ->
  let k := inject_Z (Stats.nearest_sqrt x) in
  (0 <= Stats.nearest_sqrt x)%Z
  /\ 4 * x <= (2 * k + 1) * (2 * k + 1)
  /\ (k == 0 \/ (2 * k - 1) * (2 * k - 1) <= 4 * x).
Proof.
  intros Hx. unfold Stats.nearest_sqrt.
  set (n := Qfloor (4 * x)). set (y := Z.sqrt n).
  assert (Hn : (0 <= n)%Z).
  { assert (H0 : 0 <= 4 * x) by lra.
    apply Qfloor_resp_le in H0. exact H0. }
  pose proof (Z.sqrt_spec n Hn) as [Hy1 Hy2]. fold y in Hy1, Hy2.
  assert (Hy0 : (0 <= y)%Z) by apply Z.sqrt_nonneg.
  pose proof (Qfloor_le (4 * x)) as Hlo.
  pose proof (Qlt_floor (4 * x)) as Hhi. fold n in Hlo, Hhi.
  set (k := ((y + 1) / 2)%Z).
  assert (Hk : (2 * k <= y + 1 < 2 * k + 2)%Z).
  { subst k. pose proof (Z.div_mod (y + 1) 2).
    pose proof (Z.mod_pos_bound (y + 1) 2). lia. }
  assert (Hk0 : (0 <= k)%Z) by lia.
  assert (H1 : (n + 1 <= (2 * k + 1) * (2 * k + 1))%Z) by nia.
  assert (H2 : (k = 0 \/ 4 * k * k + 1 <= n + 4 * k)%Z) by nia.
  split; [exact Hk0|]. split.
  - rewrite Zle_Qle in H1.
    rewrite inject_Z_mult, !inject_Z_plus, inject_Z_mult in H1.
    change (inject_Z 2) with 2 in H1. change (inject_Z 1) with 1 in H1.
    rewrite inject_Z_plus in Hhi. change (inject_Z 1) with 1 in Hhi. lra.
  - destruct H2 as [->|H2]; [left; reflexivity | right].
    rewrite Zle_Qle in H2. rewrite !inject_Z_plus, !inject_Z_mult in H2.
    change (inject_Z 4) with 4 in H2. change (inject_Z 1) with 1 in H2. lra.
Qed.

Lemma round2_Rat q : is_round2 q (Stats.round2 (Stats.Rat q)).
Proof.
  exists (Stats.nearest_even (100 * q)). cbn [Stats.round2].
  split; [apply Qred_correct|].
  pose proof (nearest_even_spec (100 * q)) as H.
  apply Qabs_Qle_condition in H. apply Qabs_Qle_condition.
  pose proof (Qred_correct (Stats.nearest_even (100 * q) # 100)) as Hr.
  pose proof (Qmake_scale (Stats.nearest_even (100 * q))) as Hs.
  set (r := Qred (Stats.nearest_even (100 * q) # 100)) in *.
  set (k := inject_Z (Stats.nearest_even (100 * q))) in *.
  assert (Hrk : r == k * (1 # 100)) by (rewrite Hr; exact Hs).
  clearbody r k. clear Hr Hs. lra.
Qed.

Lemma round2_Sqrt v : 0 <= v -> is_round2_sqrt v (Stats.round2 (Stats.Sqrt v)).
Proof.
  intros Hv. assert (Hx : 0 <= 10000 * v) by lra.
  destruct (nearest_sqrt_spec _ Hx) as (Hk0 & Hup & Hlow).
  exists (Stats.nearest_sqrt (10000 * v)). cbn [Stats.round2].
  split; [exact Hk0|]. split; [apply Qred_correct|].
  pose proof (Qred_correct (Stats.nearest_sqrt (10000 * v) # 100)) as Hr.
  pose proof (Qmake_scale (Stats.nearest_sqrt (10000 * v))) as Hs.
  set (r := Qred (Stats.nearest_sqrt (10000 * v) # 100)) in *.
  set (k := inject_Z (Stats.nearest_sqrt (10000 * v))) in *.
  assert (Hrk : r == k * (1 # 100)) by (rewrite Hr; exact Hs).
  clearbody r k. clear Hr Hs Hk0. split.
  - rewrite Hrk. lra.
  - destruct Hlow as [Hz|Hlow]; [left | right]; rewrite Hrk; lra.
Qed.

Lemma Qsum_squares_nonneg (xs : list Q) m :
  0 <= Stats.Qsum (map (fun x => (x - m) * (x - m)) xs).
Proof.
  induction xs as [|x xs IH]; [apply Qle_refl|].
  change (0 <= (x - m) * (x - m)
               + Stats.Qsum (map (fun x => (x - m) * (x - m)) xs)).
  assert (Hsq : 0 <= (x - m) * (x - m)).
  { destruct (Qlt_le_dec (x - m) 0) as [Hneg|Hpos].
    - assert (Heq : (x - m) * (x - m) == (m - x) * (m - x)) by ring.
      rewrite Heq. apply Qmult_le_0_compat; lra.
    - apply Qmult_le_0_compat; exact Hpos. }
  lra.
Qed.

Lemma bessel_variance_nonneg xs :
  (2 <= length xs)%nat -> 0 <= bessel_variance xs.
Proof.
  intros Hn. unfold bessel_variance, Qdiv. apply Qmult_le_0_compat.
  - apply Qsum_squares_nonneg.
  - apply Qinv_le_0_compat. unfold Stats.Qlen.
    assert (H : inject_Z 2 <= inject_Z (Z.of_nat (length xs)))
      by (rewrite <- Zle_Qle; lia).
    change (inject_Z 2) with 2 in H. lra.
Qed.

End Rounding.

(** ** The loops of [average_ratings] *)

Lemma traverse_as_number xs : traverse as_number (map Num xs) = Ok xs.
Proof.
  induction xs as [|x xs IH]; [reflexivity|].
  cbn [map traverse as_number]. rewrite IH. reflexivity.
Qed.

Lemma count_is_one (n : nat) :
  cell_eqb (Num (inject_Z (Z.of_nat n))) (Num 1) = (n =? 1)%nat.
Proof.
  cbn [cell_eqb]. destruct (Nat.eqb_spec n 1) as [->|Hne]; [reflexivity|].
  destruct (Qeq_bool (inject_Z (Z.of_nat n)) 1) eqn:E; [|reflexivity].
  apply Qeq_bool_eq in E. unfold Qeq in E. simpl in E. lia.
Qed.

Lemma variance_bessel xs :
  (2 <= length xs)%nat -> Stats.variance xs = Ok (bessel_variance xs).
Proof.
  intros Hn. unfold Stats.variance.
  destruct (Nat.ltb_spec (length xs) 2) as [|_]; [lia|].
  destruct xs as [|x xs]; [simpl in Hn; lia|]. reflexivity.
Qed.

Lemma average_column_run ratings avgs c xs :
  one_row avgs ->
  loc_get avgs 0 "PE: N" = Ok (Num (Stats.Qlen xs)) ->
  xs <> [] ->
  col_values ratings c = Ok (map Num xs) ->
  average_column ratings avgs c
  = Ok (set_col (set_col avgs (c +:+ " (avg)") (avg_cell xs))
                (c +:+ " (std)") (std_cell xs)).
Proof.
  intros Hone Hn Hxs Hcol. unfold average_column.
  rewrite Hcol. run. rewrite traverse_as_number. run.
  assert (Hmean : Stats.mean xs = Ok (Stats.Qsum xs / Stats.Qlen xs)%Q)
    by (destruct xs; [contradiction | reflexivity]).
  rewrite Hmean. run.
  rewrite loc_get_set_col_ne, Hn by
    (try done; apply not_eq_sym, suffixed_label_not_count; simpl; lia).
  run. unfold Stats.Qlen at 1. rewrite count_is_one. unfold std_cell.
  destruct (Nat.eqb_spec (length xs) 1) as [|Hne]; [reflexivity|].
  unfold Stats.stdev. rewrite variance_bessel; [reflexivity|].
  destruct xs as [|? [|? ?]]; simpl in *; try lia. contradiction.
Qed.

Lemma average_fold ratings n cs :
  forall avgs,
    NoDup cs -> one_row avgs -> n <> 0%nat ->
    loc_get avgs 0 "PE: N" = Ok (Num (inject_Z (Z.of_nat n))) ->
    (forall c, c ∈ cs ->
       exists xs, col_values ratings c = Ok (map Num xs) /\ length xs = n) ->
    exists avgs',
      foldM (average_column ratings) cs avgs = Ok avgs'
      /\ one_row avgs'
      /\ (forall c xs, c ∈ cs -> col_values ratings c = Ok (map Num xs) ->
            loc_get avgs' 0 (c +:+ " (avg)") = Ok (avg_cell xs)
            /\ loc_get avgs' 0 (c +:+ " (std)") = Ok (std_cell xs))
      /\ (forall l, (forall c, c ∈ cs ->
                       l <> c +:+ " (avg)" /\ l <> c +:+ " (std)") ->
            loc_get avgs' 0 l = loc_get avgs 0 l).
Proof.
  induction cs as [|c cs IH]; intros avgs Hnd Hone Hn0 Hn Hcols.
  - exists avgs. split; [reflexivity|]. split; [exact Hone|].
    split; [|reflexivity]. intros c xs Hc. by apply elem_of_nil in Hc.
  - apply NoDup_cons in Hnd as [Hc Hnd].
    destruct (Hcols c) as (xs & Hxs & Hlen); [by left|].
    assert (Hne : xs <> []) by (intros ->; simpl in Hlen; lia).
    assert (Hn' : loc_get avgs 0 "PE: N" = Ok (Num (Stats.Qlen xs)))
      by (unfold Stats.Qlen; rewrite Hlen; exact Hn).
    cbn [foldM]. rewrite (average_column_run _ _ _ _ Hone Hn' Hne Hxs). run.
    set (avgs1 := set_col (set_col avgs (c +:+ " (avg)") (avg_cell xs))
                          (c +:+ " (std)") (std_cell xs)).
    assert (Hone1 : one_row avgs1) by (do 2 apply one_row_set_col; exact Hone).
    assert (Hframe1 : forall l, l <> c +:+ " (avg)" -> l <> c +:+ " (std)" ->
                        loc_get avgs1 0 l = loc_get avgs 0 l).
    { intros l H1 H2. unfold avgs1.
      rewrite loc_get_set_col_ne by (try done; by apply one_row_set_col).
      by apply loc_get_set_col_ne. }
    destruct (IH avgs1 Hnd Hone1 Hn0) as (avgs' & Hrun & Hone' & Hres & Hframe).
    { rewrite Hframe1; [exact Hn| |];
        apply not_eq_sym, suffixed_label_not_count; simpl; lia. }
    { intros c' Hc'. apply Hcols. by right. }
    exists avgs'. split; [exact Hrun|]. split; [exact Hone'|]. split.
    + intros c' xs' Hc' Hxs'. apply elem_of_cons in Hc' as [->|Hc'].
      * assert (xs' = xs) as ->.
        { rewrite Hxs in Hxs'. injection Hxs' as Heq.
          revert Heq. clear. revert xs'.
          induction xs as [|x xs IHx]; intros [|x' xs'] [=]; [done|].
          subst. f_equal. by apply IHx. }
        rewrite !Hframe.
        -- unfold avgs1. split.
           ++ rewrite loc_get_set_col_ne by
                (first [by apply one_row_set_col | apply avg_label_not_std]).
              by apply loc_get_set_col_eq.
           ++ apply loc_get_set_col_eq. by apply one_row_set_col.
        -- intros c' Hc'. split.
           ++ apply not_eq_sym, avg_label_not_std.
           ++ intros Heq. apply std_label_inj in Heq. by subst.
        -- intros c' Hc'. split.
           ++ intros Heq. apply avg_label_inj in Heq. by subst.
           ++ apply avg_label_not_std.
      * by apply Hres.
    + intros l Hl. rewrite Hframe.
      * apply Hframe1; apply (Hl c); by left.
      * intros c' Hc'. apply Hl. by right.
Qed.

Lemma comments_fold eval_df cs :
  forall avgs,
    one_row avgs ->
    (forall c, c ∈ cs ->
       c <> "PE: N"
       /\ exists vs, col_values eval_df c = Ok vs
                     /\ Forall (fun v => py_in v NA_LIST = true
                                         \/ exists s, v = Str s) vs) ->
    exists avgs',
      foldM (combine_comments eval_df) cs avgs = Ok avgs'
      /\ one_row avgs'
      /\ loc_get avgs' 0 "PE: N" = loc_get avgs 0 "PE: N".
Proof.
  induction cs as [|c cs IH]; intros avgs Hone Hcs.
  - exists avgs. auto.
  - destruct (Hcs c) as (Hc & vs & Hvs & Hall); [by left|].
    cbn [foldM].
    assert (Hstep : forall texts,
              traverse as_text (filter (fun v => negb (py_in v NA_LIST)) vs)
              = Ok texts ->
              combine_comments eval_df avgs c
              = Ok (set_col avgs c (Str (PyStr.join " | " texts)))).
    { intros texts Ht. unfold combine_comments. rewrite Hvs. run.
      rewrite Ht. reflexivity. }
    destruct (traverse_total as_text
                (filter (fun v => negb (py_in v NA_LIST)) vs)) as [texts Ht].
    { apply Forall_forall. intros v Hv.
      apply list_elem_of_filter in Hv as [Hna Hv].
      rewrite Forall_forall in Hall. destruct (Hall v Hv) as [Hin|[s ->]].
      - rewrite Hin in Hna. contradiction.
      - exists s. reflexivity. }
    rewrite (Hstep texts Ht). run.
    destruct (IH (set_col avgs c (Str (PyStr.join " | " texts))))
      as (avgs' & Hrun & Hone' & Hn).
    { by apply one_row_set_col. }
    { intros c' Hc'. apply Hcs. by right. }
    exists avgs'. split; [exact Hrun|]. split; [exact Hone'|].
    rewrite Hn. apply loc_get_set_col_ne; [exact Hone | by apply not_eq_sym].
Qed.

Lemma column_convert map_points k (rs rs' : list (list cell)) vs :
  Forall2 (Forall2 (fun v w => exists p,
             lex_get map_points v = Ok p /\ w = Num p)) rs rs' ->
  Forall2 (fun r v => r !! k = Some v) rs vs ->
  exists xs,
    Forall2 (fun v x => lex_get map_points v = Ok x) vs xs
    /\ Forall2 (fun r' w => r' !! k = Some w) rs' (map Num xs).
Proof.
  intros Hconv. revert vs.
  induction Hconv as [|r r' rs rs' Hr _ IH]; intros vs Hvs.
  - apply Forall2_nil_inv_l in Hvs as ->. exists []. split; constructor.
  - apply Forall2_cons_inv_l in Hvs as (v & vs' & Hv & Hvs & ->).
    destruct (IH vs' Hvs) as (xs & Hxs & Hcol).
    destruct (Forall2_lookup_l _ _ _ _ _ Hr Hv) as (w & Hw & p & Hp & ->).
    exists (p :: xs). split; constructor; assumption.
Qed.

(** The converted frame of [average_ratings] holds, column by column, the
    points of the labels of the bucket. *)
Lemma ratings_columns map_points eval_df cols :
  NoDup cols ->
  (forall c, c ∈ cols ->
     exists vs, col_values eval_df c = Ok vs
                /\ Forall (fun v => has_entry map_points v = true) vs) ->
  exists sel ratings,
    select eval_df cols = Ok sel
    /\ convert_ratings map_points sel = Ok ratings
    /\ forall c vs, c ∈ cols -> col_values eval_df c = Ok vs ->
         exists xs, Forall2 (fun v x => lex_get map_points v = Ok x) vs xs
                    /\ col_values ratings c = Ok (map Num xs).
Proof.
  intros Hnd Hcols.
  destruct (select_Ok eval_df cols) as (sel & Hsel & Hc & Hn & Hlen & Hcol).
  { intros c Hin. destruct (Hcols c Hin) as (vs & Hvs & _). eauto. }
  assert (Hwf : wf_df sel) by (split; rewrite Hc; assumption).
  assert (Hall : Forall (Forall (fun v => has_entry map_points v = true))
                        (rows sel)).
  { apply Forall_forall. intros r Hr. apply Forall_forall. intros v Hv.
    apply list_elem_of_lookup in Hr as [i Hi].
    apply list_elem_of_lookup in Hv as [k Hk].
    assert (Hk' : (k < length cols)%nat).
    { rewrite Forall_forall in Hlen.
      rewrite <- (Hlen r (list_elem_of_lookup_2 _ _ _ Hi)).
      eapply lookup_lt_Some, Hk. }
    apply lookup_lt_is_Some in Hk' as [c Hck].
    destruct (Hcols c (list_elem_of_lookup_2 _ _ _ Hck)) as (vs & Hvs & Hent).
    pose proof (Hcol k c vs Hck Hvs) as Hkvs.
    destruct (Forall2_lookup_l _ _ _ _ _ Hkvs Hi) as (v' & Hv' & Hrv).
    assert (v' = v) as -> by congruence.
    rewrite Forall_forall in Hent. apply Hent.
    eapply list_elem_of_lookup_2, Hv'. }
  destruct (proj2 (convert_ratings_rows_shape map_points sel Hwf) Hall)
    as (ratings & Hconv & Hrc & Hrows).
  exists sel, ratings. split; [exact Hsel|]. split; [exact Hconv|].
  intros c vs Hin Hvs. apply list_elem_of_lookup_1 in Hin as [k Hk].
  destruct (column_convert map_points k _ _ vs Hrows (Hcol k c vs Hk Hvs))
    as (xs & Hxs & Hout).
  exists xs. split; [exact Hxs|]. apply col_values_Ok. exists k.
  split; [|exact Hout]. rewrite Hrc, Hc. by apply col_find_NoDup.
Qed.

(** C4.  For a bucket of [N] peer responses the reducer writes, for every
    rating category, the arithmetic mean of the converted ratings rounded to
    two decimals, and as the deviation the missing marker when [N = 1] and
    the Bessel-corrected sample standard deviation rounded to two decimals
    when [N >= 2]. *)
Theorem average_ratings_mean_std (map_points : lexicon) (pe_cols : PeCols)
    (eval_df : DataFrame) :
  bucket_ok map_points pe_cols eval_df ->
  reduces_to_mean_std map_points pe_cols eval_df.
Proof.
  intros [Hrows Hnd Hrating Hcomments]. unfold reduces_to_mean_std.
  set (n := length (rows eval_df)).
  assert (Hn0 : n <> 0%nat) by (subst n; destruct (rows eval_df); done).
  unfold average_ratings. fold n.
  destruct (comments_fold eval_df (pe_comments pe_cols)
              (first_row (pe_all pe_cols) "PE: N" (Num (inject_Z (Z.of_nat n)))))
    as (avgs1 & Hrun1 & Hone1 & Hcount); [apply first_row_one_row | exact Hcomments |].
  rewrite first_row_get in Hcount. rewrite Hrun1. run.
  destruct (ratings_columns map_points eval_df (pe_rating pe_cols) Hnd Hrating)
    as (sel & ratings & Hsel & Hconv & Hcols).
  rewrite Hsel. run. rewrite Hconv. run.
  destruct (average_fold ratings n (pe_rating pe_cols) avgs1 Hnd Hone1 Hn0 Hcount)
    as (avgs & Hrun & _ & Hres & _).
  { intros c Hc. destruct (Hrating c Hc) as (vs & Hvs & _).
    destruct (Hcols c vs Hc Hvs) as (xs & Hxs & Hout).
    exists xs. split; [exact Hout|].
    rewrite <- (Forall2_length _ _ _ Hxs). by apply col_values_length in Hvs. }
  exists avgs. split; [exact Hrun|]. intros c Hc.
  destruct (Hrating c Hc) as (vs & Hvs & _).
  destruct (Hcols c vs Hc Hvs) as (xs & Hxs & Hout).
  destruct (Hres c xs Hc Hout) as [Havg Hstd].
  assert (Hlen : length xs = n).
  { rewrite <- (Forall2_length _ _ _ Hxs). by apply col_values_length in Hvs. }
  exists vs, xs. split; [exact Hvs|]. split; [exact Hxs|]. split; [|split].
  - eexists. split; [exact Havg | apply round2_Rat].
  - intros H1. rewrite Hstd. unfold std_cell. rewrite Hlen, H1. reflexivity.
  - intros H2. eexists. split.
    + rewrite Hstd. unfold std_cell.
      destruct (Nat.eqb_spec (length xs) 1) as [|_]; [lia | reflexivity].
    + apply round2_Sqrt, bessel_variance_nonneg. lia.
Qed.

Lemma demo_bucket2_ok : bucket_ok demo_lexicon demo_pe_cols demo_bucket2.
Proof.
  split.
  - discriminate.
  - apply (bool_decide_unpack _). reflexivity.
  - intros c Hc. apply list_elem_of_singleton in Hc as ->.
    eexists. split; [reflexivity | repeat constructor].
  - intros c Hc. apply list_elem_of_singleton in Hc as ->.
    split; [discriminate|]. eexists. split; [reflexivity|].
    constructor; [right; eexists; reflexivity|].
    constructor; [left; reflexivity | constructor].
Qed.

Lemma average_ratings_mean_std_witness :
  bucket_ok demo_lexicon demo_pe_cols demo_bucket2
  /\ reduces_to_mean_std demo_lexicon demo_pe_cols demo_bucket2.
Proof.
  split; [exact demo_bucket2_ok|].
  apply (average_ratings_mean_std demo_lexicon demo_pe_cols demo_bucket2).
  exact demo_bucket2_ok.
Defined.

(** ** Blank rating cells *)

(** C3, counterexample.  A bucket with one blank rating cell, under a
    lexicon that has no entry for the blank: the reducer raises [KeyError]
    instead of leaving the cell out of the mean. *)
Lemma blank_rating_raises :
  loc_get demo_bucket_blank 1 "Effort" = Ok NaN
  /\ average_ratings demo_bucket_blank demo_pe_cols demo_lexicon = Err KeyError.
Proof. split; reflexivity. Qed.

(** C3, as amended.  Every rating cell of a bucket, a blank one included, is
    resolved through the lexicon and none is left out: one cell without an
    entry makes the reducer raise an error, and when every cell has an entry
    each rating column is converted to as many numbers as the bucket has
    rows. *)
Theorem rating_cells_all_resolved (map_points : lexicon) (pe_cols : PeCols)
    (eval_df : DataFrame) :
  NoDup (pe_rating pe_cols) ->
  (forall c, c ∈ pe_rating pe_cols -> exists vs, col_values eval_df c = Ok vs) ->
  ((exists c vs v, c ∈ pe_rating pe_cols /\ col_values eval_df c = Ok vs
                   /\ v ∈ vs /\ has_entry map_points v = false) ->
   exists e, average_ratings eval_df pe_cols map_points = Err e)
  /\ ((forall c vs v, c ∈ pe_rating pe_cols -> col_values eval_df c = Ok vs ->
         v ∈ vs -> has_entry map_points v = true) ->
      exists sel ratings,
        select eval_df (pe_rating pe_cols) = Ok sel
        /\ convert_ratings map_points sel = Ok ratings
        /\ forall c vs, c ∈ pe_rating pe_cols -> col_values eval_df c = Ok vs ->
             exists xs,
               length xs = length (rows eval_df)
               /\ Forall2 (fun v x => lex_get map_points v = Ok x) vs xs
               /\ col_values ratings c = Ok (map Num xs)).
Proof.
  intros Hnd Hcols. split.
  - intros (c & vs & v & Hc & Hvs & Hv & Hno).
    destruct (select_Ok eval_df (pe_rating pe_cols) Hcols)
      as (sel & Hsel & Hsc & _ & Hlen & Hcol).
    assert (Hwf : wf_df sel) by (split; rewrite Hsc; assumption).
    assert (Hex : Exists (Exists (fun v => has_entry map_points v = false))
                         (rows sel)).
    { apply list_elem_of_lookup_1 in Hc as [k Hk].
      apply list_elem_of_lookup_1 in Hv as [i Hi].
      destruct (Forall2_lookup_r _ _ _ _ _ (Hcol k c vs Hk Hvs) Hi)
        as (r & Hr & Hrv).
      apply Exists_exists. exists r.
      split; [eapply list_elem_of_lookup_2, Hr|].
      apply Exists_exists. exists v.
      split; [eapply list_elem_of_lookup_2, Hrv | exact Hno]. }
    pose proof (proj1 (convert_ratings_rows_shape map_points sel Hwf) Hex)
      as Hfail.
    unfold average_ratings.
    destruct (foldM (combine_comments eval_df) (pe_comments pe_cols) _)
      as [avgs|e]; run; [|eauto].
    rewrite Hsel. run. rewrite Hfail. run. eauto.
  - intros Hall.
    destruct (ratings_columns map_points eval_df (pe_rating pe_cols) Hnd)
      as (sel & ratings & Hsel & Hconv & Hout).
    { intros c Hc. destruct (Hcols c Hc) as [vs Hvs]. exists vs.
      split; [exact Hvs|]. apply Forall_forall. intros v Hv.
      by apply (Hall c vs v). }
    exists sel, ratings. split; [exact Hsel|]. split; [exact Hconv|].
    intros c vs Hc Hvs. destruct (Hout c vs Hc Hvs) as (xs & Hxs & Hcol).
    exists xs. split; [|by split].
    rewrite <- (Forall2_length _ _ _ Hxs). by apply col_values_length in Hvs.
Qed.

Lemma rating_cells_all_resolved_witness :
  exists e, average_ratings demo_bucket_blank demo_pe_cols demo_lexicon = Err e.
Proof.
  apply (proj1 (rating_cells_all_resolved demo_lexicon demo_pe_cols
                  demo_bucket_blank
                  ltac:(apply (bool_decide_unpack _); reflexivity)
                  ltac:(intros c Hc; apply list_elem_of_singleton in Hc as ->;
                        eexists; reflexivity))).
  exists "Effort", [Str "Good"; NaN], NaN.
  split; [by apply list_elem_of_singleton|]. split; [reflexivity|].
  split; [by right; left | reflexivity].
Defined.

(** ** The store model computes the pure functions *)

Ltac run_st :=
  repeat (progress (unfold mbind, mret, Heap.ST_bind, Heap.ST_ret, Heap.lift,
                    result_bind, result_ret; cbn beta iota)).

Lemma heap_write_Ok (σ : Heap.store) r df df' :
  σ !! r = Some df -> Heap.write r df' σ = Ok (tt, <[r := df']> σ).
Proof.
  intros H. unfold Heap.write. apply lookup_lt_Some in H.
  destruct (Nat.ltb_spec r (length σ)); [reflexivity | lia].
Qed.

Lemma heap_read_Ok (σ : Heap.store) r df :
  σ !! r = Some df -> Heap.read r σ = Ok (df, σ).
Proof. intros H. unfold Heap.read. rewrite H. reflexivity. Qed.

(** A loop whose body updates one object in place is a fold over the
    content of that object. *)
Lemma for_each_update {A} (ra : Heap.ref)
    (f : DataFrame -> A -> result DataFrame) (body : A -> Heap.ST unit)
    (Inv : Heap.store -> Prop) (l : list A) :
  (forall σ df', Inv σ -> Inv (<[ra := df']> σ)) ->
  (forall a σ df, Inv σ -> σ !! ra = Some df ->
     body a σ = match f df a with
                | Ok df' => Ok (tt, <[ra := df']> σ)
                | Err e => Err e
                end) ->
  forall σ df, Inv σ -> σ !! ra = Some df ->
    Heap.for_each body l σ
    = match foldM f l df with
      | Ok df' => Ok (tt, <[ra := df']> σ)
      | Err e => Err e
      end.
Proof.
  intros Hinv Hbody. induction l as [|a l IH]; intros σ df HI Hra.
  - simpl. by rewrite list_insert_id.
  - cbn [Heap.for_each foldM]. run_st. rewrite (Hbody a σ df HI Hra).
    destruct (f df a) as [df1|e]; run_st; [|reflexivity].
    rewrite (IH (<[ra := df1]> σ) df1).
    + destruct (foldM f l df1); [|reflexivity].
      by rewrite list_insert_insert_eq.
    + by apply Hinv.
    + apply list_lookup_insert_eq. eapply lookup_lt_Some, Hra.
Qed.

Lemma heap_convert_cell map_points (ra : Heap.ref) i c (σ : Heap.store) df :
  σ !! ra = Some df ->
  (v ← Heap.loc_get_at ra i c;
   p ← Heap.lift (lex_get map_points v);
   Heap.loc_set_at ra i c (Num p)) σ
  = match convert_cell map_points df i c with
    | Ok df' => Ok (tt, <[ra := df']> σ)
    | Err e => Err e
    end.
Proof.
  intros Hra. unfold Heap.loc_get_at, Heap.loc_set_at, convert_cell. run_st.
  rewrite (heap_read_Ok _ _ _ Hra). run_st.
  destruct (loc_get df i c) as [v|e]; run_st; [|reflexivity].
  destruct (lex_get map_points v) as [p|e]; run_st; [|reflexivity].
  rewrite (heap_read_Ok _ _ _ Hra). run_st.
  destruct (loc_set df i c (Num p)) as [df'|e]; run_st; [|reflexivity].
  eapply heap_write_Ok, Hra.
Qed.

Lemma heap_convert_ratings map_points (r : Heap.ref) (σ : Heap.store) df :
  σ !! r = Some df ->
  Heap.convert_ratings map_points r σ
  = match convert_ratings map_points df with
    | Ok out => Ok (length σ, σ ++ [out])
    | Err e => Err e
    end.
Proof.
  intros Hr. unfold Heap.convert_ratings, Heap.copy. run_st.
  rewrite (heap_read_Ok _ _ _ Hr). run_st. unfold Heap.alloc at 1. run_st.
  assert (Hra : (σ ++ [df]) !! length σ = Some df) by by apply list_lookup_middle.
  rewrite (heap_read_Ok _ _ _ Hra). run_st.
  rewrite (for_each_update (length σ)
             (fun d i => foldM (fun d c => convert_cell map_points d i c)
                               (columns df) d)
             _ (fun _ => True) _ (fun _ _ _ => I)) with (df := df);
    [|intros i σ' d _ Hd|exact I|exact Hra].
  - unfold convert_ratings.
    destruct (foldM _ (seq 0 (length (rows df))) df) as [out|e]; run_st;
      [|reflexivity].
    do 2 f_equal. rewrite <- (Nat.add_0_r (length σ)), insert_app_r.
    reflexivity.
  - apply (for_each_update (length σ)
             (fun d c => convert_cell map_points d i c)
             _ (fun _ => True) _ (fun _ _ _ => I)); [|exact I|exact Hd].
    intros c σ'' d' _ Hd'. by apply heap_convert_cell.
Qed.

Lemma insert_at_end {A} (l : list A) x y k :
  <[length l := y]> (l ++ x :: k) = l ++ y :: k.
Proof.
  rewrite <- (Nat.add_0_r (length l)), insert_app_r. reflexivity.
Qed.

Lemma heap_combine_comments (r ra : Heap.ref) c (σ : list DataFrame) df avgs :
  σ !! r = Some df -> σ !! ra = Some avgs ->
  (comments ← Heap.getitem_col r c;
   let comments := filter (fun c => negb (py_in c NA_LIST)) comments in
   texts ← Heap.lift (traverse as_text comments);
   Heap.setitem_col ra c (Str (PyStr.join " | " texts))) σ
  = match combine_comments df avgs c with
    | Ok avgs' => Ok (tt, <[ra := avgs']> σ)
    | Err e => Err e
    end.
Proof.
  intros Hr Hra. unfold Heap.getitem_col, Heap.setitem_col, combine_comments.
  run_st. rewrite (heap_read_Ok _ _ _ Hr). run_st.
  destruct (col_values df c) as [vs|e]; run_st; [|reflexivity].
  destruct (traverse as_text _) as [texts|e]; run_st; [|reflexivity].
  rewrite (heap_read_Ok _ _ _ Hra). run_st. eapply heap_write_Ok, Hra.
Qed.

Lemma heap_average_column (rr ra : Heap.ref) c (σ : list DataFrame)
    ratings avgs :
  σ !! rr = Some ratings -> σ !! ra = Some avgs ->
  (vals ← Heap.getitem_col rr c;
   data ← Heap.lift (traverse as_number vals);
   m ← Heap.lift (Stats.mean data);
   _ ← Heap.setitem_col ra (c +:+ " (avg)") (Num (Stats.round2 (Stats.Rat m)));
   n ← Heap.loc_get_at ra 0 "PE: N";
   if cell_eqb n (Num 1) then Heap.setitem_col ra (c +:+ " (std)") NaN
   else
     s ← Heap.lift (Stats.stdev data);
     Heap.setitem_col ra (c +:+ " (std)") (Num (Stats.round2 s))) σ
  = match average_column ratings avgs c with
    | Ok avgs' => Ok (tt, <[ra := avgs']> σ)
    | Err e => Err e
    end.
Proof.
  intros Hrr Hra.
  unfold Heap.getitem_col, Heap.setitem_col, Heap.loc_get_at, average_column.
  run_st. rewrite (heap_read_Ok _ _ _ Hrr). run_st.
  destruct (col_values ratings c) as [vals|e]; run_st; [|reflexivity].
  destruct (traverse as_number vals) as [data|e]; run_st; [|reflexivity].
  destruct (Stats.mean data) as [m|e]; run_st; [|reflexivity].
  rewrite (heap_read_Ok _ _ _ Hra). run_st.
  rewrite (heap_write_Ok _ _ _ _ Hra). run_st.
  set (avgs1 := set_col avgs (c +:+ " (avg)") (Num (Stats.round2 (Stats.Rat m)))).
  assert (Hra1 : <[ra := avgs1]> σ !! ra = Some avgs1).
  { apply list_lookup_insert_eq. eapply lookup_lt_Some, Hra. }
  rewrite (heap_read_Ok _ _ _ Hra1). run_st.
  destruct (loc_get avgs1 0 "PE: N") as [n|e]; run_st; [|reflexivity].
  destruct (cell_eqb n (Num 1)).
  - rewrite (heap_read_Ok _ _ _ Hra1). run_st.
    rewrite (heap_write_Ok _ _ _ _ Hra1), list_insert_insert_eq. reflexivity.
  - destruct (Stats.stdev data) as [s|e]; run_st; [|reflexivity].
    rewrite (heap_read_Ok _ _ _ Hra1). run_st.
    rewrite (heap_write_Ok _ _ _ _ Hra1), list_insert_insert_eq. reflexivity.
Qed.

(** The store version of [average_ratings] returns a new object holding the
    result of the pure function on the content of the bucket, and leaves
    every object of the store as it was. *)
Lemma heap_average_ratings pe_cols map_points (r : Heap.ref)
    (σ : list DataFrame) df :
  σ !! r = Some df ->
  Heap.average_ratings r pe_cols map_points σ
  = match average_ratings df pe_cols map_points with
    | Ok avgs =>
        Ok (length σ, σ ++ avgs :: temporaries df pe_cols map_points)
    | Err e => Err e
    end.
Proof.
  intros Hr. assert (Hlt : (r < length σ)%nat) by eapply lookup_lt_Some, Hr.
  unfold Heap.average_ratings, average_ratings, temporaries.
  set (avgs0 := first_row (pe_all pe_cols) "PE: N"
                  (Num (inject_Z (Z.of_nat (length (rows df)))))).
  run_st. rewrite (heap_read_Ok _ _ _ Hr). run_st.
  unfold Heap.alloc at 1. run_st. fold avgs0.
  rewrite (for_each_update (length σ) (combine_comments df) _
             (fun σ' : list DataFrame => σ' !! r = Some df)
             (pe_comments pe_cols)) with (df := avgs0).
  2:{ intros σ' d' H. rewrite list_lookup_insert_ne by lia. exact H. }
  2:{ intros c σ' d H Hd.
      exact (heap_combine_comments r (length σ) c σ' df d H Hd). }
  2:{ by apply lookup_app_l_Some. }
  2:{ by apply list_lookup_middle. }
  destruct (foldM (combine_comments df) (pe_comments pe_cols) avgs0)
    as [avgs1|e]; run_st; [|reflexivity].
  rewrite (insert_at_end σ avgs0 avgs1 []).
  unfold Heap.getitem_cols. run_st.
  rewrite (heap_read_Ok (σ ++ [avgs1]) r df) by by apply lookup_app_l_Some.
  run_st. destruct (select df (pe_rating pe_cols)) as [sel|e]; run_st;
    [|reflexivity].
  unfold Heap.alloc at 1. run_st.
  rewrite (heap_convert_ratings map_points _ _ sel)
    by by apply list_lookup_middle.
  destruct (convert_ratings map_points sel) as [ratings|e]; run_st;
    [|reflexivity].
  set (σ4 := ((σ ++ [avgs1]) ++ [sel]) ++ [ratings]).
  set (rr := length ((σ ++ [avgs1]) ++ [sel])).
  assert (Hσ4 : σ4 = σ ++ avgs1 :: [sel; ratings])
    by (unfold σ4; by rewrite <- !app_assoc).
  assert (Hrr : σ4 !! rr = Some ratings) by by apply list_lookup_middle.
  assert (Hne : length σ <> rr)
    by (unfold rr; rewrite !length_app; simpl; lia).
  rewrite (for_each_update (length σ) (average_column ratings) _
             (fun σ' : list DataFrame => σ' !! rr = Some ratings)
             (pe_rating pe_cols)) with (df := avgs1).
  2:{ intros σ' d' H. rewrite list_lookup_insert_ne by exact Hne. exact H. }
  2:{ intros c σ' d H Hd.
      exact (heap_average_column rr (length σ) c σ' ratings d H Hd). }
  2:{ exact Hrr. }
  2:{ rewrite Hσ4. by apply list_lookup_middle. }
  destruct (foldM (average_column ratings) (pe_rating pe_cols) avgs1)
    as [avgs|e]; run_st; [|reflexivity].
  rewrite Hσ4, insert_at_end. reflexivity.
Qed.

Lemma heap_returned pe_cols map_points (r : Heap.ref) (σ : list DataFrame) df :
  σ !! r = Some df ->
  Heap.returned (Heap.average_ratings r pe_cols map_points σ)
  = average_ratings df pe_cols map_points.
Proof.
  intros Hr. rewrite (heap_average_ratings _ _ _ _ _ Hr).
  destruct (average_ratings df pe_cols map_points) as [avgs|e];
    [|reflexivity].
  unfold Heap.returned. by rewrite list_lookup_middle.
Qed.

(** C8.  The reducer is a pure function of the bucket it is given: what it
    returns depends on the content of the bucket alone, a second call on the
    same bucket returns the same frame, and no call changes the bucket (or
    any other frame that existed before the call). *)
Theorem average_ratings_pure_function (pe_cols : PeCols)
    (map_points : lexicon) (r : Heap.ref) (σ : list DataFrame)
    (df : DataFrame) :
  σ !! r = Some df ->
  Heap.returned (Heap.average_ratings r pe_cols map_points σ)
  = average_ratings df pe_cols map_points
  /\ forall out σ',
       Heap.average_ratings r pe_cols map_points σ = Ok (out, σ') ->
       (forall r0 d0, σ !! r0 = Some d0 -> σ' !! r0 = Some d0)
       /\ Heap.returned (Heap.average_ratings r pe_cols map_points σ')
          = Heap.returned (Heap.average_ratings r pe_cols map_points σ).
Proof.
  intros Hr. split; [by apply heap_returned|].
  intros out σ' Hrun.
  assert (Hkeep : forall r0 d0, σ !! r0 = Some d0 -> σ' !! r0 = Some d0).
  { rewrite (heap_average_ratings _ _ _ _ _ Hr) in Hrun.
    destruct (average_ratings df pe_cols map_points) as [avgs|e];
      [|discriminate].
    injection Hrun as _ <-. intros r0 d0 H0. by apply lookup_app_l_Some. }
  split; [exact Hkeep|].
  rewrite (heap_returned _ _ _ _ _ Hr).
  apply heap_returned, Hkeep, Hr.
Qed.

Lemma average_ratings_pure_function_witness :
  [demo_bucket2] !! 0%nat = Some demo_bucket2
  /\ Heap.returned
       (Heap.average_ratings 0 demo_pe_cols demo_lexicon [demo_bucket2])
     = average_ratings demo_bucket2 demo_pe_cols demo_lexicon.
Proof.
  split; [reflexivity|].
  apply (average_ratings_pure_function demo_pe_cols demo_lexicon 0
           [demo_bucket2] demo_bucket2).
  reflexivity.
Defined.

Example heap_scenario_B :
  Heap.average_ratings 0 demo_pe_cols demo_lexicon [demo_bucket2]
  = Ok (1%nat,
        [demo_bucket2;
         mkDF ["PE: N"; "Comments"; "Effort (avg)"; "Effort (std)"]
              [[Num 2; Str "helpful"; Num (9 # 2); Num (71 # 100)]];
         mkDF ["Effort"] [[Str "Good"]; [Str "Excellent"]];
         mkDF ["Effort"] [[Num 4]; [Num 5]]]).
Proof. vm_compute. reflexivity. Qed.

(** ** The discrepancy calculator *)

Lemma traverse_at_pos_insert (rws : list (list cell)) vs j j' :
  j <> j' -> length vs = length rws ->
  traverse (fun r => at_pos r j') (zip_with (fun r v => <[j := v]> r) rws vs)
  = traverse (fun r => at_pos r j') rws.
Proof.
  intros Hne. revert vs.
  induction rws as [|r rws IH]; intros [|v vs] Hlen; try done.
  cbn [zip_with traverse].
  assert (Hat : at_pos (<[j := v]> r) j' = at_pos r j')
    by (unfold at_pos; by rewrite list_lookup_insert_ne).
  rewrite Hat, IH by (simpl in Hlen; lia). reflexivity.
Qed.

Lemma traverse_at_pos_snoc (rws : list (list cell)) vs j' n :
  (j' < n)%nat -> Forall (fun r => length r = n) rws ->
  length vs = length rws ->
  traverse (fun r => at_pos r j') (zip_with (fun r v => r ++ [v]) rws vs)
  = traverse (fun r => at_pos r j') rws.
Proof.
  intros Hj Hrect. revert vs.
  induction Hrect as [|r rws Hr _ IH]; intros [|v vs] Hlen; try done.
  cbn [zip_with traverse].
  assert (Hat : at_pos (r ++ [v]) j' = at_pos r j')
    by (unfold at_pos; rewrite lookup_app_l by lia; reflexivity).
  rewrite Hat, IH by (simpl in Hlen; lia). reflexivity.
Qed.

Lemma col_values_setitem_ne df c c' vs :
  Forall (fun r => length r = length (columns df)) (rows df) ->
  length vs = length (rows df) -> c' <> c ->
  col_values (setitem_series df c vs) c' = col_values df c'.
Proof.
  intros Hrect Hlen Hne. unfold col_values, setitem_series, col_pos.
  destruct (col_find c (columns df)) as [j|] eqn:Hj; run.
  - destruct (col_find c' (columns df)) as [j'|] eqn:Hj'; run; [|reflexivity].
    apply traverse_at_pos_insert; [|exact Hlen].
    intros ->. apply col_find_Some in Hj, Hj'. congruence.
  - rewrite col_find_snoc.
    destruct (col_find c' (columns df)) as [j'|] eqn:Hj'; run.
    + eapply traverse_at_pos_snoc; [eapply col_find_lt, Hj' | exact Hrect
                                    | exact Hlen].
    + destruct (String.eqb_spec c' c); [contradiction | reflexivity].
Qed.

Lemma col_values_setitem_eq df c vs :
  Forall (fun r => length r = length (columns df)) (rows df) ->
  length vs = length (rows df) ->
  col_values (setitem_series df c vs) c = Ok vs.
Proof.
  intros Hrect Hlen. apply col_values_Ok. unfold setitem_series.
  destruct (col_find c (columns df)) as [j|] eqn:Hj; run.
  - exists j. split; [exact Hj|]. apply col_find_lt in Hj.
    revert vs Hlen. induction Hrect as [|r rws Hr _ IH]; intros [|v vs] Hlen;
      try done; try (by constructor).
    cbn [zip_with]. constructor; [|apply IH; simpl in Hlen; lia].
    apply list_lookup_insert_eq. lia.
  - exists (length (columns df)). split.
    + by rewrite col_find_snoc, Hj, String.eqb_refl.
    + revert vs Hlen.
      induction Hrect as [|r rws Hr _ IH]; intros [|v vs] Hlen;
        try done; try (by constructor).
      cbn [zip_with]. constructor; [|apply IH; simpl in Hlen; lia].
      rewrite <- Hr. by apply list_lookup_middle.
Qed.

Lemma setitem_series_rect df c vs :
  Forall (fun r => length r = length (columns df)) (rows df) ->
  length vs = length (rows df) ->
  Forall (fun r => length r = length (columns (setitem_series df c vs)))
         (rows (setitem_series df c vs))
  /\ length (rows (setitem_series df c vs)) = length (rows df).
Proof.
  intros Hrect Hlen. unfold setitem_series.
  destruct (col_find c (columns df)) as [j|]; run.
  - split; [|by rewrite length_zip_with, Hlen, Nat.min_id].
    revert vs Hlen. induction Hrect as [|r rws Hr _ IH]; intros [|v vs] Hlen;
      try done; try (by constructor); cbn [zip_with]; constructor.
    + by rewrite length_insert.
    + apply IH. simpl in Hlen. lia.
  - split; [|by rewrite length_zip_with, Hlen, Nat.min_id].
    revert vs Hlen. induction Hrect as [|r rws Hr _ IH]; intros [|v vs] Hlen;
      try done; try (by constructor); cbn [zip_with]; constructor.
    + rewrite !length_app, Hr. reflexivity.
    + apply IH. simpl in Hlen. lia.
Qed.

Lemma series_sub_spec xs ys :
  Forall number_or_missing xs -> Forall number_or_missing ys ->
  length xs = length ys ->
  exists d, series_sub xs ys = Ok d
            /\ Forall3 is_difference xs ys d /\ length d = length xs.
Proof.
  intros Hx. revert ys. induction Hx as [|x xs Hx _ IH]; intros ys Hy Hlen.
  - destruct ys; [|discriminate]. exists []. repeat split. constructor.
  - destruct ys as [|y ys]; [discriminate|].
    apply Forall_cons in Hy as [Hy Hys].
    destruct (IH ys Hys) as (d & Hd & H3 & Hl); [simpl in Hlen; lia|].
    unfold series_sub in *. cbn [zip zip_with traverse fst snd].
    rewrite Hd.
    destruct x as [|?|a], y as [|?|b]; try contradiction; run;
      eexists; (split; [reflexivity|]);
      (split; [constructor; [reflexivity | exact H3] | simpl; lia]).
Qed.

Lemma prefix_inj p a b : p +:+ a = p +:+ b -> a = b.
Proof.
  induction p as [|x p IH]; [exact id|].
  change (String x (p +:+ a) = String x (p +:+ b) -> a = b).
  intros [= H]. by apply IH.
Qed.

Lemma diff_label_not_self a b : "SE-PE: " +:+ a <> "SE: " +:+ b.
Proof. discriminate. Qed.

Lemma diff_fold order :
  forall gb,
    NoDup order -> roster_ok order gb ->
    exists gb',
      foldM diff_step order gb = Ok gb'
      /\ (forall c se pe, c ∈ order ->
            col_values gb ("SE: " +:+ c) = Ok se ->
            col_values gb (c +:+ " (avg)") = Ok pe ->
            exists d, col_values gb' ("SE-PE: " +:+ c) = Ok d
                      /\ Forall3 is_difference se pe d)
      /\ (forall l, (forall c, c ∈ order -> l <> "SE-PE: " +:+ c) ->
            col_values gb' l = col_values gb l).
Proof.
  induction order as [|c order IH]; intros gb Hnd [Hrect Hlab Hcols].
  - exists gb. split; [reflexivity|]. split; [|reflexivity].
    intros c se pe Hc. by apply elem_of_nil in Hc.
  - apply NoDup_cons in Hnd as [Hc Hnd].
    destruct (Hcols c) as (se & pe & Hse & Hpe & Hnse & Hnpe); [by left|].
    pose proof (col_values_length _ _ _ Hse) as Hlse.
    pose proof (col_values_length _ _ _ Hpe) as Hlpe.
    destruct (series_sub_spec se pe Hnse Hnpe) as (d & Hd & H3 & Hld);
      [congruence|].
    assert (Hldr : length d = length (rows gb)) by congruence.
    set (gb1 := setitem_series gb ("SE-PE: " +:+ c) d).
    destruct (setitem_series_rect gb ("SE-PE: " +:+ c) d Hrect Hldr)
      as [Hrect1 Hrows1]. fold gb1 in Hrect1, Hrows1.
    assert (Hkeep : forall l, l <> "SE-PE: " +:+ c ->
                      col_values gb1 l = col_values gb l).
    { intros l Hl. by apply col_values_setitem_ne. }
    assert (Hstep : diff_step gb c = Ok gb1).
    { unfold diff_step. rewrite Hse. run. rewrite Hpe. run.
      rewrite Hd. reflexivity. }
    destruct (IH gb1 Hnd) as (gb' & Hrun & Hres & Hframe).
    { split; [exact Hrect1| |].
      - intros a b Ha Hb. apply Hlab; by right.
      - intros c' Hc'. destruct (Hcols c') as (se' & pe' & H1 & H2 & H3' & H4);
          [by right|].
        exists se', pe'. rewrite !Hkeep; [done| |].
        + apply not_eq_sym, Hlab; [by left | by right].
        + apply not_eq_sym, diff_label_not_self. }
    exists gb'. split; [cbn [foldM]; rewrite Hstep; exact Hrun|]. split.
    + intros c' se' pe' Hc' Hse' Hpe'. apply elem_of_cons in Hc' as [->|Hc'].
      * assert (se' = se) as -> by congruence.
        assert (pe' = pe) as -> by congruence.
        exists d. split; [|exact H3]. rewrite Hframe.
        -- by apply col_values_setitem_eq.
        -- intros c' Hc' Heq. apply prefix_inj in Heq. by subst.
      * assert (H1 : "SE: " +:+ c' <> "SE-PE: " +:+ c)
          by apply not_eq_sym, diff_label_not_self.
        assert (H2 : c' +:+ " (avg)" <> "SE-PE: " +:+ c)
          by (apply not_eq_sym, Hlab; [by left | by right]).
        apply Hres; [exact Hc'| |]; by rewrite Hkeep.
    + intros l Hl. rewrite Hframe.
      * apply Hkeep, Hl. by left.
      * intros c' Hc'. apply Hl. by right.
Qed.

(** C7.  For every rating category present both in the self-evaluation
    schema and in the peer-evaluation schema, the calculator writes, under
    the label prefixed with the self-minus-peer tag, the self value minus the
    peer average of every roster record, and the missing marker wherever one
    of the two is missing. *)
Theorem calc_differences_spec (order : list string) (grade_book : DataFrame)
    (survey_map : list SchemaEntry) :
  is_match_cols survey_map order ->
  roster_ok order grade_book ->
  differences_written order grade_book survey_map.
Proof.
  intros (Hnd & fp & Hfp & Hiff) Hok.
  destruct (diff_fold order grade_book Hnd Hok) as (gb' & Hrun & Hres & _).
  exists gb'. split.
  - unfold calc_differences. rewrite Hfp. exact Hrun.
  - intros fp' c Hfp' Hse Hpe. assert (fp' = fp) as -> by congruence.
    assert (Hc : c ∈ order) by by apply Hiff.
    destruct (roster_columns _ _ Hok c Hc) as (se & pe & H1 & H2 & _).
    destruct (Hres c se pe Hc H1 H2) as (d & Hd & H3).
    exists se, pe, d. done.
Qed.

Lemma demo_match_cols : is_match_cols demo_schema ["Effort"].
Proof.
  split; [apply (bool_decide_unpack _); reflexivity|].
  exists "peer1". split; [reflexivity|]. intros c.
  change (find_columns demo_schema "self" "rating" newhead_col None None)
    with ["Effort"].
  change (find_columns demo_schema "peer1" "rating" newhead_col None None)
    with ["Effort"].
  tauto.
Qed.

Lemma demo_roster_scored_ok : roster_ok ["Effort"] demo_roster_scored.
Proof.
  split.
  - repeat constructor.
  - intros a b Ha Hb. apply list_elem_of_singleton in Ha as ->.
    apply list_elem_of_singleton in Hb as ->. discriminate.
  - intros c Hc. apply list_elem_of_singleton in Hc as ->.
    do 2 eexists. split; [reflexivity|]. split; [reflexivity|].
    split; repeat constructor.
Qed.

Lemma calc_differences_spec_witness :
  is_match_cols demo_schema ["Effort"]
  /\ roster_ok ["Effort"] demo_roster_scored
  /\ differences_written ["Effort"] demo_roster_scored demo_schema.
Proof.
  split; [exact demo_match_cols|]. split; [exact demo_roster_scored_ok|].
  apply (calc_differences_spec ["Effort"] demo_roster_scored demo_schema).
  - exact demo_match_cols.
  - exact demo_roster_scored_ok.
Defined.

Example calc_differences_demo :
  calc_differences ["Effort"] demo_roster_scored demo_schema
  = Ok (mkDF ["Name"; "SIS Login ID"; "SE: Effort"; "Effort (avg)";
              "SE-PE: Effort"]
             [[Str "Jane Doe"; Str "jdoe"; Num 5; Num (9 # 2); Num (1 # 2)];
              [Str "Ravi Patel"; Str "rpatel"; Num 4; NaN; NaN];
              [Str "Ana Lima"; Str "alima"; NaN; Num 3; NaN]]).
Proof. vm_compute. reflexivity. Qed.

(** * The console and [find_student] *)

Lemma io_bind_of {A B} (r : result A) (f : A -> IO B) k :
  (io_of r ≫= f) k = match r with
                     | Ok a => f a k
                     | Err e => Raised e k
                     end.
Proof. destruct r; reflexivity. Qed.

Lemma quiet_io_of {A} (r : result A) : quiet (io_of r).
Proof. intros k. destruct r; [left | right]; eexists; reflexivity. Qed.

Lemma quiet_ret {A} (a : A) : quiet (mret a : IO A).
Proof. intros k. left. eexists. reflexivity. Qed.

Lemma quiet_bind {A B} (m : IO A) (f : A -> IO B) :
  quiet m -> (forall a, quiet (f a)) -> quiet (m ≫= f).
Proof.
  intros Hm Hf k. unfold mbind, IO_bind.
  destruct (Hm k) as [[a ->] | [e ->]]; [apply Hf | right; eauto].
Qed.

Lemma quiet_for_io {A B} (body : B -> A -> IO B) l :
  (forall b a, quiet (body b a)) -> forall b, quiet (for_io body l b).
Proof.
  intros Hb. induction l as [|a l IH]; intros b; simpl.
  - apply quiet_ret.
  - apply quiet_bind; [apply Hb | exact IH].
Qed.

Lemma identifying_frame survey_map df who cat o :
  identifying survey_map (FrameOf df) who cat = Ok o ->
  exists vs, o = Column vs.
Proof.
  unfold identifying, getitem.
  destruct (index _ 0) as [label|]; run; [|discriminate].
  destruct (col_values df label) as [vs|]; run; [|discriminate].
  intros [= <-]. eauto.
Qed.

Lemma find_student_frame_raises (grade_book : DataFrame)
    (survey_map : list SchemaEntry) (df : DataFrame) :
  forall k, exists e,
    find_student grade_book survey_map (FrameOf df) "self" k = Raised e k.
Proof.
  intros k. unfold find_student.
  rewrite io_bind_of.
  destruct (identifying _ _ "self" "section") as [r_section|e]; [|eauto].
  rewrite io_bind_of.
  destruct (identifying _ _ "self" "team") as [r_team|e]; [|eauto].
  rewrite io_bind_of.
  destruct (identifying _ _ "self" "email") as [r_email|e] eqn:He; [|eauto].
  rewrite io_bind_of.
  destruct (identifying _ _ "self" "name") as [r_name|e]; [|eauto].
  rewrite io_bind_of.
  destruct (collect_peer_names _ _) as [peer_names|e]; [|eauto].
  apply identifying_frame in He as [vs ->].
  change (String.eqb "self" "self") with true. cbn iota.
  rewrite io_bind_of. eauto.
Qed.

(** On the rows selected by a mask [find_student] cannot get to its prompt:
    every value it reads is a column, and a column fails the test against
    [NA_LIST], or, without peer slots, the call of [split_email]. *)
Theorem find_student_on_frame (grade_book : DataFrame)
    (survey_map : list SchemaEntry) (df : DataFrame) :
  forall k, exists e,
    find_student grade_book survey_map (FrameOf df) "self" k = Raised e k.
Proof. apply find_student_frame_raises. Qed.

Lemma self_eval_row_frame survey_results survey_map email eval_row :
  self_eval_row survey_results survey_map email = Ok eval_row ->
  exists df, eval_row = FrameOf df.
Proof.
  unfold self_eval_row.
  destruct (index _ 0) as [label|]; run; [|discriminate].
  destruct (col_values _ label) as [vs|]; run; [|discriminate].
  intros [= <-]. eauto.
Qed.

Lemma quiet_self_name grade_book survey_results survey_map evals_self
    col_email email :
  quiet (self_name grade_book survey_results survey_map evals_self
                   col_email email).
Proof.
  unfold self_name.
  repeat (apply quiet_bind; [apply quiet_io_of | intros ?]).
  destruct (negb _); [|apply quiet_ret].
  intros k. rewrite io_bind_of.
  destruct (self_eval_row _ _ _) as [eval_row|e] eqn:Hrow; [|right; eauto].
  apply self_eval_row_frame in Hrow as [df ->].
  right. apply find_student_frame_raises.
Qed.

Lemma quiet_self_step survey_results survey_map evals_self col_email
    grade_book email :
  quiet (self_step survey_results survey_map evals_self col_email
                   grade_book email).
Proof.
  unfold self_step.
  repeat (apply quiet_bind; [apply quiet_io_of | intros ?]).
  destruct (py_in _ _); [apply quiet_io_of|].
  apply quiet_bind; [apply quiet_self_name | intros name].
  destruct (negb _); [apply quiet_io_of | apply quiet_ret].
Qed.

(** [process_self_evals] never talks to the operator: whatever the
    inputs, it returns or raises with the console untouched.  The one call
    of [find_student] it makes passes a frame, on which that function
    raises before its prompt. *)
Theorem process_self_evals_never_prompts (grade_book survey_results : DataFrame)
    (survey_map : list SchemaEntry) (map_points : lexicon) (k : console) :
  (exists gb',
     process_self_evals grade_book survey_results survey_map map_points k
     = Returned gb' k)
  \/ (exists e,
        process_self_evals grade_book survey_results survey_map map_points k
        = Raised e k).
Proof.
  revert k. change (quiet (process_self_evals grade_book survey_results
                                              survey_map map_points)).
  unfold process_self_evals.
  apply quiet_bind; [apply quiet_io_of | intros s].
  apply quiet_bind; [|intros gb; apply quiet_io_of].
  apply quiet_for_io. intros gb email. apply quiet_self_step.
Qed.

Lemma unpack1_length {A} (l : list A) :
  length l <> 1%nat -> unpack1 l = Err ValueError.
Proof. destruct l as [|a [|b l]]; simpl; intros H; congruence. Qed.

Lemma filter_none {A} (f : A -> bool) (l : list A) :
  (forall a, a ∈ l -> f a = false) -> List.filter f l = [].
Proof.
  induction l as [|a l IH]; intros H; simpl; [reflexivity|].
  rewrite (H a) by constructor. apply IH. intros b Hb. apply H.
  by constructor.
Qed.

Lemma no_peer_slot survey_map :
  (forall e, e ∈ survey_map -> PyStr.contains "peer" (student e) = false) ->
  first_peer survey_map = Err IndexError.
Proof.
  intros H. unfold first_peer, unique_peers.
  rewrite (filter_none _ _ H). reflexivity.
Qed.

(** A schema without a peer slot stops both the peer processing and the
    difference calculation with an [IndexError], whatever the responses,
    the roster and the categories are. *)
Theorem no_peer_slot_raises (all_peers order : list string)
    (grade_book survey_results : DataFrame) (survey_map : list SchemaEntry)
    (map_points : lexicon) (k : console) :
  (forall e, e ∈ survey_map -> PyStr.contains "peer" (student e) = false) ->
  process_peer_evals all_peers grade_book survey_results survey_map
                     map_points k = Raised IndexError k
  /\ calc_differences order grade_book survey_map = Err IndexError.
Proof.
  intros H. apply no_peer_slot in H. split.
  - unfold process_peer_evals. rewrite io_bind_of.
    unfold peer_setup. rewrite H. reflexivity.
  - unfold calc_differences. rewrite H. reflexivity.
Qed.

Lemma no_peer_slot_raises_witness :
  (forall e, e ∈ demo_schema_self_only ->
             PyStr.contains "peer" (student e) = false)
  /\ process_peer_evals [] demo_roster demo_responses demo_schema_self_only
                        demo_lexicon (mkConsole [] []) = Raised IndexError (mkConsole [] [])
  /\ calc_differences ["Effort"] demo_roster demo_schema_self_only
     = Err IndexError.
Proof.
  assert (H : forall e, e ∈ demo_schema_self_only ->
                        PyStr.contains "peer" (student e) = false).
  { intros e He. unfold demo_schema_self_only in He.
    repeat (apply elem_of_cons in He as [-> | He]; [reflexivity|]).
    by apply elem_of_nil in He. }
  split; [exact H|].
  exact (no_peer_slot_raises [] ["Effort"] demo_roster demo_responses
           demo_schema_self_only demo_lexicon (mkConsole [] []) H).
Defined.

(** * The prompt loop *)

Lemma ask_Returned prompt accept answers : forall out name k',
  ask prompt accept answers out = Returned name k' ->
  exists rejected,
    answers = rejected ++ name :: pending k'
    /\ Forall (fun a => accept a = Ok false) rejected
    /\ accept name = Ok true
    /\ shown k' = out ++ dialogue prompt rejected.
Proof.
  induction answers as [|a rest IH]; intros out name k' H; simpl in H.
  - discriminate.
  - destruct (accept a) as [[|]|e] eqn:Ha; [| |discriminate].
    + injection H as <- <-. exists []. simpl. auto.
    + apply IH in H as (rejected & -> & Hrej & Hname & Hshown).
      exists (a :: rejected). split; [reflexivity|].
      split; [by constructor|]. split; [exact Hname|].
      rewrite Hshown. unfold dialogue. simpl.
      rewrite <- app_assoc. reflexivity.
Qed.

Lemma ask_first_accepted prompt accept rejected name rest : forall out,
  Forall (fun a => accept a = Ok false) rejected ->
  accept name = Ok true ->
  ask prompt accept (rejected ++ name :: rest) out
  = Returned name (mkConsole rest (out ++ dialogue prompt rejected)).
Proof.
  induction rejected as [|a rejected IH]; intros out Hrej Hname; simpl.
  - rewrite Hname. reflexivity.
  - inversion Hrej as [|? ? Ha Hrej']; subst. rewrite Ha.
    rewrite IH by assumption. unfold dialogue. simpl.
    rewrite <- app_assoc. reflexivity.
Qed.

Lemma io_bind_Returned {A B} (m : IO A) (f : A -> IO B) k b k' :
  (m ≫= f) k = Returned b k' ->
  exists a k1, m k = Returned a k1 /\ f a k1 = Returned b k'.
Proof.
  unfold mbind, IO_bind. destruct (m k) as [a k1|e k1|k1]; try discriminate.
  eauto.
Qed.

Lemma io_of_Returned {A} (r : result A) k a k' :
  io_of r k = Returned a k' -> r = Ok a /\ k' = k.
Proof. destruct r; simpl; intros [= -> ->] || discriminate; auto. Qed.

Lemma ask_loop_outcome grade_book prompt answers : forall out,
  loop_outcome grade_book prompt (mkConsole answers out)
    (ask prompt (accepted grade_book) answers out).
Proof.
  induction answers as [|a rest IH]; intros out.
  - simpl. auto.
  - simpl. destruct (accepted grade_book a) as [[|]|e] eqn:Ha.
    + exists []. simpl. auto.
    + specialize (IH (out ++ [prompt; error_str +:+ a])).
      destruct (ask prompt _ rest _) as [name k'|e k'|k']; simpl in *.
      * destruct IH as (rejected & -> & Hrej & Hname & ->).
        exists (a :: rejected). repeat split; auto.
        unfold dialogue. simpl. by rewrite <- app_assoc.
      * destruct IH as (rejected & b & -> & Hrej & Hb & ->).
        exists (a :: rejected), b. repeat split; auto.
        unfold dialogue. simpl. by rewrite <- app_assoc.
      * destruct IH as (Hrej & -> & ->).
        repeat split; auto.
        unfold dialogue. simpl. by rewrite <- app_assoc.
    + exists [], a. simpl. auto.
Qed.

(** [find_student] either raises before it writes anything, with the
    console untouched, or it builds one prompt and loops on it: it then
    returns the first line the operator types that is a roster name or a
    member of [NA_LIST], never a line it turned down, and it waits when no
    such line comes. *)
Theorem find_student_outcome (grade_book : DataFrame)
    (survey_map : list SchemaEntry) (eval_row : EvalRow) (student : string)
    (k : console) :
  (exists e,
     find_student grade_book survey_map eval_row student k = Raised e k)
  \/ (exists prompt,
        loop_outcome grade_book prompt k
          (find_student grade_book survey_map eval_row student k)).
Proof.
  unfold find_student.
  rewrite io_bind_of.
  destruct (identifying _ _ "self" "section") as [r_section|e]; [|eauto].
  rewrite io_bind_of.
  destruct (identifying _ _ "self" "team") as [r_team|e]; [|eauto].
  rewrite io_bind_of.
  destruct (identifying _ _ "self" "email") as [r_email|e]; [|eauto].
  rewrite io_bind_of.
  destruct (identifying _ _ "self" "name") as [r_name|e]; [|eauto].
  rewrite io_bind_of.
  destruct (collect_peer_names _ _) as [peer_names|e]; [|eauto].
  destruct (String.eqb student "self"); rewrite io_bind_of.
  - destruct (self_prompt _ _ _ _) as [prompt|e]; [|eauto].
    right. exists prompt. destruct k as [answers out].
    apply ask_loop_outcome.
  - destruct (peer_prompt _ _ _ _ _) as [prompt|e]; [|eauto].
    right. exists prompt. destruct k as [answers out].
    apply ask_loop_outcome.
Qed.

(** * The buckets of [process_peer_evals] *)

Lemma cell_same_refl c : cell_same c c = true.
Proof.
  destruct c as [|s|q]; simpl; [reflexivity | apply String.eqb_refl|].
  apply Qeq_bool_iff. reflexivity.
Qed.

Lemma cell_same_trans a b c :
  cell_same a b = true -> cell_same c a = cell_same c b.
Proof.
  destruct a as [|s|p], b as [|t|q]; simpl; try discriminate; try reflexivity.
  - intros ->%String.eqb_eq. reflexivity.
  - intros Hpq%Qeq_bool_iff. destruct c as [|u|r]; simpl; try reflexivity.
    destruct (Qeq_bool r p) eqn:Hrp, (Qeq_bool r q) eqn:Hrq; try reflexivity.
    + apply Qeq_bool_iff in Hrp. apply Qeq_bool_neq in Hrq.
      exfalso. apply Hrq. by rewrite Hrp.
    + apply Qeq_bool_iff in Hrq. apply Qeq_bool_neq in Hrp.
      exfalso. apply Hrp. by rewrite Hrq, Hpq.
Qed.

Lemma dict_get_keys d c :
  (exists df, dict_get d c = Ok df) <-> py_in c (keys d) = true.
Proof.
  unfold dict_get, py_in, keys. induction d as [|e d IH]; simpl.
  - split; [intros [? [=]] | discriminate].
  - destruct (cell_same c (fst e)); simpl; [|exact IH].
    split; eauto.
Qed.

Lemma dict_get_KeyError d c :
  py_in c (keys d) = false -> dict_get d c = Err KeyError.
Proof.
  intros H. destruct (dict_get d c) as [df|e] eqn:Hd.
  - assert (py_in c (keys d) = true) by (apply dict_get_keys; eauto).
    congruence.
  - unfold dict_get in *. destruct (find _ d); congruence.
Qed.

Lemma keys_dict_set_present d c v :
  py_in c (keys d) = true -> keys (dict_set d c v) = keys d.
Proof.
  unfold py_in, keys. induction d as [|e d IH]; simpl; [discriminate|].
  destruct (cell_same c (fst e)); simpl; [reflexivity|].
  intros H. by rewrite IH.
Qed.

Lemma py_in_keys_dict_set d c v x :
  py_in x (keys (dict_set d c v)) = cell_same x c || py_in x (keys d).
Proof.
  unfold py_in, keys. induction d as [|e d IH]; simpl.
  - by rewrite orb_false_r.
  - destruct (cell_same c (fst e)) eqn:Hc; simpl.
    + rewrite (cell_same_trans _ _ x Hc).
      by destruct (cell_same x (fst e)).
    + rewrite IH. by destruct (cell_same x (fst e)), (cell_same x c).
Qed.

Lemma py_in_keys_init (v : DataFrame) names x : forall d,
  py_in x (keys (fold_left (fun d s => dict_set d s v) names d))
  = py_in x names || py_in x (keys d).
Proof.
  induction names as [|n names IH]; intros d; simpl; [reflexivity|].
  rewrite IH, py_in_keys_dict_set.
  change (py_in x (n :: names)) with (cell_same x n || py_in x names).
  by destruct (cell_same x n), (py_in x names), (py_in x (keys d)).
Qed.

Lemma peer_step_keys grade_book survey_results survey_map evals_peer
    col_peername compiled peer_eval k compiled' k' :
  peer_step grade_book survey_results survey_map evals_peer col_peername
            compiled peer_eval k = Returned compiled' k' ->
  keys compiled' = keys compiled.
Proof.
  unfold peer_step. intros H.
  apply io_bind_Returned in H as (name & k1 & [_ ->]%io_of_Returned & H).
  cbn beta in H.
  destruct (py_in name NA_LIST); [by injection H as <- _|].
  apply io_bind_Returned in H as (name' & k2 & _ & H). cbn beta in H.
  destruct (cell_eqb name' (Str "NA")); [by injection H as <- _|].
  apply io_of_Returned in H as [H _].
  destruct (dict_get compiled name') as [bucket|] eqn:Hb; [|discriminate].
  revert H. run. destruct (at_pos _ _) as [row|]; run; [|discriminate].
  intros [= <-]. apply keys_dict_set_present, dict_get_keys. eauto.
Qed.

Lemma peer_loop_keys grade_book survey_results survey_map evals_peer
    col_peername l : forall compiled k compiled' k',
  for_io (peer_step grade_book survey_results survey_map evals_peer
                    col_peername) l compiled k = Returned compiled' k' ->
  keys compiled' = keys compiled.
Proof.
  induction l as [|i l IH]; intros compiled k compiled' k' H; simpl in H.
  - by injection H as <- _.
  - apply io_bind_Returned in H as (c1 & k1 & H1 & H).
    apply peer_step_keys in H1. apply IH in H. congruence.
Qed.

Lemma peer_setup_buckets all_peers grade_book survey_results survey_map s :
  peer_setup all_peers grade_book survey_results survey_map = Ok s ->
  exists names,
    col_values (ps_grade_book s) "Name" = Ok names
    /\ forall c, py_in c (keys (ps_compiled s)) = py_in c names.
Proof.
  unfold peer_setup. intros H.
  destruct (first_peer survey_map) as [firstpeer|]; [|discriminate].
  revert H. run.
  destruct (foldM _ all_peers _) as [evals_peer|]; run; [|discriminate].
  destruct (peer_columns survey_map) as [pe_cols|]; run; [|discriminate].
  destruct (col_values _ "Name") as [names|] eqn:Hn; run; [|discriminate].
  destruct (unpack1 _) as [col_peername|]; run; [|discriminate].
  intros [= <-]. simpl. exists names. split; [exact Hn|].
  intros c. rewrite py_in_keys_init. simpl. apply orb_false_r.
Qed.

(** The loop over the evaluations never opens a bucket: when it ends, the
    compiled evaluations are keyed by the roster names, as the set-up left
    them, whatever the operator typed. *)
Theorem peer_buckets_are_roster_names (all_peers : list string)
    (grade_book survey_results : DataFrame) (survey_map : list SchemaEntry)
    (s : PeerSetup) (l : list nat) (k k' : console) (compiled' : buckets) :
  peer_setup all_peers grade_book survey_results survey_map = Ok s ->
  for_io (peer_step (ps_grade_book s) survey_results survey_map
                    (ps_evals_peer s) (ps_col_peername s))
         l (ps_compiled s) k = Returned compiled' k' ->
  exists names,
    col_values (ps_grade_book s) "Name" = Ok names
    /\ keys compiled' = keys (ps_compiled s)
    /\ forall c, py_in c (keys compiled') = py_in c names.
Proof.
  intros Hs Hloop.
  destruct (peer_setup_buckets _ _ _ _ _ Hs) as (names & Hn & Hkeys).
  apply peer_loop_keys in Hloop.
  exists names. split; [exact Hn|]. split; [exact Hloop|].
  intros c. rewrite Hloop. apply Hkeys.
Qed.

Lemma find_student_accepts grade_book survey_map eval_row student k w k' :
  find_student grade_book survey_map eval_row student k = Returned w k' ->
  accepted grade_book w = Ok true.
Proof.
  intros H. unfold find_student in H.
  do 5 (apply io_bind_Returned in H as (? & ? & [_ ->]%io_of_Returned & H);
        cbn beta in H).
  destruct (String.eqb student "self");
    apply io_bind_Returned in H as (prompt & ? & [_ ->]%io_of_Returned & H);
    apply ask_Returned in H as (rejected & _ & _ & Hw & _); exact Hw.
Qed.

(** Of the words with which the operator can tell [find_student] to skip
    an evaluation, the peer loop skips on ["NA"] alone.  When the fallback
    returns another line that is not a roster name, that line is one of
    the other members of [NA_LIST], and the look-up of its bucket raises
    [KeyError]. *)
Theorem peer_skip_word_raises (grade_book survey_results : DataFrame)
    (survey_map : list SchemaEntry) (evals_peer : DataFrame)
    (col_peername : string) (compiled : buckets) (peer_eval : nat)
    (names : list cell) (n w : string) (eval_row : EvalRow)
    (k k' : console) :
  col_values grade_book "Name" = Ok names ->
  (forall c, py_in c (keys compiled) = py_in c names) ->
  loc_get evals_peer peer_eval col_peername = Ok (Str n) ->
  py_in (Str n) NA_LIST = false ->
  py_in (Str n) names = false ->
  py_in (Str (fix_name n)) names = false ->
  (label ← loc_get evals_peer peer_eval "review_row";
   peer_eval_row survey_results label) = Ok eval_row ->
  find_student grade_book survey_map eval_row (fix_name n) k
  = Returned w k' ->
  w <> "NA" ->
  py_in (Str w) names = false ->
  py_in (Str w) NA_LIST = true
  /\ peer_step grade_book survey_results survey_map evals_peer col_peername
               compiled peer_eval k = Raised KeyError k'.
Proof.
  intros Hn Hkeys Hname Hna Hexact Hfixed Hrow Hfind Hw Hroster.
  split.
  - apply find_student_accepts in Hfind. unfold accepted in Hfind.
    rewrite Hn in Hfind. cbn in Hfind. injection Hfind as Hfind.
    by rewrite Hroster in Hfind.
  - unfold peer_step. rewrite io_bind_of, Hname, Hna.
    unfold peer_name_of, mbind at 1, IO_bind.
    rewrite io_bind_of, Hn, Hexact. cbn [negb].
    rewrite io_bind_of. cbn [cell_fix_name]. rewrite Hfixed. cbn [negb].
    rewrite io_bind_of, Hrow.
    unfold mbind at 1, IO_bind. rewrite Hfind.
    unfold mret, IO_ret.
    assert (Hne : cell_eqb (Str w) (Str "NA") = false).
    { simpl. by apply String.eqb_neq. }
    rewrite Hne. unfold io_of.
    rewrite dict_get_KeyError; [reflexivity|].
    by rewrite Hkeys.
Qed.

Example demo_peer_setup_run :
  peer_setup ["peer1"; "peer2"] demo_roster demo_responses demo_schema
  = Ok demo_peer_setup.
Proof. vm_compute. reflexivity. Qed.

Lemma peer_buckets_are_roster_names_witness :
  exists compiled' k',
    for_io (peer_step (ps_grade_book demo_peer_setup) demo_responses
                      demo_schema (ps_evals_peer demo_peer_setup)
                      (ps_col_peername demo_peer_setup))
           (seq 0 4) (ps_compiled demo_peer_setup) (mkConsole ["Ravi Patel"] [])
    = Returned compiled' k'
    /\ exists names,
         col_values (ps_grade_book demo_peer_setup) "Name" = Ok names
         /\ keys compiled' = keys (ps_compiled demo_peer_setup)
         /\ forall c, py_in c (keys compiled') = py_in c names.
Proof.
  do 2 eexists. split; [vm_compute; reflexivity|].
  eapply (peer_buckets_are_roster_names ["peer1"; "peer2"] demo_roster
            demo_responses demo_schema demo_peer_setup (seq 0 4)
            (mkConsole ["Ravi Patel"] []) _ _ demo_peer_setup_run).
  vm_compute. reflexivity.
Defined.

Lemma peer_skip_word_raises_witness :
  exists k',
    find_student (ps_grade_book demo_peer_setup) demo_schema demo_row0
                 (fix_name "Robbie Patel") (mkConsole ["na"] [])
    = Returned "na" k'
    /\ py_in (Str "na") NA_LIST = true
    /\ peer_step (ps_grade_book demo_peer_setup) demo_responses demo_schema
                 (ps_evals_peer demo_peer_setup) "Peer name"
                 (ps_compiled demo_peer_setup) 0 (mkConsole ["na"] [])
       = Raised KeyError k'.
Proof.
  eexists. split; [vm_compute; reflexivity|].
  eapply (peer_skip_word_raises (ps_grade_book demo_peer_setup)
           demo_responses demo_schema (ps_evals_peer demo_peer_setup)
           "Peer name" (ps_compiled demo_peer_setup) 0
           [Str "Jane Doe"; Str "Ravi Patel"] "Robbie Patel" "na" demo_row0
           (mkConsole ["na"] []));
    try (vm_compute; reflexivity).
  discriminate.
Defined.

(** An evaluation whose name is a roster name, as typed or after
    [fix_name], is filed under that name without a word to the operator;
    the name as typed is tried first and is not normalised when it
    matches. *)
Theorem peer_match_never_prompts (grade_book survey_results : DataFrame)
    (survey_map : list SchemaEntry) (evals_peer : DataFrame)
    (col_peername : string) (compiled : buckets) (peer_eval : nat)
    (names : list cell) (name target : cell) (k : console) :
  col_values grade_book "Name" = Ok names ->
  (forall c, py_in c (keys compiled) = py_in c names) ->
  loc_get evals_peer peer_eval col_peername = Ok name ->
  py_in name NA_LIST = false ->
  (py_in name names = true /\ target = name)
  \/ (exists n, name = Str n /\ py_in name names = false
                /\ target = Str (fix_name n)
                /\ py_in target names = true) ->
  cell_eqb target (Str "NA") = false ->
  exists bucket row,
    dict_get compiled target = Ok bucket
    /\ at_pos (rows evals_peer) peer_eval = Ok row
    /\ peer_step grade_book survey_results survey_map evals_peer
                 col_peername compiled peer_eval k
       = Returned (dict_set compiled target
                            (mkDF (columns bucket) (rows bucket ++ [row]))) k.
Proof.
  intros Hn Hkeys Hname Hna Hmatch Hne.
  assert (Htarget : py_in target names = true).
  { destruct Hmatch as [[H ->] | (n & _ & _ & _ & H)]; exact H. }
  assert (Hb : exists bucket, dict_get compiled target = Ok bucket).
  { apply dict_get_keys. by rewrite Hkeys. }
  destruct Hb as [bucket Hb].
  assert (Hr : exists row, at_pos (rows evals_peer) peer_eval = Ok row).
  { unfold loc_get in Hname.
    destruct (col_pos _ _) as [j|]; [|discriminate]. revert Hname. run.
    destruct (at_pos (rows evals_peer) peer_eval) as [row|]; [|discriminate].
    eauto. }
  destruct Hr as [row Hr].
  exists bucket, row. split; [exact Hb|]. split; [exact Hr|].
  unfold peer_step. rewrite io_bind_of, Hname, Hna.
  assert (Hfiled : peer_name_of grade_book survey_results survey_map
                     evals_peer peer_eval name k = Returned target k).
  { unfold peer_name_of. rewrite io_bind_of, Hn.
    destruct Hmatch as [[H ->] | (n & -> & Hex & -> & H)].
    - rewrite H. reflexivity.
    - rewrite Hex. cbn [negb]. rewrite io_bind_of. cbn [cell_fix_name].
      rewrite H. reflexivity. }
  unfold mbind at 1, IO_bind. rewrite Hfiled, Hne.
  unfold io_of. rewrite Hb. run. rewrite Hr. reflexivity.
Qed.

Lemma peer_match_never_prompts_witness :
  exists bucket row,
    dict_get (ps_compiled demo_peer_setup) (Str "Jane Doe") = Ok bucket
    /\ at_pos (rows (ps_evals_peer demo_peer_setup)) 3 = Ok row
    /\ peer_step (ps_grade_book demo_peer_setup) demo_responses demo_schema
                 (ps_evals_peer demo_peer_setup) "Peer name"
                 (ps_compiled demo_peer_setup) 3 (mkConsole ["NA"] [])
       = Returned (dict_set (ps_compiled demo_peer_setup) (Str "Jane Doe")
                            (mkDF (columns bucket) (rows bucket ++ [row])))
                  (mkConsole ["NA"] []).
Proof.
  apply (peer_match_never_prompts (ps_grade_book demo_peer_setup)
           demo_responses demo_schema (ps_evals_peer demo_peer_setup)
           "Peer name" (ps_compiled demo_peer_setup) 3
           [Str "Jane Doe"; Str "Ravi Patel"] (Str "jane doe")
           (Str "Jane Doe") (mkConsole ["NA"] []));
    try (vm_compute; reflexivity).
  right. exists "jane doe". repeat split; vm_compute; reflexivity.
Defined.

(** * The self-evaluation loop *)

(** A self-evaluation from an address that is not on the roster, under a
    name that is not a roster name once [fix_name] has been applied,
    stops the run.  The name is normalised before it is compared, so
    whether the name as typed is on the roster makes no difference; and the
    fallback that follows gets a frame and raises. *)
Theorem self_fallback_raises (survey_results : DataFrame)
    (survey_map : list SchemaEntry) (evals_self : DataFrame)
    (col_email : string) (grade_book : DataFrame) (email : cell)
    (student_id n : string) (sids emails se_names names : list cell)
    (k : console) :
  obj_split_email (Scalar email) = Ok student_id ->
  col_values grade_book GB_SID = Ok sids ->
  py_in (Str student_id) sids = false ->
  col_values evals_self col_email = Ok emails ->
  col_values evals_self "SE: Name" = Ok se_names ->
  unpack1 (map fst (List.filter snd (zip se_names (eq_mask emails email))))
  = Ok (Str n) ->
  col_values grade_book "Name" = Ok names ->
  py_in (Str (fix_name n)) names = false ->
  exists e,
    self_step survey_results survey_map evals_self col_email grade_book
              email k = Raised e k.
Proof.
  intros Hid Hsids Hnot Hemails Hse Hone Hnames Hfixed.
  unfold self_step. rewrite io_bind_of, Hid, io_bind_of, Hsids, Hnot.
  unfold mbind at 1, IO_bind.
  assert (Hname : exists e,
             self_name grade_book survey_results survey_map evals_self
                       col_email email k = Raised e k).
  { unfold self_name.
    rewrite io_bind_of, Hemails, io_bind_of, Hse, io_bind_of, Hone.
    rewrite io_bind_of. cbn [cell_fix_name].
    rewrite io_bind_of, Hnames, Hfixed. cbn [negb].
    rewrite io_bind_of.
    destruct (self_eval_row _ _ _) as [eval_row|e] eqn:Hrow; [|eauto].
    apply self_eval_row_frame in Hrow as [df ->].
    apply find_student_frame_raises. }
  destruct Hname as [e ->]. eauto.
Qed.

Lemma self_fallback_raises_witness :
  py_in (Str "Jane McDonald") [Str "Jane McDonald"; Str "Ravi Patel"] = true
  /\ exists e,
       self_step demo_responses_mc demo_schema
         (mkDF ["SE: Email"; "SE: Name"; "SE: Section"; "SE: Team";
                "SE: Effort"; "Timestamp"]
               [[Str "jane.mcdonald@uni.edu"; Str "Jane McDonald"; Str "A";
                 Str "T1"; Num 4; Str "t1"]])
         "SE: Email" demo_roster_mc (Str "jane.mcdonald@uni.edu")
         (mkConsole ["Jane McDonald"] [])
       = Raised e (mkConsole ["Jane McDonald"] []).
Proof.
  split; [reflexivity|].
  apply (self_fallback_raises demo_responses_mc demo_schema _ "SE: Email"
           demo_roster_mc (Str "jane.mcdonald@uni.edu") "jane.mcdonald"
           "Jane McDonald" [Str "jmcdonald"; Str "rpatel"]
           [Str "jane.mcdonald@uni.edu"] [Str "Jane McDonald"]
           [Str "Jane McDonald"; Str "Ravi Patel"]);
    vm_compute; reflexivity.
Defined.

(** * Edge cases of the reducer and of the difference calculation *)

Lemma col_values_no_rows df c :
  rows df = [] -> c ∈ columns df -> col_values df c = Ok [].
Proof.
  intros Hr Hc. unfold col_values, col_pos.
  destruct (col_find c (columns df)) as [j|] eqn:Hj.
  - run. rewrite Hr. reflexivity.
  - apply col_find_None in Hj. contradiction.
Qed.

Lemma comments_no_rows eval_df cs : forall avgs,
  rows eval_df = [] -> (forall c, c ∈ cs -> c ∈ columns eval_df) ->
  exists avgs', foldM (combine_comments eval_df) cs avgs = Ok avgs'.
Proof.
  induction cs as [|c cs IH]; intros avgs Hr Hcs; simpl; [eauto|].
  assert (Hstep : combine_comments eval_df avgs c
                  = Ok (set_col avgs c (Str ""))).
  { unfold combine_comments.
    rewrite (col_values_no_rows _ _ Hr) by (apply Hcs; constructor).
    reflexivity. }
  rewrite Hstep. run. apply IH; [exact Hr|].
  intros c' Hc'. apply Hcs. by constructor.
Qed.

Lemma select_no_rows df cols :
  rows df = [] -> (forall c, c ∈ cols -> c ∈ columns df) ->
  select df cols = Ok (mkDF cols []).
Proof.
  intros Hr Hcs. unfold select.
  assert (H : exists js, traverse (fun c => col_pos c (columns df)) cols
                         = Ok js).
  { induction cols as [|c cols IH]; simpl; [eauto|].
    destruct (col_pos c (columns df)) as [j|e] eqn:Hj.
    - run. destruct IH as [js ->].
      + intros c' Hc'. apply Hcs. by constructor.
      + run. eauto.
    - unfold col_pos in Hj.
      destruct (col_find c (columns df)) eqn:Hf; [discriminate|].
      apply col_find_None in Hf. exfalso. apply Hf, Hcs. constructor. }
  destruct H as [js ->]. run. rewrite Hr. reflexivity.
Qed.

(** A bucket without rows cannot be reduced: with at least one rating
    column, [average_ratings] ends in the [StatisticsError] of [mean] on
    an empty list.  (The caller looks at [eval_df.empty] first.) *)
Theorem average_ratings_empty_bucket (eval_df : DataFrame) (pe_cols : PeCols)
    (map_points : lexicon) :
  rows eval_df = [] ->
  pe_rating pe_cols <> [] ->
  (forall c, c ∈ pe_comments pe_cols -> c ∈ columns eval_df) ->
  (forall c, c ∈ pe_rating pe_cols -> c ∈ columns eval_df) ->
  average_ratings eval_df pe_cols map_points = Err StatisticsError.
Proof.
  intros Hr Hne Hcom Hrat. unfold average_ratings.
  destruct (comments_no_rows eval_df (pe_comments pe_cols)
              (first_row (pe_all pe_cols) "PE: N"
                 (Num (inject_Z (Z.of_nat (length (rows eval_df))))))
              Hr Hcom) as [avgs ->].
  run. rewrite (select_no_rows _ _ Hr Hrat). run.
  unfold convert_ratings. simpl. run.
  destruct (pe_rating pe_cols) as [|c cs]; [contradiction|].
  assert (Hstep : forall a, average_column (mkDF (c :: cs) []) a c
                            = Err StatisticsError).
  { intros a. unfold average_column, col_values, col_pos. simpl.
    rewrite String.eqb_refl. reflexivity. }
  simpl. rewrite Hstep. reflexivity.
Qed.

Lemma average_ratings_empty_bucket_witness :
  average_ratings (mkDF ["review_row"; "Peer name"; "Effort"; "Comments"] [])
                  demo_pe_cols demo_lexicon
  = Err StatisticsError.
Proof.
  apply average_ratings_empty_bucket; [reflexivity | discriminate | |];
    intros c Hc; apply list_elem_of_singleton in Hc as ->;
    apply (bool_decide_unpack _); reflexivity.
Defined.

Lemma series_sub_length xs ys d :
  series_sub xs ys = Ok d -> length xs = length ys -> length d = length xs.
Proof.
  unfold series_sub. intros H Hlen. apply traverse_length in H.
  rewrite H, length_zip. lia.
Qed.

Lemma diff_step_keeps gb c gb' :
  Forall (fun r => length r = length (columns gb)) (rows gb) ->
  diff_step gb c = Ok gb' ->
  Forall (fun r => length r = length (columns gb')) (rows gb')
  /\ length (rows gb') = length (rows gb)
  /\ forall l, l <> "SE-PE: " +:+ c -> col_values gb' l = col_values gb l.
Proof.
  intros Hrect H. unfold diff_step in H.
  destruct (col_values gb ("SE: " +:+ c)) as [se|] eqn:Hse; [|discriminate].
  revert H. run.
  destruct (col_values gb (c +:+ " (avg)")) as [pe|] eqn:Hpe; run;
    [|discriminate].
  destruct (series_sub se pe) as [d|] eqn:Hd; run; [|discriminate].
  intros [= <-].
  pose proof (col_values_length _ _ _ Hse) as Hlse.
  pose proof (col_values_length _ _ _ Hpe) as Hlpe.
  assert (Hld : length d = length (rows gb)).
  { rewrite (series_sub_length _ _ _ Hd); congruence. }
  destruct (setitem_series_rect gb ("SE-PE: " +:+ c) d Hrect Hld) as [H1 H2].
  split; [exact H1|]. split; [exact H2|].
  intros l Hl. by apply col_values_setitem_ne.
Qed.

Lemma diff_fold_keeps order : forall gb gb',
  Forall (fun r => length r = length (columns gb)) (rows gb) ->
  foldM diff_step order gb = Ok gb' ->
  length (rows gb') = length (rows gb)
  /\ forall l, (forall c, c ∈ order -> l <> "SE-PE: " +:+ c) ->
               col_values gb' l = col_values gb l.
Proof.
  induction order as [|c order IH]; intros gb gb' Hrect H; simpl in H.
  - injection H as <-. auto.
  - destruct (diff_step gb c) as [gb1|] eqn:H1; [|discriminate].
    revert H. run. intros H.
    destruct (diff_step_keeps _ _ _ Hrect H1) as (Hrect1 & Hlen1 & Hkeep1).
    destruct (IH _ _ Hrect1 H) as [Hlen Hkeep].
    split; [congruence|]. intros l Hl.
    rewrite Hkeep by (intros c' Hc'; apply Hl; by constructor).
    apply Hkeep1, Hl. constructor.
Qed.

(** [calc_differences] only writes difference columns: when it returns,
    the roster has the rows it had, and every column whose label is not
    ['SE-PE: ' + col] for a matching category reads as before. *)
Theorem calc_differences_keeps_columns (order : list string)
    (grade_book gb' : DataFrame) (survey_map : list SchemaEntry) :
  Forall (fun r => length r = length (columns grade_book)) (rows grade_book) ->
  calc_differences order grade_book survey_map = Ok gb' ->
  length (rows gb') = length (rows grade_book)
  /\ forall l, (forall c, c ∈ order -> l <> "SE-PE: " +:+ c) ->
               col_values gb' l = col_values grade_book l.
Proof.
  intros Hrect H. unfold calc_differences in H.
  destruct (first_peer survey_map); [|discriminate].
  revert H. run. apply diff_fold_keeps, Hrect.
Qed.

Lemma calc_differences_keeps_columns_witness :
  exists gb',
    calc_differences ["Effort"] demo_roster_scored demo_schema = Ok gb'
    /\ length (rows gb') = length (rows demo_roster_scored)
    /\ forall l, (forall c, c ∈ ["Effort"] -> l <> "SE-PE: " +:+ c) ->
                 col_values gb' l = col_values demo_roster_scored l.
Proof.
  eexists. split; [vm_compute; reflexivity|].
  apply (calc_differences_keeps_columns ["Effort"] demo_roster_scored _
           demo_schema).
  - repeat constructor.
  - vm_compute. reflexivity.
Defined.

(** * More on [split_email] and [fix_name] *)

Lemma split_free sep s : PyStr.free_of sep s = true -> PyStr.split sep s = [s].
Proof.
  induction s as [|c s IH]; simpl; [reflexivity|].
  destruct (Ascii.eqb c sep); simpl; [discriminate|].
  intros H. by rewrite IH.
Qed.

Lemma split_at_first sep pre rest :
  PyStr.free_of sep pre = true ->
  exists ws, PyStr.split sep (pre +:+ String sep rest) = pre :: ws.
Proof.
  induction pre as [|c pre IH]; intros H.
  - change (EmptyString +:+ String sep rest) with (String sep rest).
    simpl. rewrite Ascii.eqb_refl. eauto.
  - change (String c pre +:+ String sep rest)
      with (String c (pre +:+ String sep rest)).
    simpl in *. destruct (Ascii.eqb c sep); [discriminate|].
    destruct (IH H) as [ws ->]. eauto.
Qed.

Lemma lower_ascii_at c :
  Ascii.eqb (PyStr.lower_ascii c) "@" = Ascii.eqb c "@".
Proof. destruct c as [[] [] [] [] [] [] [] []]; reflexivity. Qed.

Lemma lower_free_of_at s :
  PyStr.free_of "@" (PyStr.lower s) = PyStr.free_of "@" s.
Proof.
  unfold PyStr.lower. induction s as [|c s IH]; simpl; [reflexivity|].
  by rewrite lower_ascii_at, IH.
Qed.

Lemma lower_idem s : PyStr.lower (PyStr.lower s) = PyStr.lower s.
Proof.
  unfold PyStr.lower. induction s as [|c s IH]; simpl; [reflexivity|].
  by rewrite lower_ascii_idem, IH.
Qed.

(** A login id comes back from the address made of it: for an id without
    at-sign, [split_email(id + '@' + domain)] is the id in lower case,
    whatever the domain holds. *)
Theorem split_email_of_address (student_id domain : string) :
  PyStr.free_of "@" student_id = true ->
  split_email (student_id +:+ "@" +:+ domain) = Ok (PyStr.lower student_id).
Proof.
  intros H. unfold split_email.
  change ("@" +:+ domain) with (String "@" domain).
  destruct (split_at_first "@" student_id domain H) as [ws ->].
  reflexivity.
Qed.

Lemma split_email_of_address_witness :
  split_email ("JDoe" +:+ "@" +:+ "mail.uni.edu@uni.edu") = Ok "jdoe".
Proof. apply (split_email_of_address "JDoe" "mail.uni.edu@uni.edu"). reflexivity. Defined.

(** What [split_email] returns is in normal form: it is in lower case, it
    holds no at-sign, and [split_email] maps it to itself.  So a roster
    login id with a capital letter is the id of no address. *)
Theorem split_email_normal_form (email student_id : string) :
  split_email email = Ok student_id ->
  PyStr.lower student_id = student_id
  /\ PyStr.free_of "@" student_id = true
  /\ split_email student_id = Ok student_id.
Proof.
  unfold split_email.
  destruct (split_head "@" email) as (pre & ws & rest & -> & _ & Hfree & _).
  simpl. intros [= <-].
  assert (Hlow : PyStr.free_of "@" (PyStr.lower pre) = true)
    by (by rewrite lower_free_of_at).
  split; [apply lower_idem|]. split; [exact Hlow|].
  rewrite (split_free _ _ Hlow). simpl. by rewrite lower_idem.
Qed.

Lemma split_email_normal_form_witness :
  PyStr.lower "jdoe" = "jdoe"
  /\ PyStr.free_of "@" "jdoe" = true
  /\ split_email "jdoe" = Ok "jdoe".
Proof. apply (split_email_normal_form "JDoe@school.edu" "jdoe"). reflexivity. Defined.

Lemma same_spaces_length s t :
  same_spaces s t -> String.length s = String.length t.
Proof.
  revert t. induction s as [|a s IH]; intros [|b t]; simpl; try tauto.
  intros [_ H]. f_equal. by apply IH.
Qed.



(** * The schema helpers *)

Lemma NoDup_map_inj {A B} (f : A -> B) (l : list A) :
  (forall a b, f a = f b -> a = b) -> NoDup l -> NoDup (map f l).
Proof.
  intros Hinj. induction 1 as [|a l Ha Hl IH]; simpl; constructor; [|exact IH].
  intros Hin. apply Ha. apply list_elem_of_In in Hin. apply in_map_iff in Hin.
  destruct Hin as (b & Hb & Hin). apply Hinj in Hb. subst b.
  by apply list_elem_of_In.
Qed.

(** [add_prefix_suffix] relabels one for one and never merges two labels:
    the list keeps its length, and distinct labels stay distinct, under a
    prefix as under a suffix; with any other flag the list is returned as
    it is. *)
Theorem add_prefix_suffix_labels (col_list : list string)
    (add_str p_or_s : string) :
  length (add_prefix_suffix col_list add_str p_or_s) = length col_list
  /\ (NoDup col_list -> NoDup (add_prefix_suffix col_list add_str p_or_s))
  /\ (p_or_s <> "p" -> p_or_s <> "s" ->
      add_prefix_suffix col_list add_str p_or_s = col_list).
Proof.
  unfold add_prefix_suffix.
  destruct (String.eqb_spec p_or_s "p") as [->|Hp];
    [|destruct (String.eqb_spec p_or_s "s") as [->|Hs]].
  - split; [apply length_map|]. split; [|congruence].
    apply NoDup_map_inj. intros a b H. eapply prefix_inj, prefix_inj, H.
  - split; [apply length_map|]. split; [|congruence].
    apply NoDup_map_inj. intros a b H.
    by apply append_suffix_inj in H as [-> _].
  - auto.
Qed.

Lemma gen_pe_rating_columns_mem cols l :
  l ∈ gen_pe_rating_columns cols <->
  exists c, c ∈ cols /\ (l = c +:+ " (avg)" \/ l = c +:+ " (std)").
Proof.
  unfold gen_pe_rating_columns. induction cols as [|c cols IH]; simpl.
  - split; [intros H; by apply elem_of_nil in H|].
    intros (c & H & _). by apply elem_of_nil in H.
  - rewrite !elem_of_cons, IH. split.
    + intros [->|[->|(c' & Hc' & H)]].
      * exists c. split; [by left | by left].
      * exists c. split; [by left | by right].
      * exists c'. split; [by right | exact H].
    + intros (c' & [->|Hc']%elem_of_cons & [->| ->]); eauto 6.
Qed.

(** [gen_pe_rating_columns] gives every rating column its two labels, the
    average before the deviation, and no label twice when the rating
    columns are distinct. *)
Theorem gen_pe_rating_columns_labels (rating_cols : list string) :
  length (gen_pe_rating_columns rating_cols) = (2 * length rating_cols)%nat
  /\ (forall i c, rating_cols !! i = Some c ->
        gen_pe_rating_columns rating_cols !! (2 * i)%nat
        = Some (c +:+ " (avg)")
        /\ gen_pe_rating_columns rating_cols !! (2 * i + 1)%nat
           = Some (c +:+ " (std)"))
  /\ (NoDup rating_cols -> NoDup (gen_pe_rating_columns rating_cols)).
Proof.
  split; [|split].
  - unfold gen_pe_rating_columns.
    induction rating_cols as [|c cols IH]; simpl; [reflexivity|].
    rewrite IH. lia.
  - unfold gen_pe_rating_columns.
    induction rating_cols as [|c cols IH]; intros i c' Hi; [discriminate|].
    destruct i as [|i]; simpl in *.
    + injection Hi as ->. auto.
    + replace (i + S (i + 0))%nat with (S (2 * i)) by lia.
      replace (i + S (i + 0) + 1)%nat with (S (2 * i + 1)) by lia.
      simpl. replace (i + (i + 0))%nat with (2 * i)%nat by lia.
      by apply IH.
  - induction 1 as [|c cols Hc Hnd IH].
    + constructor.
    + change (gen_pe_rating_columns (c :: cols))
        with ((c +:+ " (avg)") :: (c +:+ " (std)")
              :: gen_pe_rating_columns cols).
      constructor; [|constructor; [|exact IH]].
      * rewrite elem_of_cons, gen_pe_rating_columns_mem.
        intros [H|(c' & Hc' & [H|H])].
        -- by apply avg_label_not_std in H.
        -- apply avg_label_inj in H. congruence.
        -- by apply avg_label_not_std in H.
      * rewrite gen_pe_rating_columns_mem.
        intros (c' & Hc' & [H|H]).
        -- symmetry in H. by apply avg_label_not_std in H.
        -- apply std_label_inj in H. congruence.
Qed.

Lemma find_columns_iff (survey_map : list SchemaEntry)
    (student_pat category_pat : string) (map_col : MapCol) (c : string) :
  c ∈ find_columns survey_map student_pat category_pat map_col None None
  <-> exists e,
        e ∈ survey_map
        /\ PyStr.contains student_pat (student e) = true
        /\ (category_pat = "any"
            \/ PyStr.contains category_pat (category e) = true)
        /\ map_value map_col e = c
        /\ c <> "nan".
Proof.
  unfold find_columns. rewrite list_elem_of_In, filter_In, in_map_iff.
  rewrite negb_true_iff, String.eqb_neq.
  destruct (String.eqb_spec category_pat "any") as [->|Hany]; simpl; split.
  - intros [(e & <- & [He Hs]%filter_In) Hnan].
    exists e. rewrite list_elem_of_In. auto.
  - intros (e & He & Hs & _ & <- & Hnan). split; [|exact Hnan].
    exists e. split; [reflexivity|]. apply filter_In.
    by rewrite <- list_elem_of_In.
  - intros [(e & <- & [He [Hs Hc]%andb_true_iff]%filter_In) Hnan].
    exists e. rewrite list_elem_of_In. auto.
  - intros (e & He & Hs & [?|Hc] & <- & Hnan); [contradiction|].
    split; [|exact Hnan].
    exists e. split; [reflexivity|]. apply filter_In.
    rewrite <- list_elem_of_In, Hs, Hc. auto.
Qed.

Lemma str_lt_trans a b c : str_lt a b -> str_lt b c -> str_lt a c.
Proof.
  unfold str_lt. intros H1 H2.
  apply OrderedTypeEx.String_as_OT.cmp_lt.
  eapply OrderedTypeEx.String_as_OT.lt_trans;
    apply OrderedTypeEx.String_as_OT.cmp_lt; eassumption.
Qed.

Lemma str_lt_irrefl a : ~ str_lt a a.
Proof.
  unfold str_lt. intros H.
  assert (He : String.compare a a = Eq)
    by (by apply OrderedTypeEx.String_as_OT.cmp_eq).
  congruence.
Qed.

Lemma insert_sorted_mem s l x : x ∈ insert_sorted s l <-> x = s \/ x ∈ l.
Proof.
  induction l as [|h l IH]; simpl.
  - rewrite list_elem_of_singleton. split; [auto|].
    intros [H|H]; [exact H | by apply elem_of_nil in H].
  - destruct (String.compare s h) eqn:Hc.
    + apply String.compare_eq_iff in Hc. subst h.
      rewrite elem_of_cons. tauto.
    + rewrite !elem_of_cons. tauto.
    + rewrite !elem_of_cons, IH. tauto.
Qed.

Lemma insert_sorted_sorted s l :
  Sorted.StronglySorted str_lt l ->
  Sorted.StronglySorted str_lt (insert_sorted s l).
Proof.
  induction 1 as [|h l Hl IH Hh]; simpl.
  - repeat constructor.
  - destruct (String.compare s h) eqn:Hc.
    + by constructor.
    + constructor; [by constructor|]. constructor; [exact Hc|].
      eapply Forall_impl; [exact Hh|]. intros x Hx.
      eapply str_lt_trans; [exact Hc | exact Hx].
    + constructor; [exact IH|]. apply Forall_forall. intros x Hx.
      apply insert_sorted_mem in Hx as [->|Hx].
      * unfold str_lt. rewrite String.compare_antisym, Hc. reflexivity.
      * rewrite Forall_forall in Hh. by apply Hh.
Qed.

Lemma sorted_NoDup l : Sorted.StronglySorted str_lt l -> NoDup l.
Proof.
  induction 1 as [|h l Hl IH Hh]; constructor; [|exact IH].
  intros Hin. rewrite Forall_forall in Hh.
  eapply str_lt_irrefl, Hh, Hin.
Qed.

Lemma fold_insert_sorted_mem l x :
  x ∈ fold_right insert_sorted [] l <-> x ∈ l.
Proof.
  induction l as [|h l IH]; simpl; [reflexivity|].
  rewrite insert_sorted_mem, elem_of_cons, IH. reflexivity.
Qed.

Lemma fold_insert_sorted_sorted l :
  Sorted.StronglySorted str_lt (fold_right insert_sorted [] l).
Proof.
  induction l as [|h l IH]; simpl; [constructor|].
  by apply insert_sorted_sorted.
Qed.

Lemma unique_peers_mem survey_map p :
  p ∈ unique_peers survey_map
  <-> exists e, e ∈ survey_map /\ student e = p
                /\ PyStr.contains "peer" p = true.
Proof.
  unfold unique_peers.
  rewrite fold_insert_sorted_mem, list_elem_of_In, in_map_iff. split.
  - intros (e & <- & [He Hp]%filter_In). exists e.
    by rewrite list_elem_of_In.
  - intros (e & He & <- & Hp). exists e. split; [reflexivity|].
    apply filter_In. by rewrite <- list_elem_of_In.
Qed.

(** [unique_peers] lists the roles of the schema that hold ['peer'], each
    once, in increasing order of text, however the schema rows are
    arranged. *)
Theorem unique_peers_spec (survey_map : list SchemaEntry) :
  Sorted.StronglySorted str_lt (unique_peers survey_map)
  /\ NoDup (unique_peers survey_map)
  /\ forall p, p ∈ unique_peers survey_map
               <-> exists e, e ∈ survey_map /\ student e = p
                             /\ PyStr.contains "peer" p = true.
Proof.
  split; [apply fold_insert_sorted_sorted|].
  split; [apply sorted_NoDup, fold_insert_sorted_sorted|].
  apply unique_peers_mem.
Qed.

(** [first_peer] returns the least peer role of the schema in the order
    of texts (so ['peer10'] rather than ['peer2']), and raises
    [IndexError] exactly when no role holds ['peer']. *)
Theorem first_peer_least (survey_map : list SchemaEntry) :
  match first_peer survey_map with
  | Ok p =>
      (exists e, e ∈ survey_map /\ student e = p
                 /\ PyStr.contains "peer" p = true)
      /\ forall e, e ∈ survey_map ->
                   PyStr.contains "peer" (student e) = true ->
                   student e = p \/ str_lt p (student e)
  | Err err =>
      err = IndexError
      /\ forall e, e ∈ survey_map ->
                   PyStr.contains "peer" (student e) = false
  end.
Proof.
  unfold first_peer.
  pose proof (fold_insert_sorted_sorted
                (map student
                   (List.filter (fun e => PyStr.contains "peer" (student e))
                                survey_map))) as Hsorted.
  pose proof (unique_peers_mem survey_map) as Hmem.
  unfold unique_peers in *.
  destruct (fold_right insert_sorted [] _) as [|p ps]; simpl.
  - split; [reflexivity|]. intros e He.
    destruct (PyStr.contains "peer" (student e)) eqn:Hp; [|reflexivity].
    exfalso. eapply elem_of_nil, Hmem. eauto.
  - split; [apply Hmem; by left|].
    intros e He Hp.
    assert (Hin : student e ∈ p :: ps) by (apply Hmem; eauto).
    apply elem_of_cons in Hin as [->|Hin]; [by left | right].
    inversion Hsorted as [|? ? _ Hall]; subst.
    rewrite Forall_forall in Hall. by apply Hall.
Qed.

(** * [prep_gradebook] and [prep_map] *)

Lemma split_on_none s :
  has_comma_blank s = false -> split_on ", " 0 s = [s].
Proof.
  unfold has_comma_blank. induction s as [|c s IH]; [reflexivity|].
  intros H. cbn [PyStr.contains] in H.
  apply orb_false_iff in H as [Hp Hc].
  cbn [split_on]. rewrite Hp, (IH Hc). reflexivity.
Qed.

Lemma is_prefix_comma_blank_app c s t :
  PyStr.is_prefix ", " (String c s) = false ->
  PyStr.is_prefix ", " (String c (s +:+ ", " +:+ t)) = false.
Proof.
  destruct s as [|b s].
  - change ("" +:+ ", " +:+ t) with (String "," (String " " t)).
    cbn [PyStr.is_prefix]. intros _. apply andb_false_iff. right.
    reflexivity.
  - change (String b s +:+ ", " +:+ t) with (String b (s +:+ ", " +:+ t)).
    cbn [PyStr.is_prefix].
    destruct (Ascii.eqb "," c), (Ascii.eqb " " b); simpl; auto.
Qed.

Lemma split_on_first last first :
  has_comma_blank last = false ->
  split_on ", " 0 (last +:+ ", " +:+ first) = last :: split_on ", " 0 first.
Proof.
  unfold has_comma_blank. induction last as [|c last IH]; intros H.
  - change ("" +:+ ", " +:+ first) with (String "," (String " " first)).
    reflexivity.
  - cbn [PyStr.contains] in H. apply orb_false_iff in H as [Hp Hc].
    change (String c last +:+ ", " +:+ first)
      with (String c (last +:+ ", " +:+ first)).
    cbn [split_on]. rewrite (is_prefix_comma_blank_app _ _ _ Hp), (IH Hc).
    reflexivity.
Qed.

(** The loop of [prep_gradebook] turns ["Last, First"] into ["First Last"]:
    for two texts without [', '] inside, the name made of the second, a
    blank and the first. *)
Theorem unformatted_name_swap (last first : string) :
  has_comma_blank last = false ->
  has_comma_blank first = false ->
  unformatted_name (Str (last +:+ ", " +:+ first))
  = Ok (Str (first +:+ " " +:+ last)).
Proof.
  intros Hl Hf. unfold unformatted_name.
  rewrite (split_on_first _ _ Hl), (split_on_none _ Hf). reflexivity.
Qed.

Lemma unformatted_name_swap_witness :
  unformatted_name (Str ("van der Berg,Jr" +:+ ", " +:+ "Anna Maria"))
  = Ok (Str ("Anna Maria" +:+ " " +:+ "van der Berg,Jr")).
Proof.
  apply (unformatted_name_swap "van der Berg,Jr" "Anna Maria"); reflexivity.
Defined.

Lemma length_removelast {A} (l : list A) :
  length (removelast l) = (length l - 1)%nat.
Proof.
  induction l as [|a [|b l] IH]; [reflexivity | reflexivity|].
  change (removelast (a :: b :: l)) with (a :: removelast (b :: l)).
  simpl length in *. rewrite IH. lia.
Qed.

Lemma select_shape df cols sel :
  select df cols = Ok sel ->
  columns sel = cols
  /\ length (rows sel) = length (rows df)
  /\ rect sel.
Proof.
  unfold select, rect.
  destruct (traverse _ cols) as [js|] eqn:Hjs; run; [|discriminate].
  destruct (traverse _ (rows df)) as [rs|] eqn:Hrs; run; [|discriminate].
  intros [= <-]. simpl. split; [reflexivity|].
  split; [eapply traverse_length, Hrs|].
  apply traverse_Ok in Hrs. apply traverse_length in Hjs.
  induction Hrs as [|r r' rws rws' Hr _ IH]; constructor; [|exact IH].
  apply traverse_length in Hr. congruence.
Qed.

Lemma unformatted_name_text_error s e :
  unformatted_name (Str s) = Err e -> e = IndexError.
Proof.
  unfold unformatted_name, index.
  destruct (split_on ", " 0 s !! 1); run; [|by intros [= <-]].
  destruct (split_on ", " 0 s !! 0); run; [discriminate | by intros [= <-]].
Qed.

(** A ['Student'] cell without [', '] stops [prep_gradebook]: when the
    kept rows hold texts in that column and one of them has no comma
    followed by a blank, the function raises [IndexError]. *)
Theorem prep_gradebook_needs_comma (grade_book kept : DataFrame)
    (students : list cell) (s : string) :
  select (mkDF (columns grade_book) (iloc_inner (rows grade_book)))
         GB_KEEP_COLS = Ok kept ->
  col_values kept "Student" = Ok students ->
  Forall (fun v => exists t, v = Str t) students ->
  Str s ∈ students ->
  has_comma_blank s = false ->
  prep_gradebook grade_book = Err IndexError.
Proof.
  intros Hsel Hst Htext Hin Hs. unfold prep_gradebook.
  rewrite Hsel. run. rewrite Hst. run.
  assert (Hfail : unformatted_name (Str s) = Err IndexError).
  { unfold unformatted_name. rewrite (split_on_none _ Hs). reflexivity. }
  destruct (traverse_fails unformatted_name students (Str s) IndexError
              Hin Hfail) as [e He].
  rewrite He. run.
  apply traverse_Err_inv in He as (v & Hv & Hev).
  rewrite Forall_forall in Htext. destruct (Htext v Hv) as [t ->].
  apply unformatted_name_text_error in Hev. by subst e.
Qed.

Lemma prep_gradebook_needs_comma_witness :
  prep_gradebook
    (mkDF (columns demo_canvas)
          [[Str "    Points Possible"; NaN; NaN; NaN; NaN; NaN; Num 10];
           [Str "Doe, Jane"; Num 11; Str "u11"; Str "jdoe"; Str "uni";
            Str "A"; Num 9];
           [Str "Ravi Patel"; Num 12; Str "u12"; Str "rpatel"; Str "uni";
            Str "A"; Num 7];
           [Str "Student, Test"; Num 13; NaN; NaN; Str "uni"; Str "A"; NaN]])
  = Err IndexError.
Proof.
  eapply (prep_gradebook_needs_comma _ _ [Str "Doe, Jane"; Str "Ravi Patel"]
            "Ravi Patel").
  - vm_compute. reflexivity.
  - vm_compute. reflexivity.
  - repeat constructor; eauto.
  - apply elem_of_cons. right. apply elem_of_cons. by left.
  - reflexivity.
Defined.

Lemma col_values_total df c :
  rect df -> c ∈ columns df -> exists vs, col_values df c = Ok vs.
Proof.
  intros Hrect Hc. unfold col_values, col_pos.
  destruct (col_find c (columns df)) as [j|] eqn:Hj.
  - run. apply traverse_total. eapply Forall_impl; [exact Hrect|].
    intros r Hr. cbn beta in Hr. apply col_find_lt in Hj. unfold at_pos.
    destruct (r !! j) eqn:Hrj; [eauto|].
    apply lookup_ge_None in Hrj. lia.
  - apply col_find_None in Hj. contradiction.
Qed.

Lemma prep_map_zip (survey_map : list SchemaEntry) : forall cols,
  length cols = length survey_map ->
  let sm' := zip_with (fun e c => mkEntry (student e) (category e)
                                          (newhead e) c) survey_map cols in
  map survey_column sm' = cols
  /\ Forall2 (fun e e' => student e' = student e
                          /\ category e' = category e
                          /\ newhead e' = newhead e) survey_map sm'.
Proof.
  induction survey_map as [|e sm IH]; intros [|c cols] Hlen;
    try discriminate; simpl.
  - split; [reflexivity | constructor].
  - destruct (IH cols) as [H1 H2]; [simpl in Hlen; lia|].
    split; [by f_equal | by constructor].
Qed.

(** [prep_map] files the column labels of the response sheet in the
    schema, one for one and in order, and touches nothing else in it; it
    raises [ValueError] exactly when the sheet has not as many columns as
    the schema has rows.  After it, every column that [find_columns]
    names by its ['survey_column'] can be selected from a rectangular
    sheet. *)
Theorem prep_map_spec (survey_results : DataFrame)
    (survey_map : list SchemaEntry) :
  match prep_map survey_results survey_map with
  | Ok sm' =>
      map survey_column sm' = columns survey_results
      /\ Forall2 (fun e e' => student e' = student e
                              /\ category e' = category e
                              /\ newhead e' = newhead e) survey_map sm'
      /\ (rect survey_results ->
          forall who cat, exists df,
            select survey_results
                   (find_columns sm' who cat survey_col None None) = Ok df)
  | Err e =>
      e = ValueError
      /\ length (columns survey_results) <> length survey_map
  end.
Proof.
  unfold prep_map.
  destruct (Nat.eqb_spec (length (columns survey_results))
                         (length survey_map)) as [Hlen|Hlen]; [|auto].
  destruct (prep_map_zip survey_map (columns survey_results) Hlen)
    as [Hcols Hrest].
  split; [exact Hcols|]. split; [exact Hrest|].
  intros Hrect who cat.
  destruct (select_Ok survey_results
              (find_columns
                 (zip_with (fun e c => mkEntry (student e) (category e)
                                               (newhead e) c)
                           survey_map (columns survey_results))
                 who cat survey_col None None)) as (sel & Hsel & _).
  - intros c Hc. apply col_values_total; [exact Hrect|].
    apply find_columns_iff in Hc as (e & He & _ & _ & <- & _).
    rewrite <- Hcols. apply list_elem_of_In, in_map.
    by apply list_elem_of_In.
  - eauto.
Qed.

(** * Writing a response into the roster *)

Lemma length_set_at js v (r : list cell) : length (set_at js v r) = length r.
Proof.
  unfold set_at. generalize (zip js v). intros l. revert r.
  induction l as [|jx l IH]; intros r; simpl; [reflexivity|].
  by rewrite IH, length_insert.
Qed.

Lemma set_at_other js : forall v (r : list cell) j,
  j ∉ js -> set_at js v r !! j = r !! j.
Proof.
  unfold set_at. induction js as [|j0 js IH]; intros v r j Hj; [reflexivity|].
  destruct v as [|v0 v]; [reflexivity|]. simpl.
  apply not_elem_of_cons in Hj as [Hne Hj].
  rewrite IH by exact Hj. by apply list_lookup_insert_ne.
Qed.

Lemma set_at_lookup js : forall v (r : list cell) k j x,
  NoDup js -> js !! k = Some j -> v !! k = Some x -> (j < length r)%nat ->
  set_at js v r !! j = Some x.
Proof.
  induction js as [|j0 js IH]; intros v r k j x Hnd Hj Hx Hlt;
    [discriminate|].
  destruct v as [|v0 v]; [discriminate|].
  apply NoDup_cons in Hnd as [Hj0 Hnd].
  change (set_at (j0 :: js) (v0 :: v) r) with (set_at js v (<[j0 := v0]> r)).
  destruct k as [|k]; simpl in Hj, Hx.
  - injection Hj as ->. injection Hx as ->.
    rewrite set_at_other by exact Hj0. by apply list_lookup_insert_eq.
  - eapply IH; eauto. by rewrite length_insert.
Qed.

Lemma write_rows_shape js : forall (rs : list (list cell)) mask values,
  length (write_rows js rs mask values) = length rs
  /\ Forall2 (fun r r' => length r' = length r) rs
             (write_rows js rs mask values)
  /\ forall i r, rs !! i = Some r -> mask !! i <> Some true ->
                 write_rows js rs mask values !! i = Some r.
Proof.
  induction rs as [|r rs IH]; intros mask values.
  - destruct mask; simpl; repeat split; try constructor; auto.
  - assert (Hsame : Forall2 (fun r0 r' : list cell => length r' = length r0)
                            (r :: rs) (r :: rs))
      by (apply Forall2_same_length_lookup_2; [reflexivity|];
          intros; congruence).
    destruct mask as [|[|] mask]; simpl.
    + repeat split; auto.
    + destruct values as [|v vs]; simpl.
      * repeat split; auto.
      * destruct (IH mask vs) as (Hl & Hf & Hk).
        split; [by f_equal|]. split.
        -- constructor; [apply length_set_at | exact Hf].
        -- intros [|i] r0 Hi Hm; simpl in *; [congruence | by apply Hk].
    + destruct (IH mask values) as (Hl & Hf & Hk).
      split; [by f_equal|]. split.
      * constructor; [reflexivity | exact Hf].
      * intros [|i] r0 Hi Hm; simpl in *; [exact Hi | by apply Hk].
Qed.

Lemma write_rows_masked js v : forall (rs : list (list cell)) mask m i r,
  (length (List.filter id mask) <= m)%nat ->
  rs !! i = Some r -> mask !! i = Some true ->
  write_rows js rs mask (replicate m v) !! i = Some (set_at js v r).
Proof.
  induction rs as [|r0 rs IH]; intros mask m i r Hm Hi Hmask;
    [discriminate|].
  destruct mask as [|b mask]; [discriminate|].
  destruct b; simpl in Hm.
  - destruct m as [|m]; [lia|]. simpl.
    destruct i as [|i]; simpl in *.
    + by injection Hi as ->.
    + eapply IH; eauto. lia.
  - destruct i as [|i]; simpl in *; [discriminate|].
    eapply IH; eauto.
Qed.

Lemma loc_set_mask_Ok df mask cols values df' :
  loc_set_mask df mask cols values = Ok df' ->
  exists js vs,
    traverse (fun c => col_pos c (columns df)) cols = Ok js
    /\ df' = mkDF (columns df) (write_rows js (rows df) mask vs)
    /\ (vs = values
        \/ exists v, values = [v]
                     /\ vs = replicate (length (List.filter id mask)) v).
Proof.
  unfold loc_set_mask.
  destruct (traverse _ cols) as [js|]; run; [|discriminate].
  destruct (negb _); [discriminate|].
  destruct (Nat.eqb _ _).
  - intros [= <-]. exists js, values. auto.
  - destruct values as [|v [|? ?]]; try discriminate.
    intros [= <-]. exists js. eexists. split; [reflexivity|].
    split; [reflexivity|]. right. eauto.
Qed.

(** Merging a response touches only the roster rows whose key equals the
    one looked for: the roster keeps its header and its number of rows,
    every row keeps its length, and every row with another key, or with a
    missing one, is left exactly as it was. *)
Theorem merge_keeps_other_rows (grade_book evals_self gb' : DataFrame)
    (col_email key_col : string) (email key : cell) :
  merge_self grade_book evals_self col_email email key_col key = Ok gb' ->
  columns gb' = columns grade_book
  /\ Forall2 (fun r r' => length r' = length r) (rows grade_book) (rows gb')
  /\ exists keys,
       col_values grade_book key_col = Ok keys
       /\ forall i r kv,
            rows grade_book !! i = Some r -> keys !! i = Some kv ->
            cell_eqb kv key = false ->
            rows gb' !! i = Some r.
Proof.
  unfold merge_self. intros H.
  destruct (col_values grade_book key_col) as [keys|] eqn:Hk; [|discriminate].
  revert H. run.
  destruct (col_values evals_self col_email) as [emails|]; run;
    [|discriminate].
  intros H. apply loc_set_mask_Ok in H as (js & vs & _ & -> & _). simpl.
  destruct (write_rows_shape js (rows grade_book) (eq_mask keys key) vs)
    as (_ & Hf & Hother).
  split; [reflexivity|]. split; [exact Hf|].
  exists keys. split; [reflexivity|].
  intros i r kv Hi Hkv Hne. apply Hother; [exact Hi|].
  unfold eq_mask. rewrite list_lookup_fmap, Hkv. simpl. congruence.
Qed.

Lemma positions_total cols (header : list string) :
  (forall c, c ∈ cols -> c ∈ header) ->
  exists js, traverse (fun c => col_pos c header) cols = Ok js.
Proof.
  intros H. apply traverse_total, Forall_forall. intros c Hc.
  unfold col_pos. destruct (col_find c header) eqn:Hf; [eauto|].
  apply col_find_None in Hf. exfalso. by apply Hf, H.
Qed.

Lemma positions_NoDup cols (header : list string) js :
  NoDup cols ->
  traverse (fun c => col_pos c header) cols = Ok js ->
  NoDup js.
Proof.
  intros Hnd H. apply traverse_Ok in H.
  apply NoDup_alt. intros k1 k2 j H1 H2.
  destruct (Forall2_lookup_r _ _ _ _ _ H H1) as (c1 & Hc1 & Hp1).
  destruct (Forall2_lookup_r _ _ _ _ _ H H2) as (c2 & Hc2 & Hp2).
  apply col_pos_Ok, col_find_Some in Hp1, Hp2.
  assert (c1 = c2) by congruence. subst c2.
  eapply NoDup_lookup; eauto.
Qed.

(** Merging one response into the roster succeeds and writes it where it
    belongs: when the response sheet labels its columns without
    repetition, all of them columns of a rectangular roster, and one
    response carries the address, every roster row with the key looked
    for reads, under each of these labels, the value the response has
    there. *)
Theorem merge_writes_response (grade_book evals_self : DataFrame)
    (col_email key_col : string) (email key : cell)
    (emails keys v : list cell) :
  rect grade_book ->
  NoDup (columns evals_self) ->
  (forall c, c ∈ columns evals_self -> c ∈ columns grade_book) ->
  col_values grade_book key_col = Ok keys ->
  col_values evals_self col_email = Ok emails ->
  rows_where evals_self (eq_mask emails email) = [v] ->
  length v = length (columns evals_self) ->
  exists gb',
    merge_self grade_book evals_self col_email email key_col key = Ok gb'
    /\ forall i kv k c x,
         keys !! i = Some kv -> cell_eqb kv key = true ->
         columns evals_self !! k = Some c -> v !! k = Some x ->
         loc_get gb' i c = Ok x.
Proof.
  intros Hrect Hnd Hsub Hkeys Hemails Hone Hlen.
  destruct (positions_total _ _ Hsub) as [js Hjs].
  pose proof (positions_NoDup _ _ _ Hnd Hjs) as Hndjs.
  set (mask := eq_mask keys key).
  set (n := length (List.filter id mask)).
  assert (Hrun : loc_set_mask grade_book mask (columns evals_self) [v]
                 = Ok (mkDF (columns grade_book)
                            (write_rows js (rows grade_book) mask
                                        (replicate n v)))).
  { unfold loc_set_mask. rewrite Hjs. run. simpl forallb.
    rewrite Hlen, Nat.eqb_refl. simpl negb. cbn iota.
    fold n. destruct (Nat.eqb_spec (length [v]) n) as [Hn|Hn].
    - simpl in Hn. rewrite <- Hn. reflexivity.
    - reflexivity. }
  eexists. split.
  { unfold merge_self. rewrite Hkeys. run. rewrite Hemails. run.
    rewrite Hone. exact Hrun. }
  intros i kv k c x Hkv Heq Hc Hx.
  apply traverse_Ok in Hjs.
  destruct (Forall2_lookup_l _ _ _ _ _ Hjs Hc) as (j & Hj & Hpos).
  unfold loc_get. cbn [columns rows]. rewrite Hpos. run.
  pose proof (col_values_length _ _ _ Hkeys) as Hlk.
  assert (Hrow : exists r, rows grade_book !! i = Some r).
  { apply lookup_lt_is_Some. rewrite <- Hlk. eapply lookup_lt_Some, Hkv. }
  destruct Hrow as [r Hr].
  assert (Hm : mask !! i = Some true).
  { unfold mask, eq_mask. rewrite list_lookup_fmap, Hkv. simpl. by rewrite Heq. }
  rewrite (proj2 (at_pos_Ok _ _ _)
             (write_rows_masked js v _ mask n i r (Nat.le_refl _) Hr Hm)).
  run. apply at_pos_Ok.
  eapply set_at_lookup; eauto.
  unfold rect in Hrect. rewrite Forall_forall in Hrect.
  rewrite (Hrect r) by (eapply list_elem_of_lookup_2, Hr).
  eapply col_find_lt, col_pos_Ok, Hpos.
Qed.

Lemma merge_writes_response_witness :
  exists gb',
    merge_self
      (mkDF ["Name"; "SIS Login ID"; "SE: Email"; "SE: Effort"]
            [[Str "Jane Doe"; Str "jdoe"; Str ""; Str ""];
             [Str "Ravi Patel"; Str "rpatel"; Str ""; Str ""]])
      (mkDF ["SE: Email"; "SE: Effort"]
            [[Str "jdoe@uni.edu"; Num 4]; [Str "rpatel@uni.edu"; Num 5]])
      "SE: Email" (Str "rpatel@uni.edu") GB_SID (Str "rpatel") = Ok gb'
    /\ forall i kv k c x,
         [Str "jdoe"; Str "rpatel"] !! i = Some kv ->
         cell_eqb kv (Str "rpatel") = true ->
         ["SE: Email"; "SE: Effort"] !! k = Some c ->
         [Str "rpatel@uni.edu"; Num 5] !! k = Some x ->
         loc_get gb' i c = Ok x.
Proof.
  apply (merge_writes_response _
           (mkDF ["SE: Email"; "SE: Effort"]
                 [[Str "jdoe@uni.edu"; Num 4]; [Str "rpatel@uni.edu"; Num 5]])
           "SE: Email" GB_SID (Str "rpatel@uni.edu") (Str "rpatel")
           [Str "jdoe@uni.edu"; Str "rpatel@uni.edu"]).
  - repeat constructor.
  - apply (bool_decide_unpack _). reflexivity.
  - intros c Hc. simpl in *.
    repeat (apply elem_of_cons in Hc as [-> | Hc];
            [apply (bool_decide_unpack _); reflexivity|]).
    by apply elem_of_nil in Hc.
  - reflexivity.
  - reflexivity.
  - reflexivity.
  - reflexivity.
Defined.

Lemma merge_keeps_other_rows_witness :
  exists gb',
    merge_self
      (mkDF ["Name"; "SIS Login ID"; "SE: Email"; "SE: Effort"]
            [[Str "Jane Doe"; Str "jdoe"; Str ""; Str ""];
             [Str "Ravi Patel"; Str "rpatel"; Str ""; Str ""]])
      (mkDF ["SE: Email"; "SE: Effort"]
            [[Str "jdoe@uni.edu"; Num 4]; [Str "rpatel@uni.edu"; Num 5]])
      "SE: Email" (Str "rpatel@uni.edu") GB_SID (Str "rpatel") = Ok gb'
    /\ columns gb' = ["Name"; "SIS Login ID"; "SE: Email"; "SE: Effort"]
    /\ rows gb' !! 0%nat = Some [Str "Jane Doe"; Str "jdoe"; Str ""; Str ""].
Proof.
  eexists. split; [vm_compute; reflexivity|].
  destruct (merge_keeps_other_rows
              (mkDF ["Name"; "SIS Login ID"; "SE: Email"; "SE: Effort"]
                    [[Str "Jane Doe"; Str "jdoe"; Str ""; Str ""];
                     [Str "Ravi Patel"; Str "rpatel"; Str ""; Str ""]])
              (mkDF ["SE: Email"; "SE: Effort"]
                    [[Str "jdoe@uni.edu"; Num 4];
                     [Str "rpatel@uni.edu"; Num 5]])
              _ "SE: Email" GB_SID (Str "rpatel@uni.edu") (Str "rpatel")
              eq_refl) as (Hcols & _ & keys & Hkeys & Hother).
  split; [exact Hcols|].
  injection Hkeys as <-.
  apply (Hother 0%nat _ (Str "jdoe")); reflexivity.
Defined.

(** * [add_empty_cols] *)

Lemma set_col_setitem df c v :
  set_col df c v = setitem_series df c (replicate (length (rows df)) v).
Proof.
  unfold set_col, setitem_series.
  destruct (col_find c (columns df)) as [j|]; f_equal;
    induction (rows df) as [|r rs IH]; simpl; congruence.
Qed.

Lemma set_col_blank df c v :
  rect df ->
  rect (set_col df c v)
  /\ length (rows (set_col df c v)) = length (rows df)
  /\ col_values (set_col df c v) c = Ok (replicate (length (rows df)) v)
  /\ forall c', c' <> c -> col_values (set_col df c v) c' = col_values df c'.
Proof.
  intros Hrect. rewrite set_col_setitem.
  assert (Hlen : length (replicate (length (rows df)) v) = length (rows df))
    by apply length_replicate.
  destruct (setitem_series_rect df c _ Hrect Hlen) as [H1 H2].
  split; [exact H1|]. split; [exact H2|]. split.
  - by apply col_values_setitem_eq.
  - intros c' Hne. by apply col_values_setitem_ne.
Qed.

(** [add_empty_cols] leaves a frame in which every listed column holds
    the empty text in every row, whether the column is new or was there
    with values in it, and every other column reads as before; no row is
    added or lost. *)
Theorem add_empty_cols_spec (dataframe : DataFrame) (cols : list string) :
  rect dataframe ->
  rect (add_empty_cols dataframe cols)
  /\ length (rows (add_empty_cols dataframe cols)) = length (rows dataframe)
  /\ (forall c, c ∈ cols ->
        col_values (add_empty_cols dataframe cols) c
        = Ok (replicate (length (rows dataframe)) (Str "")))
  /\ (forall c, c ∉ cols ->
        col_values (add_empty_cols dataframe cols) c
        = col_values dataframe c).
Proof.
  unfold add_empty_cols. revert dataframe.
  induction cols as [|a cols IH]; intros df Hrect; simpl.
  - split; [exact Hrect|]. split; [reflexivity|].
    split; [|reflexivity]. intros c Hc. by apply elem_of_nil in Hc.
  - destruct (set_col_blank df a (Str "") Hrect) as (Hr1 & Hl1 & Hb1 & Ho1).
    destruct (IH _ Hr1) as (Hr & Hl & Hb & Ho).
    split; [exact Hr|]. split; [congruence|]. split.
    + intros c Hc. destruct (decide (c ∈ cols)) as [Hin|Hout].
      * rewrite Hb by exact Hin. by rewrite Hl1.
      * apply elem_of_cons in Hc as [->|Hc]; [|contradiction].
        rewrite Ho by exact Hout. exact Hb1.
    + intros c Hc. apply not_elem_of_cons in Hc as [Hne Hout].
      rewrite Ho by exact Hout. by apply Ho1.
Qed.

Lemma add_empty_cols_spec_witness :
  rect (add_empty_cols demo_roster_scored ["SE: Effort"; "PE: N"])
  /\ length (rows (add_empty_cols demo_roster_scored ["SE: Effort"; "PE: N"]))
     = length (rows demo_roster_scored)
  /\ (forall c, c ∈ ["SE: Effort"; "PE: N"] ->
        col_values (add_empty_cols demo_roster_scored ["SE: Effort"; "PE: N"]) c
        = Ok (replicate (length (rows demo_roster_scored)) (Str "")))
  /\ (forall c, c ∉ ["SE: Effort"; "PE: N"] ->
        col_values (add_empty_cols demo_roster_scored ["SE: Effort"; "PE: N"]) c
        = col_values demo_roster_scored c).
Proof.
  apply (add_empty_cols_spec demo_roster_scored ["SE: Effort"; "PE: N"]).
  repeat constructor.
Defined.

(** * The stack of peer evaluations *)

Lemma stacked_index_column (rs : list (list cell)) :
  forall g : nat -> cell,
    traverse (fun r => at_pos r 0) (imap (fun i r => g i :: r) rs)
    = Ok (map g (seq 0 (length rs))).
Proof.
  induction rs as [|r rs IH]; intros g; [reflexivity|].
  change (imap (fun i r => g i :: r) (r :: rs))
    with ((g 0%nat :: r) :: imap (fun i r => (g ∘ S) i :: r) rs).
  change (traverse (fun r => at_pos r 0)
            ((g 0%nat :: r) :: imap (fun i r => (g ∘ S) i :: r) rs))
    with (bs ← traverse (fun r => at_pos r 0)
                        (imap (fun i r => (g ∘ S) i :: r) rs);
          Ok (g 0%nat :: bs)).
  rewrite (IH (g ∘ S)). run. simpl length. simpl seq.
  rewrite <- seq_shift. cbn [map]. rewrite map_map. reflexivity.
Qed.

Lemma traverse_app {A B} (f : A -> result B) l1 l2 b1 b2 :
  traverse f l1 = Ok b1 -> traverse f l2 = Ok b2 ->
  traverse f (l1 ++ l2) = Ok (b1 ++ b2).
Proof.
  rewrite !traverse_Ok. apply Forall2_app.
Qed.

Lemma stack_peer_Ok survey_results survey_map evals_peer peer ev' :
  stack_peer survey_results survey_map evals_peer peer = Ok ev' ->
  columns ev' = columns evals_peer
  /\ exists stacked,
       rows ev' = rows evals_peer ++ stacked
       /\ length stacked = length (rows survey_results)
       /\ traverse (fun r => at_pos r 0) stacked
          = Ok (map index_cell (seq 0 (length (rows survey_results)))).
Proof.
  unfold stack_peer.
  destruct (select survey_results _) as [peer_evals|] eqn:Hsel; run;
    [|discriminate].
  destruct (Nat.eqb _ _); [|discriminate].
  intros [= <-]. simpl. split; [reflexivity|].
  apply select_shape in Hsel as (_ & Hlen & _).
  eexists. split; [reflexivity|]. split.
  - by rewrite length_imap.
  - rewrite <- Hlen. apply (stacked_index_column (rows peer_evals) index_cell).
Qed.

Lemma stack_fold survey_results survey_map peers : forall ev ev' idxs,
  foldM (stack_peer survey_results survey_map) peers ev = Ok ev' ->
  traverse (fun r => at_pos r 0) (rows ev) = Ok idxs ->
  columns ev' = columns ev
  /\ length (rows ev')
     = (length (rows ev) + length peers * length (rows survey_results))%nat
  /\ traverse (fun r => at_pos r 0) (rows ev')
     = Ok (idxs ++ flat_map (fun _ => map index_cell
                                   (seq 0 (length (rows survey_results))))
                            peers).
Proof.
  induction peers as [|p peers IH]; intros ev ev' idxs H Hidx; simpl in H.
  - injection H as <-. simpl. rewrite app_nil_r.
    split; [reflexivity|]. split; [lia | exact Hidx].
  - destruct (stack_peer _ _ ev p) as [ev1|] eqn:H1; [|discriminate].
    revert H. run. intros H.
    apply stack_peer_Ok in H1 as (Hc1 & stacked & Hr1 & Hl1 & Ht1).
    assert (Hidx1 : traverse (fun r => at_pos r 0) (rows ev1)
                    = Ok (idxs ++ map index_cell
                                    (seq 0 (length (rows survey_results)))))
      by (rewrite Hr1; by apply traverse_app).
    destruct (IH _ _ _ H Hidx1) as (Hc & Hl & Ht).
    split; [congruence|]. split.
    + rewrite Hl, Hr1, length_app, Hl1. simpl. lia.
    + rewrite Ht. simpl. by rewrite <- app_assoc.
Qed.

(** The set-up of [process_peer_evals] stacks the response sheet once for
    every peer slot: the stack has as many rows as there are responses
    times peer slots, and its ['review_row'] column counts the responses
    from 0 within each slot, one slot after the other. *)
Theorem peer_setup_stacks (all_peers : list string)
    (grade_book survey_results : DataFrame) (survey_map : list SchemaEntry)
    (s : PeerSetup) :
  peer_setup all_peers grade_book survey_results survey_map = Ok s ->
  length (rows (ps_evals_peer s))
  = (length all_peers * length (rows survey_results))%nat
  /\ col_values (ps_evals_peer s) "review_row"
     = Ok (flat_map (fun _ => map index_cell
                                  (seq 0 (length (rows survey_results))))
                    all_peers).
Proof.
  unfold peer_setup. intros H.
  destruct (first_peer survey_map) as [firstpeer|]; [|discriminate].
  revert H. run.
  destruct (foldM _ all_peers _) as [evals_peer|] eqn:Hfold; run;
    [|discriminate].
  destruct (peer_columns survey_map) as [pe_cols|]; run; [|discriminate].
  destruct (col_values _ "Name") as [names|]; run; [|discriminate].
  destruct (unpack1 _) as [col_peername|]; run; [|discriminate].
  intros [= <-]. simpl.
  destruct (stack_fold _ _ _ _ _ [] Hfold eq_refl) as (Hc & Hl & Ht).
  split; [exact Hl|].
  unfold col_values, col_pos. rewrite Hc. simpl. run. exact Ht.
Qed.

Lemma peer_setup_stacks_witness :
  length (rows (ps_evals_peer demo_peer_setup))
  = (length ["peer1"; "peer2"] * length (rows demo_responses))%nat
  /\ col_values (ps_evals_peer demo_peer_setup) "review_row"
     = Ok (flat_map (fun _ => map index_cell
                                  (seq 0 (length (rows demo_responses))))
                    ["peer1"; "peer2"]).
Proof.
  apply (peer_setup_stacks ["peer1"; "peer2"] demo_roster demo_responses
           demo_schema demo_peer_setup).
  vm_compute. reflexivity.
Defined.

(** * The fallback on a row *)

Lemma collect_peer_names_texts survey_map eval_row peers : forall acc,
  (forall peer, peer ∈ peers ->
     exists v, identifying survey_map eval_row peer "name" = Ok (Scalar v)
               /\ (py_in v NA_LIST = true \/ exists t, v = Str t)) ->
  Forall (fun o => exists t, o = Scalar (Str t)) acc ->
  exists peer_names,
    foldM (fun (peer_names : list pyobj) peer =>
             peer_name ← identifying survey_map eval_row peer "name";
             na ← obj_in_NA_LIST peer_name;
             Ok (if (na : bool) then peer_names
                 else peer_names ++ [peer_name]))
          peers acc = Ok peer_names
    /\ Forall (fun o => exists t, o = Scalar (Str t)) peer_names.
Proof.
  induction peers as [|p peers IH]; intros acc Hp Hacc; simpl; [eauto|].
  destruct (Hp p) as (v & -> & Hv); [by left|]. run. cbn [obj_in_NA_LIST].
  run. apply IH.
  - intros peer Hin. apply Hp. by right.
  - destruct (py_in v NA_LIST) eqn:Hna; cbn iota; [exact Hacc|].
    destruct Hv as [Hv|[t ->]]; [discriminate|].
    apply Forall_app. split; [exact Hacc|]. repeat constructor. eauto.
Qed.

Lemma traverse_obj_text os :
  Forall (fun o => exists t, o = Scalar (Str t)) os ->
  exists ts, traverse obj_text os = Ok ts.
Proof.
  intros H. apply traverse_total. eapply Forall_impl; [exact H|].
  intros o [t ->]. simpl. eauto.
Qed.

(** On a row of the response sheet whose section, team and name cells
    are texts and whose peer-name cells are texts or blank, asked about a
    peer, [find_student] does get to its prompt and returns the first
    line the operator types that is a roster name or a member of
    [NA_LIST], having turned down, with a complaint each, the lines before
    it. *)
Theorem find_student_on_row (grade_book : DataFrame)
    (survey_map : list SchemaEntry) (eval_row : EvalRow) (student : string)
    (section team reviewer : string) (email : pyobj) (names : list cell)
    (rejected rest out : list string) (name : string) :
  student <> "self" ->
  identifying survey_map eval_row "self" "section" = Ok (Scalar (Str section)) ->
  identifying survey_map eval_row "self" "team" = Ok (Scalar (Str team)) ->
  identifying survey_map eval_row "self" "email" = Ok email ->
  identifying survey_map eval_row "self" "name" = Ok (Scalar (Str reviewer)) ->
  (forall peer, peer ∈ unique_peers survey_map ->
     exists v, identifying survey_map eval_row peer "name" = Ok (Scalar v)
               /\ (py_in v NA_LIST = true \/ exists t, v = Str t)) ->
  col_values grade_book "Name" = Ok names ->
  Forall (fun a => py_in (Str a) names || py_in (Str a) NA_LIST = false)
         rejected ->
  py_in (Str name) names || py_in (Str name) NA_LIST = true ->
  exists prompt,
    find_student grade_book survey_map eval_row student
                 (mkConsole (rejected ++ name :: rest) out)
    = Returned name (mkConsole rest (out ++ dialogue prompt rejected)).
Proof.
  intros Hstudent Hsec Hteam Hemail Hname Hpeers Hnames Hrej Hacc.
  destruct (collect_peer_names_texts survey_map eval_row
              (unique_peers survey_map) [] Hpeers (Forall_nil_2 _))
    as (peer_names & Hcollect & Htexts).
  destruct (traverse_obj_text _ Htexts) as [others Hothers].
  unfold find_student.
  rewrite io_bind_of, Hsec, io_bind_of, Hteam, io_bind_of, Hemail.
  rewrite io_bind_of, Hname, io_bind_of.
  unfold collect_peer_names. rewrite Hcollect.
  apply String.eqb_neq in Hstudent. rewrite Hstudent.
  rewrite io_bind_of. unfold peer_prompt. cbn [obj_text]. run.
  rewrite Hothers. run.
  eexists. unfold ask_until. cbn [pending shown].
  apply ask_first_accepted.
  - eapply Forall_impl; [exact Hrej|]. intros a Ha. unfold accepted.
    rewrite Hnames. run. by rewrite Ha.
  - unfold accepted. rewrite Hnames. run. by rewrite Hacc.
Qed.

Lemma find_student_on_row_witness :
  exists prompt,
    find_student demo_roster demo_schema demo_row0 "Robbie Patel"
                 (mkConsole (["Rob"; "R. Patel"] ++ "Ravi Patel" :: ["NA"]) [])
    = Returned "Ravi Patel"
               (mkConsole ["NA"] ([] ++ dialogue prompt ["Rob"; "R. Patel"])).
Proof.
  eapply (find_student_on_row demo_roster demo_schema demo_row0
            "Robbie Patel" "A" "T1" "jane doe" _
            [Str "Jane Doe"; Str "Ravi Patel"]).
  - discriminate.
  - reflexivity.
  - reflexivity.
  - reflexivity.
  - reflexivity.
  - intros peer Hin.
    change (unique_peers demo_schema) with ["peer1"; "peer2"] in Hin.
    apply elem_of_cons in Hin as [->|Hin].
    { exists (Str "Robbie Patel"). split; [reflexivity|]. right. eauto. }
    apply elem_of_cons in Hin as [->|Hin].
    { exists NaN. split; [reflexivity|]. by left. }
    by apply elem_of_nil in Hin.
  - reflexivity.
  - repeat constructor.
  - reflexivity.
Defined.

(** * Blank cells at the end of a pass *)

Lemma select_columns_present df cols sel c :
  select df cols = Ok sel -> c ∈ cols -> c ∈ columns df.
Proof.
  unfold select. destruct (traverse _ cols) as [js|] eqn:Hjs; [|discriminate].
  intros _ Hc. apply traverse_Ok in Hjs.
  apply list_elem_of_lookup in Hc as [k Hk].
  destruct (Forall2_lookup_l _ _ _ _ _ Hjs Hk) as (j & _ & Hj).
  apply col_pos_Ok, col_find_Some in Hj. eapply list_elem_of_lookup_2, Hj.
Qed.

Lemma col_find_first c cols :
  c ∈ cols -> exists k, col_find c cols = Some k /\ cols !! k = Some c.
Proof.
  intros Hc. destruct (col_find c cols) as [k|] eqn:Hk.
  - exists k. split; [reflexivity | by apply col_find_Some].
  - apply col_find_None in Hk. contradiction.
Qed.

Lemma cleared_column df cols sel c vs :
  rect df -> select df cols = Ok sel -> c ∈ cols ->
  col_values df c = Ok vs ->
  col_values (mkDF (columns sel) (map (map blank_to_nan) (rows sel))) c
  = Ok (map blank_to_nan vs).
Proof.
  intros Hrect Hsel Hc Hvs.
  destruct (select_Ok df cols) as (sel' & Hsel' & Hcols & _ & _ & Hcol).
  { intros c' Hc'. apply col_values_total; [exact Hrect|].
    eapply select_columns_present; eauto. }
  assert (sel' = sel) by congruence. subst sel'.
  destruct (col_find_first c cols Hc) as (k & Hfind & Hk).
  specialize (Hcol k c vs Hk Hvs).
  apply col_values_Ok. exists k. simpl. rewrite Hcols. split; [exact Hfind|].
  clear Hvs.
  induction Hcol as [|r v rs vs' Hr _ IH]; simpl; [constructor|].
  constructor; [|exact IH].
  by rewrite list_lookup_fmap, Hr.
Qed.

Lemma loc_set_cols_fold (src : DataFrame) (f : string -> list cell) todo :
  forall d d',
    rect d ->
    (forall c, c ∈ todo -> col_values src c = Ok (f c)
                           /\ length (f c) = length (rows d)) ->
    loc_set_cols d todo src = Ok d' ->
    columns d' = columns d
    /\ rect d'
    /\ (forall c, c ∈ todo -> col_values d' c = Ok (f c))
    /\ (forall c, c ∉ todo -> col_values d' c = col_values d c).
Proof.
  unfold loc_set_cols. induction todo as [|a todo IH]; intros d d' Hrect Hsrc H;
    simpl in H.
  - injection H as <-. repeat split; auto.
    intros c Hc. by apply elem_of_nil in Hc.
  - destruct (Hsrc a) as [Ha Hla]; [by left|]. rewrite Ha in H.
    revert H. run.
    destruct (col_pos a (columns d)) as [j|] eqn:Hj; run; [|discriminate].
    assert (Hstep : mkDF (columns d)
                      (zip_with (fun r v => <[j := v]> r) (rows d) (f a))
                    = setitem_series d a (f a)).
    { unfold setitem_series. apply col_pos_Ok in Hj. by rewrite Hj. }
    rewrite Hstep. intros H.
    destruct (setitem_series_rect d a (f a) Hrect Hla) as [Hr1 Hl1].
    assert (Hc1 : columns (setitem_series d a (f a)) = columns d).
    { unfold setitem_series. apply col_pos_Ok in Hj. by rewrite Hj. }
    assert (Hsrc1 : forall c, c ∈ todo ->
              col_values src c = Ok (f c)
              /\ length (f c) = length (rows (setitem_series d a (f a)))).
    { intros c Hc. destruct (Hsrc c) as [? ?]; [by right|].
      split; [assumption | congruence]. }
    destruct (IH _ _ Hr1 Hsrc1 H) as (Hcols & Hr & Hin & Hout).
    split; [congruence|]. split; [exact Hr|]. split.
    + intros c Hc. destruct (decide (c ∈ todo)) as [Hi|Ho]; [by apply Hin|].
      apply elem_of_cons in Hc as [->|Hc]; [|contradiction].
      rewrite Hout by exact Ho. by apply col_values_setitem_eq.
    + intros c Hc. apply not_elem_of_cons in Hc as [Hne Ho].
      rewrite Hout by exact Ho. by apply col_values_setitem_ne.
Qed.

(** The last statement of each pass, [df.loc[:, cols] =
    df[cols].replace('', np.nan)], turns the empty texts of the listed
    columns into missing markers and changes nothing else: a listed column
    reads as before with [blank_to_nan] applied to every cell, any other
    column reads as before. *)
Theorem replace_blank_spec (df df' : DataFrame) (cols : list string) :
  rect df ->
  replace_blank df cols = Ok df' ->
  columns df' = columns df
  /\ rect df'
  /\ (forall c vs, c ∈ cols -> col_values df c = Ok vs ->
        col_values df' c = Ok (map blank_to_nan vs))
  /\ (forall c, c ∉ cols -> col_values df' c = col_values df c).
Proof.
  intros Hrect H. unfold replace_blank in H.
  destruct (select df cols) as [sel|] eqn:Hsel; [|discriminate].
  revert H. run. intros H.
  set (f := fun c => match col_values df c with
                     | Ok vs => map blank_to_nan vs
                     | Err _ => []
                     end).
  assert (Hsrc : forall c, c ∈ cols ->
            col_values (mkDF (columns sel)
                             (map (map blank_to_nan) (rows sel))) c
            = Ok (f c)
            /\ length (f c) = length (rows df)).
  { intros c Hcin.
    destruct (col_values_total df c Hrect) as [vs Hvs].
    { eapply select_columns_present; eauto. }
    unfold f. rewrite Hvs. split.
    - eapply (cleared_column df cols sel c vs); eauto.
    - rewrite length_map. eapply col_values_length, Hvs. }
  destruct (loc_set_cols_fold _ f cols df df' Hrect Hsrc H)
    as (Hc & Hr & Hin & Hout).
  split; [exact Hc|]. split; [exact Hr|]. split; [|exact Hout].
  intros c vs Hcin Hvs. rewrite (Hin c Hcin). unfold f. by rewrite Hvs.
Qed.

Lemma replace_blank_spec_witness :
  exists df',
    replace_blank (ps_grade_book demo_peer_setup) ["PE: N"; "Comments"] = Ok df'
    /\ columns df' = columns (ps_grade_book demo_peer_setup)
    /\ col_values df' "PE: N" = Ok [NaN; NaN]
    /\ col_values df' "Effort (avg)" = Ok [Str ""; Str ""].
Proof.
  eexists. split; [vm_compute; reflexivity|].
  assert (Hrect : rect (ps_grade_book demo_peer_setup))
    by repeat constructor.
  destruct (replace_blank_spec (ps_grade_book demo_peer_setup) _
              ["PE: N"; "Comments"] Hrect eq_refl)
    as (Hc & _ & Hin & Hout).
  split; [exact Hc|]. split.
  - apply (Hin "PE: N" [Str ""; Str ""]); [by left | reflexivity].
  - rewrite Hout; [reflexivity|].
    intros Hin'. apply elem_of_cons in Hin' as [?|Hin']; [discriminate|].
    apply elem_of_cons in Hin' as [?|Hin']; [discriminate|].
    by apply elem_of_nil in Hin'.
Defined.

(** * [fix_name] beyond ASCII *)

Lemma seven_bit_upper c :
  (nat_of_ascii c <? 128)%nat = true ->
  (nat_of_ascii (PyStr.upper_ascii c) <? 128)%nat = true.
Proof.
  destruct c as [[] [] [] [] [] [] [] []]; intros H;
    (reflexivity || discriminate H).
Qed.

Lemma seven_bit_lower c :
  (nat_of_ascii c <? 128)%nat = true ->
  (nat_of_ascii (PyStr.lower_ascii c) <? 128)%nat = true.
Proof.
  destruct c as [[] [] [] [] [] [] [] []]; intros H;
    (reflexivity || discriminate H).
Qed.

Lemma seven_bit_cons c r :
  seven_bit (String c r) = true
  <-> (nat_of_ascii c <? 128)%nat = true /\ seven_bit r = true.
Proof. cbn [seven_bit]. apply andb_true_iff. Qed.

Lemma seven_bit_cap_from b t :
  seven_bit t = true -> seven_bit (cap_from b t) = true.
Proof.
  revert b. induction t as [|c r IH]; intros b H; [reflexivity|].
  apply seven_bit_cons in H as [Hc Hr]. cbn [cap_from].
  destruct (Ascii.eqb c " ").
  - apply seven_bit_cons. split; [reflexivity | by apply IH].
  - apply seven_bit_cons. split; [|by apply IH].
    destruct b; [by apply seven_bit_upper | by apply seven_bit_lower].
Qed.

Lemma seven_bit_lstrip s :
  seven_bit s = true -> seven_bit (PyStr.lstrip s) = true.
Proof.
  induction s as [|c r IH]; intros H; [reflexivity|].
  cbn [PyStr.lstrip]. destruct (PyStr.is_space c); [|exact H].
  apply seven_bit_cons in H as [_ Hr]. by apply IH.
Qed.

Lemma seven_bit_rstrip s :
  seven_bit s = true -> seven_bit (PyStr.rstrip s) = true.
Proof.
  induction s as [|c r IH]; intros H; [reflexivity|].
  apply seven_bit_cons in H as [Hc Hr]. specialize (IH Hr).
  cbn [PyStr.rstrip]. destruct (PyStr.rstrip r) as [|d r'].
  - destruct (PyStr.is_space c); [reflexivity|].
    apply seven_bit_cons. by split.
  - apply seven_bit_cons. by split.
Qed.

Lemma seven_bit_fix_name s :
  seven_bit s = true -> seven_bit (fix_name s) = true.
Proof.
  intros H. rewrite fix_name_cap_from.
  apply seven_bit_cap_from, seven_bit_lstrip, seven_bit_rstrip, H.
Qed.

Lemma codes_app a b : Uni.codes (a +:+ b) = Uni.codes a ++ Uni.codes b.
Proof.
  induction a as [|c a IH]; [reflexivity|].
  change (String c a +:+ b) with (String c (a +:+ b)).
  cbn [Uni.codes]. by rewrite IH.
Qed.

Lemma is_space_code c :
  (nat_of_ascii c <? 128)%nat = true ->
  Uni.is_space (N_of_ascii c) = Some (PyStr.is_space c).
Proof.
  destruct c as [[] [] [] [] [] [] [] []]; intros H;
    (reflexivity || discriminate H).
Qed.

Lemma title_code c :
  (nat_of_ascii c <? 128)%nat = true ->
  Uni.title (N_of_ascii c) = Some [N_of_ascii (PyStr.upper_ascii c)].
Proof.
  destruct c as [[] [] [] [] [] [] [] []]; intros H;
    (reflexivity || discriminate H).
Qed.

Lemma lower_code c :
  (nat_of_ascii c <? 128)%nat = true ->
  Uni.lower (N_of_ascii c) = Some [N_of_ascii (PyStr.lower_ascii c)].
Proof.
  destruct c as [[] [] [] [] [] [] [] []]; intros H;
    (reflexivity || discriminate H).
Qed.

Lemma blank_code c : (N_of_ascii c =? 32)%N = Ascii.eqb c " ".
Proof. destruct c as [[] [] [] [] [] [] [] []]; reflexivity. Qed.

Lemma lower_all_codes r :
  seven_bit r = true ->
  Uni.lower_all (Uni.codes r) = Some (Uni.codes (PyStr.lower r)).
Proof.
  unfold PyStr.lower. induction r as [|c r IH]; intros H; [reflexivity|].
  apply seven_bit_cons in H as [Hc Hr].
  cbn [Uni.codes Uni.lower_all PyStr.smap].
  rewrite (lower_code c Hc), (IH Hr). reflexivity.
Qed.

Lemma capitalize_codes s :
  seven_bit s = true ->
  Uni.capitalize (Uni.codes s) = Some (Uni.codes (PyStr.capitalize s)).
Proof.
  destruct s as [|c r]; intros H; [reflexivity|].
  apply seven_bit_cons in H as [Hc Hr].
  cbn [Uni.codes Uni.capitalize PyStr.capitalize].
  rewrite (title_code c Hc), (lower_all_codes r Hr). reflexivity.
Qed.

Lemma split_codes s :
  Uni.split 32 (Uni.codes s) = map Uni.codes (PyStr.split " " s).
Proof.
  induction s as [|c r IH]; [reflexivity|].
  cbn [Uni.codes Uni.split PyStr.split]. rewrite blank_code, IH.
  destruct (Ascii.eqb c " "); [reflexivity|].
  destruct (PyStr.split " " r); reflexivity.
Qed.

Lemma seven_bit_split s :
  seven_bit s = true ->
  Forall (fun w => seven_bit w = true) (PyStr.split " " s).
Proof.
  induction s as [|c r IH]; intros H; [by repeat constructor|].
  apply seven_bit_cons in H as [Hc Hr]. specialize (IH Hr).
  cbn [PyStr.split]. destruct (Ascii.eqb c " "); [by constructor|].
  destruct (PyStr.split " " r) as [|w ws].
  - repeat constructor. apply seven_bit_cons. by split.
  - inversion IH; subst. constructor; [|assumption].
    apply seven_bit_cons. by split.
Qed.

Lemma capitalize_all_codes ws :
  Forall (fun w => seven_bit w = true) ws ->
  Uni.capitalize_all (map Uni.codes ws)
  = Some (map Uni.codes (map PyStr.capitalize ws)).
Proof.
  induction 1 as [|w ws Hw _ IH]; [reflexivity|].
  cbn [map Uni.capitalize_all]. rewrite (capitalize_codes w Hw), IH.
  reflexivity.
Qed.

Lemma join_codes ws :
  Uni.join [32%N] (map Uni.codes ws) = Uni.codes (PyStr.join " " ws).
Proof.
  induction ws as [|w ws IH]; [reflexivity|].
  cbn [map Uni.join PyStr.join]. destruct ws as [|w' ws]; [reflexivity|].
  cbn [map] in *. rewrite IH, !codes_app. reflexivity.
Qed.

Lemma lstrip_codes s :
  seven_bit s = true ->
  Uni.lstrip (Uni.codes s) = Some (Uni.codes (PyStr.lstrip s)).
Proof.
  induction s as [|c r IH]; intros H; [reflexivity|].
  apply seven_bit_cons in H as [Hc Hr].
  cbn [Uni.codes Uni.lstrip PyStr.lstrip]. rewrite (is_space_code c Hc).
  cbn. destruct (PyStr.is_space c); [by apply IH | reflexivity].
Qed.

Lemma rstrip_codes s :
  seven_bit s = true ->
  Uni.rstrip (Uni.codes s) = Some (Uni.codes (PyStr.rstrip s)).
Proof.
  induction s as [|c r IH]; intros H; [reflexivity|].
  apply seven_bit_cons in H as [Hc Hr].
  cbn [Uni.codes Uni.rstrip PyStr.rstrip]. rewrite (IH Hr). cbn.
  destruct (PyStr.rstrip r) as [|d r']; cbn [Uni.codes]; [|reflexivity].
  rewrite (is_space_code c Hc). cbn.
  destruct (PyStr.is_space c); reflexivity.
Qed.

(** On ASCII names the function on code points is the function on ASCII
    texts. *)
Lemma fix_name_codes s :
  seven_bit s = true ->
  Uni.fix_name (Uni.codes s) = Some (Uni.codes (fix_name s)).
Proof.
  intros H. unfold Uni.fix_name, Uni.strip, fix_name, PyStr.strip.
  rewrite (rstrip_codes s H). cbn.
  rewrite (lstrip_codes _ (seven_bit_rstrip s H)). cbn.
  rewrite split_codes, capitalize_all_codes.
  - cbn. by rewrite join_codes.
  - apply seven_bit_split, seven_bit_lstrip, seven_bit_rstrip, H.
Qed.

(** The name made of the one character U+0149 is changed by a second
    pass: [fix_name] gives U+02BC followed by a capital N, and [fix_name]
    of that gives U+02BC followed by a small n. *)
Lemma fix_name_twice_differs :
  Uni.fix_name [0x149%N] = Some [0x2BC; 0x4E]%N
  /\ Uni.fix_name [0x2BC; 0x4E]%N = Some [0x2BC; 0x6E]%N
  /\ Uni.fix_name [0x2BC; 0x4E]%N <> Some [0x2BC; 0x4E]%N.
Proof. split; [reflexivity|]. split; [reflexivity | discriminate]. Qed.

(** C10.  On a name of ASCII characters name normalisation is idempotent:
    the normalised name is again a name of ASCII characters and
    normalising it leaves it unchanged, in the function on ASCII texts as
    in the function on code points. *)
Theorem fix_name_idempotent_ascii (s : string) :
  seven_bit s = true ->
  seven_bit (fix_name s) = true
  /\ fix_name (fix_name s) = fix_name s
  /\ exists t, Uni.fix_name (Uni.codes s) = Some t
               /\ Uni.fix_name t = Some t.
Proof.
  intros H. pose proof (seven_bit_fix_name s H) as H'.
  split; [exact H'|]. split; [apply fix_name_ascii_twice|].
  exists (Uni.codes (fix_name s)). split; [by apply fix_name_codes|].
  rewrite (fix_name_codes _ H'). by rewrite fix_name_ascii_twice.
Qed.

Lemma fix_name_idempotent_ascii_witness :
  seven_bit (fix_name "  jANE  mcDonald ") = true
  /\ fix_name (fix_name "  jANE  mcDonald ") = fix_name "  jANE  mcDonald "
  /\ exists t, Uni.fix_name (Uni.codes "  jANE  mcDonald ") = Some t
               /\ Uni.fix_name t = Some t.
Proof. apply (fix_name_idempotent_ascii "  jANE  mcDonald "). reflexivity. Defined.

(** On a name of ASCII characters [fix_name] changes the case of letters
    and nothing else: the result has the length of the stripped name and
    white space exactly where the stripped name has it, runs of blanks
    included, and is itself stripped; and the function on code points
    gives the same name. *)
Theorem fix_name_shape (name : string) :
  seven_bit name = true ->
  same_spaces (PyStr.strip name) (fix_name name)
  /\ String.length (fix_name name) = String.length (PyStr.strip name)
  /\ stripped (fix_name name)
  /\ Uni.fix_name (Uni.codes name) = Some (Uni.codes (fix_name name)).
Proof.
  intros H7. split; [|split; [|split; [|by apply fix_name_codes]]];
    rewrite fix_name_cap_from;
    pose proof (cap_from_same_spaces true (PyStr.strip name)) as H.
  - exact H.
  - symmetry. by apply same_spaces_length.
  - eapply same_spaces_stripped; [exact H | apply strip_stripped].
Qed.

Lemma fix_name_shape_witness :
  same_spaces (PyStr.strip " ana  de la CRUZ ") (fix_name " ana  de la CRUZ ")
  /\ String.length (fix_name " ana  de la CRUZ ")
     = String.length (PyStr.strip " ana  de la CRUZ ")
  /\ stripped (fix_name " ana  de la CRUZ ")
  /\ Uni.fix_name (Uni.codes " ana  de la CRUZ ")
     = Some (Uni.codes (fix_name " ana  de la CRUZ ")).
Proof. apply (fix_name_shape " ana  de la CRUZ "). reflexivity. Defined.

(** Beyond ASCII the shape is not kept: a sharp s becomes two letters,
    and a no-break space at the end is stripped. *)
Example fix_name_beyond_ascii :
  Uni.fix_name [0xDF; 0x78]%N = Some [0x53; 0x73; 0x78]%N
  /\ Uni.fix_name (Uni.codes "Jane Doe" ++ [0xA0%N])
     = Some (Uni.codes "Jane Doe").
Proof. split; reflexivity. Qed.

(** * Schema errors stop the run in the set-up *)

Lemma self_setup_steps grade_book survey_results survey_map map_points :
  self_setup grade_book survey_results survey_map map_points
  = (t ← self_tables grade_book survey_results survey_map map_points;
     col_email ← unpack1 (find_columns survey_map "self" "email" newhead_col
                                       (Some "SE") None);
     list_emails ← col_values (snd t) col_email;
     Ok (mkSelfSetup (fst t) (snd t)
           (find_columns survey_map "self" "rating" newhead_col
                         (Some "SE") None)
           col_email list_emails)).
Proof.
  unfold self_setup, self_tables.
  destruct (select survey_results _) as [evals_self|e]; run; [|reflexivity].
  destruct (rename_columns _ _) as [evals_self'|e]; run; [|reflexivity].
  destruct (select evals_self' _) as [sel|e]; run; [|reflexivity].
  destruct (convert_ratings _ _) as [conv|e]; run; [|reflexivity].
  destruct (loc_set_cols _ _ _) as [evals_self''|e]; run; reflexivity.
Qed.

Lemma self_setup_unpack_error grade_book survey_results survey_map map_points :
  length (find_columns survey_map "self" "email" newhead_col (Some "SE") None)
    <> 1%nat ->
  exists e,
    self_setup grade_book survey_results survey_map map_points = Err e
    /\ stopped_at_unpacking
         (self_tables grade_book survey_results survey_map map_points) e.
Proof.
  intros Hlen. rewrite self_setup_steps.
  destruct (self_tables _ _ _ _) as [t|e]; run.
  - rewrite (unpack1_length _ Hlen). run. exists ValueError. by split.
  - exists e. by split.
Qed.

Lemma peer_setup_steps all_peers grade_book survey_results survey_map :
  peer_setup all_peers grade_book survey_results survey_map
  = (t ← peer_tables all_peers grade_book survey_results survey_map;
     firstpeer ← first_peer survey_map;
     col_peername ← unpack1 (find_columns survey_map firstpeer "name"
                                          newhead_col None None);
     Ok (mkPeerSetup t.1.1.1 t.1.1.2 t.1.2 t.2 col_peername)).
Proof.
  unfold peer_setup, peer_tables.
  destruct (first_peer survey_map) as [firstpeer|e]; run; [|reflexivity].
  destruct (foldM _ all_peers _) as [evals_peer|e]; run; [|reflexivity].
  destruct (peer_columns survey_map) as [pe_cols|e]; run; [|reflexivity].
  destruct (col_values _ "Name") as [names|e]; run; reflexivity.
Qed.

Lemma peer_setup_unpack_error all_peers grade_book survey_results survey_map
    firstpeer :
  first_peer survey_map = Ok firstpeer ->
  length (find_columns survey_map firstpeer "name" newhead_col None None)
    <> 1%nat ->
  exists e,
    peer_setup all_peers grade_book survey_results survey_map = Err e
    /\ stopped_at_unpacking
         (peer_tables all_peers grade_book survey_results survey_map) e.
Proof.
  intros Hfp Hlen. rewrite peer_setup_steps.
  destruct (peer_tables _ _ _ _) as [t|e]; run.
  - rewrite Hfp. run. rewrite (unpack1_length _ Hlen). run.
    exists ValueError. by split.
  - exists e. by split.
Qed.

(** When the schema does not file exactly one column as the respondent's
    email, [process_self_evals] raises in its set-up, before the loop over
    the responses: no response is looked at, no roster is returned and
    nothing is written to the operator.  The error is the [ValueError] of
    the unpacking whenever the statements before it go through. *)
Theorem self_schema_error_aborts (grade_book survey_results : DataFrame)
    (survey_map : list SchemaEntry) (map_points : lexicon) (k : console) :
  length (find_columns survey_map "self" "email" newhead_col (Some "SE") None)
    <> 1%nat ->
  exists e,
    self_setup grade_book survey_results survey_map map_points = Err e
    /\ process_self_evals grade_book survey_results survey_map map_points k
       = Raised e k
    /\ stopped_at_unpacking
         (self_tables grade_book survey_results survey_map map_points) e.
Proof.
  intros Hlen.
  destruct (self_setup_unpack_error grade_book survey_results survey_map
              map_points Hlen) as (e & Hs & Hat).
  exists e. split; [exact Hs|]. split; [|exact Hat].
  unfold process_self_evals. rewrite io_bind_of, Hs. reflexivity.
Qed.

Lemma self_schema_error_aborts_witness :
  length (find_columns demo_schema_two_emails "self" "email" newhead_col
                       (Some "SE") None) = 2%nat
  /\ self_setup demo_roster demo_responses_two_emails demo_schema_two_emails
                demo_lexicon = Err ValueError
  /\ process_self_evals demo_roster demo_responses_two_emails
                        demo_schema_two_emails demo_lexicon
                        (mkConsole ["Jane Doe"] [])
     = Raised ValueError (mkConsole ["Jane Doe"] []).
Proof.
  split; [reflexivity|].
  destruct (self_schema_error_aborts demo_roster demo_responses_two_emails
              demo_schema_two_emails demo_lexicon (mkConsole ["Jane Doe"] []))
    as (e & Hs & Hrun & Hat).
  - vm_compute. lia.
  - assert (He : e = ValueError) by exact Hat. subst e. by split.
Defined.

(** When the schema does not file exactly one column as the name of the
    first peer slot, [process_peer_evals] raises in its set-up, before the
    loop over the evaluations: no evaluation is looked at, no roster is
    returned and nothing is written to the operator.  The error is the
    [ValueError] of the unpacking whenever the statements before it go
    through.  (The role of the slot is a pattern for [find_columns]; it
    holds no operator of regular expressions.) *)
Theorem peer_schema_error_aborts (all_peers : list string)
    (grade_book survey_results : DataFrame) (survey_map : list SchemaEntry)
    (map_points : lexicon) (firstpeer : string) (k : console) :
  first_peer survey_map = Ok firstpeer ->
  regex_free firstpeer = true ->
  length (find_columns survey_map firstpeer "name" newhead_col None None)
    <> 1%nat ->
  exists e,
    peer_setup all_peers grade_book survey_results survey_map = Err e
    /\ process_peer_evals all_peers grade_book survey_results survey_map
                          map_points k = Raised e k
    /\ stopped_at_unpacking
         (peer_tables all_peers grade_book survey_results survey_map) e.
Proof.
  intros Hfp _ Hlen.
  destruct (peer_setup_unpack_error all_peers grade_book survey_results
              survey_map firstpeer Hfp Hlen) as (e & Hs & Hat).
  exists e. split; [exact Hs|]. split; [|exact Hat].
  unfold process_peer_evals. rewrite io_bind_of, Hs. reflexivity.
Qed.

Lemma peer_schema_error_aborts_witness :
  first_peer demo_schema_nameless_peer = Ok "peer1"
  /\ regex_free "peer1" = true
  /\ length (find_columns demo_schema_nameless_peer "peer1" "name"
                          newhead_col None None) = 0%nat
  /\ peer_setup ["peer1"] demo_roster demo_responses
                demo_schema_nameless_peer = Err ValueError
  /\ process_peer_evals ["peer1"] demo_roster demo_responses
                        demo_schema_nameless_peer demo_lexicon
                        (mkConsole ["NA"] [])
     = Raised ValueError (mkConsole ["NA"] []).
Proof.
  split; [reflexivity|]. split; [reflexivity|]. split; [reflexivity|].
  destruct (peer_schema_error_aborts ["peer1"] demo_roster demo_responses
              demo_schema_nameless_peer demo_lexicon "peer1"
              (mkConsole ["NA"] []) eq_refl eq_refl)
    as (e & Hs & Hrun & Hat).
  - vm_compute. lia.
  - assert (He : e = ValueError) by exact Hat. subst e. by split.
Defined.

(** * Skip words, schema errors and the order of the matching strategies *)

(** With the schema of [demo_schema] the two responses of the sheet are
    merged; with a schema that files two columns as the respondent's email
    the same responses are not looked at: the call raises [ValueError]
    and returns no roster. *)
Lemma schema_error_reaches_caller :
  (exists gb',
     process_self_evals demo_roster demo_responses demo_schema demo_lexicon
                        (mkConsole [] []) = Returned gb' (mkConsole [] []))
  /\ process_self_evals demo_roster demo_responses_two_emails
                        demo_schema_two_emails demo_lexicon (mkConsole [] [])
     = Raised ValueError (mkConsole [] []).
Proof. split; [eexists|]; vm_compute; reflexivity. Qed.

(** C2.  A schema that does not file exactly one column as the
    respondent's email stops [process_self_evals], and one that does not
    file exactly one column as the name of the first peer slot stops
    [process_peer_evals]: the call raises in its set-up, before any
    response is looked at; it returns no roster, so nothing is processed
    for any response, and it writes nothing to the operator.  (The role of
    the first peer slot holds no operator of regular expressions.) *)
Theorem schema_error_aborts_run (all_peers : list string)
    (grade_book survey_results : DataFrame) (survey_map : list SchemaEntry)
    (map_points : lexicon) (k : console) :
  (length (find_columns survey_map "self" "email" newhead_col (Some "SE") None)
     <> 1%nat ->
   exists e,
     self_setup grade_book survey_results survey_map map_points = Err e
     /\ process_self_evals grade_book survey_results survey_map map_points k
        = Raised e k)
  /\ (forall firstpeer,
        first_peer survey_map = Ok firstpeer ->
        regex_free firstpeer = true ->
        length (find_columns survey_map firstpeer "name" newhead_col None None)
          <> 1%nat ->
        exists e,
          peer_setup all_peers grade_book survey_results survey_map = Err e
          /\ process_peer_evals all_peers grade_book survey_results
                                survey_map map_points k = Raised e k).
Proof.
  split.
  - intros Hlen.
    destruct (self_setup_unpack_error grade_book survey_results survey_map
                map_points Hlen) as (e & Hs & _).
    exists e. split; [exact Hs|].
    unfold process_self_evals. rewrite io_bind_of, Hs. reflexivity.
  - intros firstpeer Hfp _ Hlen.
    destruct (peer_setup_unpack_error all_peers grade_book survey_results
                survey_map firstpeer Hfp Hlen) as (e & Hs & _).
    exists e. split; [exact Hs|].
    unfold process_peer_evals. rewrite io_bind_of, Hs. reflexivity.
Qed.

Lemma schema_error_aborts_run_witness :
  (exists e,
     self_setup demo_roster demo_responses_two_emails demo_schema_two_emails
                demo_lexicon = Err e
     /\ process_self_evals demo_roster demo_responses_two_emails
                           demo_schema_two_emails demo_lexicon
                           (mkConsole ["NA"] [])
        = Raised e (mkConsole ["NA"] []))
  /\ (exists e,
        peer_setup ["peer1"] demo_roster demo_responses
                   demo_schema_nameless_peer = Err e
        /\ process_peer_evals ["peer1"] demo_roster demo_responses
                              demo_schema_nameless_peer demo_lexicon
                              (mkConsole ["NA"] [])
           = Raised e (mkConsole ["NA"] [])).
Proof.
  split.
  - apply (schema_error_aborts_run [] demo_roster demo_responses_two_emails
             demo_schema_two_emails demo_lexicon (mkConsole ["NA"] [])).
    vm_compute. lia.
  - apply (proj2 (schema_error_aborts_run ["peer1"] demo_roster
                    demo_responses demo_schema_nameless_peer demo_lexicon
                    (mkConsole ["NA"] [])) "peer1" eq_refl eq_refl).
    vm_compute. lia.
Defined.

(** C1.  The peer path does not treat every accepted skip word as a
    skip.  On the sheet of [demo_responses], where one evaluation names a
    student the roster does not have, the operator's answer ["NA"] lets the
    run return, while the answer ["na"], which [find_student] accepts as
    well, makes [process_peer_evals] raise [KeyError]; this in either order
    of the peer slots. *)
Theorem peer_skip_word_run :
  (forall all_peers,
     all_peers = ["peer1"; "peer2"] \/ all_peers = ["peer2"; "peer1"] ->
     exists k',
       process_peer_evals all_peers demo_roster demo_responses demo_schema
                          demo_lexicon (mkConsole ["na"] [])
       = Raised KeyError k'
       /\ pending k' = [])
  /\ (forall all_peers,
        all_peers = ["peer1"; "peer2"] \/ all_peers = ["peer2"; "peer1"] ->
        exists gb' k',
          process_peer_evals all_peers demo_roster demo_responses demo_schema
                             demo_lexicon (mkConsole ["NA"] [])
          = Returned gb' k'
          /\ pending k' = [])
  /\ py_in (Str "na") NA_LIST = true.
Proof.
  split; [|split; [|reflexivity]].
  - intros all_peers [-> | ->]; eexists; split;
      try (vm_compute; reflexivity); reflexivity.
  - intros all_peers [-> | ->]; do 2 eexists; split;
      try (vm_compute; reflexivity); reflexivity.
Qed.

Lemma peer_skip_word_run_witness :
  exists k',
    process_peer_evals ["peer1"; "peer2"] demo_roster demo_responses
                       demo_schema demo_lexicon (mkConsole ["na"] [])
    = Raised KeyError k'
    /\ pending k' = [].
Proof.
  apply (proj1 peer_skip_word_run ["peer1"; "peer2"]). by left.
Defined.

(** C5.  The self path does not try the name as typed first.  The roster
    has a Jane McDonald, and a response comes under exactly that name from
    an address the roster does not have.  [process_self_evals] normalises
    the name to Jane Mcdonald before it compares, finds no such roster
    name, goes to the fallback and raises there; [process_peer_evals],
    given the same name as the name of a peer, compares the name as typed
    first, files the evaluation under Jane McDonald and asks nothing. *)
Theorem self_path_normalises_first :
  col_values demo_roster_mc "Name" = Ok [Str "Jane McDonald"; Str "Ravi Patel"]
  /\ col_values demo_responses_mc "Your name" = Ok [Str "Jane McDonald"]
  /\ fix_name "Jane McDonald" = "Jane Mcdonald"
  /\ process_self_evals demo_roster_mc demo_responses_mc demo_schema
                        demo_lexicon (mkConsole ["Jane McDonald"] [])
     = Raised ValueError (mkConsole ["Jane McDonald"] [])
  /\ exists gb',
       process_peer_evals ["peer1"; "peer2"] demo_roster_mc demo_responses_mc
                          demo_schema demo_lexicon (mkConsole [] [])
       = Returned gb' (mkConsole [] [])
       /\ loc_get gb' 0 "Name" = Ok (Str "Jane McDonald")
       /\ loc_get gb' 0 "PE: N" = Ok (Num 1).
Proof.
  split; [reflexivity|]. split; [reflexivity|]. split; [reflexivity|].
  split; [vm_compute; reflexivity|].
  eexists. split; [vm_compute; reflexivity|]. split; reflexivity.
Qed.

Lemma at_pos_None {A} (l : list A) i :
  l !! i = None -> at_pos l i = Err KeyError.
Proof. unfold at_pos. by intros ->. Qed.

Lemma loc_get_col_values df c vs i :
  col_values df c = Ok vs -> loc_get df i c = at_pos vs i.
Proof.
  intros H. apply col_values_Ok in H as (j & Hj & Hall).
  unfold loc_get. rewrite (proj2 (col_pos_Ok _ _ _) Hj). run.
  destruct (rows df !! i) as [r|] eqn:Hr.
  - destruct (Forall2_lookup_l _ _ _ _ _ Hall Hr) as (v & Hv & Hrv).
    rewrite (proj2 (at_pos_Ok _ _ _) Hr). run.
    by rewrite (proj2 (at_pos_Ok _ _ _) Hrv), (proj2 (at_pos_Ok _ _ _) Hv).
  - rewrite (at_pos_None _ _ Hr). run. symmetry. apply at_pos_None.
    apply Forall2_length in Hall.
    apply lookup_ge_None in Hr. apply lookup_ge_None. lia.
Qed.

Lemma select_loc_get df cols sel i c :
  select df cols = Ok sel -> c ∈ cols -> (i < length (rows sel))%nat ->
  loc_get sel i c = loc_get df i c.
Proof.
  unfold select. intros H Hc Hi.
  destruct (traverse _ cols) as [js|] eqn:Hjs; [|discriminate].
  revert H. run.
  destruct (traverse _ (rows df)) as [rs|] eqn:Hrs; run; [|discriminate].
  intros [= <-]. simpl in Hi.
  apply traverse_Ok in Hjs, Hrs.
  destruct (col_find_first c cols Hc) as (k & Hfind & Hk).
  destruct (Forall2_lookup_l _ _ _ _ _ Hjs Hk) as (j & Hj & Hpos).
  destruct (lookup_lt_is_Some_2 rs i Hi) as [r' Hr'].
  destruct (Forall2_lookup_r _ _ _ _ _ Hrs Hr') as (r & Hr & Hrow).
  apply traverse_Ok in Hrow.
  destruct (Forall2_lookup_l _ _ _ _ _ Hrow Hj) as (x & Hx & Hat).
  unfold loc_get. cbn [columns rows].
  rewrite (proj2 (col_pos_Ok _ _ _) Hfind), Hpos. run.
  rewrite (proj2 (at_pos_Ok _ _ _) Hr'), (proj2 (at_pos_Ok _ _ _) Hr). run.
  rewrite Hat. by apply at_pos_Ok.
Qed.

Lemma removelast_lookup {A} (l : list A) i :
  (S i < length l)%nat -> removelast l !! i = l !! i.
Proof.
  revert i. induction l as [|a [|b l] IH]; intros i Hi; simpl in Hi; [lia|lia|].
  change (removelast (a :: b :: l)) with (a :: removelast (b :: l)).
  destruct i as [|i]; [reflexivity|]. simpl. apply IH. simpl. lia.
Qed.

Lemma iloc_inner_lookup (rs : list (list cell)) i :
  (i < length (iloc_inner rs))%nat -> iloc_inner rs !! i = rs !! S i.
Proof.
  unfold iloc_inner. rewrite length_removelast. intros Hi.
  rewrite removelast_lookup by lia.
  destruct rs; [simpl in Hi; lia | reflexivity].
Qed.

(** [prep_gradebook] keeps the rows of the export between its first and
    its last: the result has two rows fewer, row [i] of the result is row
    [i + 1] of the export in each of the six Canvas columns, which come in
    the order of [GB_KEEP_COLS], and the added ['Name'] column holds, row
    by row, the ['Student'] cell with its two parts swapped. *)
Theorem prep_gradebook_shape (grade_book gb' : DataFrame) :
  prep_gradebook grade_book = Ok gb' ->
  columns gb' = GB_KEEP_COLS ++ ["Name"]
  /\ length (rows gb') = (length (rows grade_book) - 2)%nat
  /\ rect gb'
  /\ (forall i c, (i < length (rows gb'))%nat -> c ∈ GB_KEEP_COLS ->
        loc_get gb' i c = loc_get grade_book (S i) c)
  /\ exists students names,
       col_values gb' "Student" = Ok students
       /\ col_values gb' "Name" = Ok names
       /\ Forall2 (fun s n => unformatted_name s = Ok n) students names.
Proof.
  unfold prep_gradebook. intros H.
  destruct (select _ GB_KEEP_COLS) as [kept|] eqn:Hsel; [|discriminate].
  revert H. run.
  destruct (col_values kept "Student") as [students|] eqn:Hst; run;
    [|discriminate].
  destruct (traverse unformatted_name students) as [names|] eqn:Hnm; run;
    [|discriminate].
  intros [= <-].
  pose proof (select_shape _ _ _ Hsel) as (Hcols & Hlen & Hrect).
  simpl in Hlen.
  pose proof (col_values_length _ _ _ Hst) as Hls.
  pose proof (traverse_length _ _ _ Hnm) as Hln.
  assert (Hfresh : col_find "Name" (columns kept) = None)
    by (rewrite Hcols; reflexivity).
  assert (Hll : length names = length (rows kept)) by congruence.
  destruct (setitem_series_rect kept "Name" names Hrect Hll) as [Hr' Hl'].
  assert (Hinner : length (iloc_inner (rows grade_book))
                   = (length (rows grade_book) - 2)%nat).
  { unfold iloc_inner. rewrite length_removelast.
    destruct (rows grade_book); simpl; lia. }
  split; [|split; [|split; [exact Hr'|split]]].
  - unfold setitem_series. rewrite Hfresh. simpl. by rewrite Hcols.
  - by rewrite Hl', Hlen.
  - intros i c Hi Hc. rewrite Hl' in Hi.
    assert (Hckept : c ∈ columns kept) by (by rewrite Hcols).
    destruct (col_values_total kept c Hrect Hckept) as [vs Hvs].
    assert (Hne : c <> "Name").
    { intros ->. apply col_find_None in Hfresh. contradiction. }
    rewrite (loc_get_col_values _ _ vs).
    2:{ rewrite col_values_setitem_ne by assumption. exact Hvs. }
    rewrite <- (loc_get_col_values kept c vs i Hvs).
    rewrite (select_loc_get _ _ _ i c Hsel Hc Hi).
    assert (Hat : at_pos (iloc_inner (rows grade_book)) i
                  = at_pos (rows grade_book) (S i)).
    { unfold at_pos. rewrite iloc_inner_lookup by (rewrite <- Hlen; exact Hi).
      reflexivity. }
    unfold loc_get. cbn [columns rows].
    destruct (col_pos c (columns grade_book)) as [j|]; run; [|reflexivity].
    by rewrite Hat.
  - exists students, names. split; [|split].
    + rewrite col_values_setitem_ne by (assumption || discriminate).
      exact Hst.
    + by apply col_values_setitem_eq.
    + by apply traverse_Ok.
Qed.

Lemma prep_gradebook_shape_witness :
  exists gb',
    prep_gradebook demo_canvas = Ok gb'
    /\ columns gb' = GB_KEEP_COLS ++ ["Name"]
    /\ length (rows gb') = (length (rows demo_canvas) - 2)%nat
    /\ rect gb'
    /\ (forall i c, (i < length (rows gb'))%nat -> c ∈ GB_KEEP_COLS ->
          loc_get gb' i c = loc_get demo_canvas (S i) c)
    /\ exists students names,
         col_values gb' "Student" = Ok students
         /\ col_values gb' "Name" = Ok names
         /\ Forall2 (fun s n => unformatted_name s = Ok n) students names.
Proof.
  eexists. split; [vm_compute; reflexivity|].
  apply (prep_gradebook_shape demo_canvas). vm_compute. reflexivity.
Defined.
